(** * Stage: the problem-graph layer of rockit (src/rockit/stage.py)

    A shallow embedding of the [Stage] class.  Python objects live in a heap
    of stage records addressed by natural numbers, every method is a
    computation in a state-and-exception monad over that heap, and an
    exception keeps the heap as it was when it was raised, as in Python.

    CasADi (symbols, expressions, [substitute], [depends_on]) is an external
    engine: it is represented by a small syntactic expression type that has
    exactly the operations [stage.py] calls. *)

From Stdlib Require Import ZArith QArith String Ascii List Bool Lia.
From stdpp Require Import base list gmap strings.
Import ListNotations.
Open Scope string_scope.
Open Scope list_scope.
Open Scope stdpp_scope.

(** ** The symbolic engine, as far as stage.py uses it *)

(** [MX.sym] mints a node with its own identity; [id] is that identity, the
    name is only a label (the random numeric suffix that [state] and
    [variable] put in the label is left out). *)
Inductive MX : Type :=
| MSym (id : nat) (name : string) (rows cols : nat)
| MConst (c : Z)
| MEmpty
| MNan (rows cols : nat)
| MNeg (a : MX)
| MAdd (a b : MX)
| MGe (a b : MX)
| MLe (a b : MX)
| MVec (a : MX)
| MTranspose (a : MX)
| MVcat (a b : MX)
| MHcat (a b : MX).

Definition MX_eq_dec (a b : MX) : {a = b} + {a <> b}.
Proof.
  decide equality; solve [apply Nat.eq_dec | apply string_dec | apply Z.eq_dec].
Defined.

#[global] Instance MX_eq_decision : EqDecision MX := MX_eq_dec.

(** [is_equal(a, b)]: the same node. *)
Definition is_equal (a b : MX) : bool := bool_decide (a = b).

(** [e.shape] (the sparsity pattern is reduced to the dimensions). *)
Fixpoint shape (e : MX) : nat * nat :=
  match e with
  | MSym _ _ r c => (r, c)
  | MConst _ => (1, 1)
  | MEmpty => (0, 1)
  | MNan r c => (r, c)
  | MNeg a => shape a
  | MAdd a b | MGe a b | MLe a b =>
      if bool_decide (shape a = (1, 1)) then shape b else shape a
  | MVec a => (fst (shape a) * snd (shape a), 1)
  | MTranspose a => (snd (shape a), fst (shape a))
  | MVcat a b => (fst (shape a) + fst (shape b), snd (shape b))
  | MHcat a b => (fst (shape b), snd (shape a) + snd (shape b))
  end.

(** The symbolic primitives an expression is built from. *)
Fixpoint symbols (e : MX) : list nat :=
  match e with
  | MSym i _ _ _ => [i]
  | MConst _ | MEmpty | MNan _ _ => []
  | MNeg a | MVec a | MTranspose a => symbols a
  | MAdd a b | MGe a b | MLe a b | MVcat a b | MHcat a b =>
      symbols a ++ symbols b
  end.

(** [depends_on(f, arg)]: does [f] contain one of the symbols of [arg]? *)
Definition depends_on (f arg : MX) : bool :=
  existsb (fun i => existsb (Nat.eqb i) (symbols f)) (symbols arg).

(** [vcat(l)] (and variadic [vertcat]), [vvcat(l)] (and variadic [veccat])
    and [hcat(l)]. *)
Definition vcat (l : list MX) : MX := fold_right MVcat MEmpty l.
Definition vvcat (l : list MX) : MX := vcat (map MVec l).
Definition hcat (l : list MX) : MX := fold_right MHcat MEmpty l.

(** [substitute(ex, v, vdef)]: every expression of [ex] with the nodes [v]
    replaced by [vdef], all at once. *)
Fixpoint assoc_MX (k : MX) (sigma : list (MX * MX)) : option MX :=
  match sigma with
  | [] => None
  | (a, b) :: rest => if is_equal k a then Some b else assoc_MX k rest
  end.

Fixpoint substitute1 (sigma : list (MX * MX)) (e : MX) : MX :=
  match assoc_MX e sigma with
  | Some e' => e'
  | None =>
      match e with
      | MSym _ _ _ _ | MConst _ | MEmpty | MNan _ _ => e
      | MNeg a => MNeg (substitute1 sigma a)
      | MVec a => MVec (substitute1 sigma a)
      | MTranspose a => MTranspose (substitute1 sigma a)
      | MAdd a b => MAdd (substitute1 sigma a) (substitute1 sigma b)
      | MGe a b => MGe (substitute1 sigma a) (substitute1 sigma b)
      | MLe a b => MLe (substitute1 sigma a) (substitute1 sigma b)
      | MVcat a b => MVcat (substitute1 sigma a) (substitute1 sigma b)
      | MHcat a b => MHcat (substitute1 sigma a) (substitute1 sigma b)
      end
  end.

Definition substitute (ex v vdef : list MX) : list MX :=
  map (substitute1 (combine v vdef)) ex.

(** [str(e)], as far as the test ["opti" not in str(var)] of [set_initial]
    can see it: the labels of the symbols, in order.  Operators, digits and
    brackets never spell "opti". *)
Fixpoint MX_str (e : MX) : string :=
  match e with
  | MSym _ name _ _ => name
  | MConst _ => "0"
  | MEmpty => "[]"
  | MNan _ _ => "nan"
  | MNeg a => "(-" +:+ MX_str a +:+ ")"
  | MVec a => "vec(" +:+ MX_str a +:+ ")"
  | MTranspose a => MX_str a +:+ "'"
  | MAdd a b => "(" +:+ MX_str a +:+ "+" +:+ MX_str b +:+ ")"
  | MGe a b => "(" +:+ MX_str b +:+ "<=" +:+ MX_str a +:+ ")"
  | MLe a b => "(" +:+ MX_str a +:+ "<=" +:+ MX_str b +:+ ")"
  | MVcat a b => "vertcat(" +:+ MX_str a +:+ ", " +:+ MX_str b +:+ ")"
  | MHcat a b => "horzcat(" +:+ MX_str a +:+ ", " +:+ MX_str b +:+ ")"
  end.

(** Python's [needle in hay] on strings. *)
Definition str_in (needle hay : string) : bool :=
  match String.index 0 needle hay with Some _ => true | None => false end.

(** ** Python values and containers *)

(** A number or an expression (initial guesses, parameter values). *)
Inductive Value : Type :=
| VNum (q : Q)
| VMX (e : MX).

(** [t0] and [T]: a value, or the sentinel [FreeTime(T_init)]
    (rockit/freetime.py: an object that only stores its hint). *)
Inductive TimeSpec : Type :=
| FreeTime (T_init : Value)
| Fixed (v : Value).

Definition addr := nat.

(** [HashDict] / [HashOrderedDict]: a dict keyed by expression nodes, in
    insertion order; assigning to a key that is present keeps its place. *)
Definition HashDict (V : Type) : Type := list (MX * V).

Section HashDict.
Context {V : Type}.

Fixpoint hd_get (k : MX) (d : HashDict V) : option V :=
  match d with
  | [] => None
  | (k', v) :: d' => if is_equal k k' then Some v else hd_get k d'
  end.

Fixpoint hd_set (k : MX) (v : V) (d : HashDict V) : HashDict V :=
  match d with
  | [] => [(k, v)]
  | (k', v') :: d' =>
      if is_equal k k' then (k', v) :: d' else (k', v') :: hd_set k v d'
  end.

Definition hd_keys (d : HashDict V) : list MX := map fst d.
Definition hd_values (d : HashDict V) : list V := map snd d.

(** Truth value of a dict: [not d] holds for the empty one only. *)
Definition hd_nonempty (d : HashDict V) : bool :=
  match d with [] => false | _ => true end.
End HashDict.

(** [defaultdict(list)] keyed by a grid tag.  A key that holds the empty
    list is not told apart from a key that is absent (reading a defaultdict
    creates the empty entry). *)
Definition defaultdict (V : Type) : Type := list (string * list V).

Section DefaultDict.
Context {V : Type}.

Fixpoint dd_get (k : string) (d : defaultdict V) : list V :=
  match d with
  | [] => []
  | (k', l) :: d' => if String.eqb k k' then l else dd_get k d'
  end.

Fixpoint dd_append (k : string) (v : V) (d : defaultdict V) : defaultdict V :=
  match d with
  | [] => [(k, [v])]
  | (k', l) :: d' =>
      if String.eqb k k' then (k', l ++ [v]) :: d'
      else (k', l) :: dd_append k v d'
  end.

Definition dd_keys (d : defaultdict V) : list string := map fst d.
End DefaultDict.

(** ** Exceptions *)

Inductive exn : Type :=
| AssertionError
| Exception (msg : string)
| IndexError
| TypeError
| AttributeError
| KeyError
| RuntimeError.

Inductive outcome (A : Type) : Type :=
| Ret (a : A)
| Raise (e : exn).
Arguments Ret {A} a.
Arguments Raise {A} e.

(** ** The transcription method, seen from the stage

    Only what [stage.py] reads or calls.  The stage passed to an evaluator is
    an object reference. *)
Module Method.
Record t : Type := mk {
  N : nat;
  M : nat;
  control_grid : MX;
  integrator_grid : list MX;
  eval_at_control : addr -> MX -> Z -> outcome MX;
  eval_at_integrator : addr -> MX -> nat -> nat -> outcome MX;
  eval_at_integrator_root : addr -> MX -> nat -> nat -> nat -> outcome MX;
  xr_cols : nat -> nat -> nat;
  tr : nat -> nat -> list MX
}.
End Method.

(** Constraint metadata, the dict that [get_meta] returns. *)
Definition Meta : Type := list (string * string).

(** [args] of a stored constraint. *)
Record ConstrArgs : Type := mkArgs {
  arg_grid : string;
  arg_include_last : bool;
  arg_include_first : bool
}.

Definition Constraint : Type := (MX * Meta * ConstrArgs)%type.

(** ** The Stage object *)

Record Stage : Type := mkStage {
  states : list MX;
  qstates : list MX;
  controls : list MX;
  algebraics : list MX;
  parameters : defaultdict MX;
  variables : defaultdict MX;
  _master : option addr;
  parent : option addr;
  _param_vals : HashDict Value;
  _state_der : HashDict MX;
  _state_next : HashDict MX;
  _alg : list MX;
  _constraints : defaultdict Constraint;
  _objective : MX;
  _initial : HashDict Value;
  _placeholders : HashDict MX;
  _placeholder_callbacks : HashDict string;
  _offsets : HashDict (MX * Z);
  _inf_inert : HashDict MX;
  _inf_der : HashDict MX;
  _t : MX;
  _stages : list addr;
  _method : Method.t;
  _t0 : TimeSpec;
  _T : TimeSpec;
  _public_T : MX;
  _public_t0 : MX;
  _tf : MX
}.

(** Attribute assignment [self.f = v]: one function per attribute, every
    other attribute of the object is kept. *)
Definition set_states (v : list MX) (s : Stage) : Stage :=
  mkStage v (qstates s) (controls s) (algebraics s) (parameters s) (variables
  s) (_master s) (parent s) (_param_vals s) (_state_der s) (_state_next s)
  (_alg s) (_constraints s) (_objective s) (_initial s) (_placeholders s)
  (_placeholder_callbacks s) (_offsets s) (_inf_inert s) (_inf_der s) (_t s)
  (_stages s) (_method s) (_t0 s) (_T s) (_public_T s) (_public_t0 s) (_tf s).
Definition set_qstates (v : list MX) (s : Stage) : Stage :=
  mkStage (states s) v (controls s) (algebraics s) (parameters s) (variables
  s) (_master s) (parent s) (_param_vals s) (_state_der s) (_state_next s)
  (_alg s) (_constraints s) (_objective s) (_initial s) (_placeholders s)
  (_placeholder_callbacks s) (_offsets s) (_inf_inert s) (_inf_der s) (_t s)
  (_stages s) (_method s) (_t0 s) (_T s) (_public_T s) (_public_t0 s) (_tf s).
Definition set_controls (v : list MX) (s : Stage) : Stage :=
  mkStage (states s) (qstates s) v (algebraics s) (parameters s) (variables s)
  (_master s) (parent s) (_param_vals s) (_state_der s) (_state_next s) (_alg
  s) (_constraints s) (_objective s) (_initial s) (_placeholders s)
  (_placeholder_callbacks s) (_offsets s) (_inf_inert s) (_inf_der s) (_t s)
  (_stages s) (_method s) (_t0 s) (_T s) (_public_T s) (_public_t0 s) (_tf s).
Definition set_algebraics (v : list MX) (s : Stage) : Stage :=
  mkStage (states s) (qstates s) (controls s) v (parameters s) (variables s)
  (_master s) (parent s) (_param_vals s) (_state_der s) (_state_next s) (_alg
  s) (_constraints s) (_objective s) (_initial s) (_placeholders s)
  (_placeholder_callbacks s) (_offsets s) (_inf_inert s) (_inf_der s) (_t s)
  (_stages s) (_method s) (_t0 s) (_T s) (_public_T s) (_public_t0 s) (_tf s).
Definition set_parameters (v : defaultdict MX) (s : Stage) : Stage :=
  mkStage (states s) (qstates s) (controls s) (algebraics s) v (variables s)
  (_master s) (parent s) (_param_vals s) (_state_der s) (_state_next s) (_alg
  s) (_constraints s) (_objective s) (_initial s) (_placeholders s)
  (_placeholder_callbacks s) (_offsets s) (_inf_inert s) (_inf_der s) (_t s)
  (_stages s) (_method s) (_t0 s) (_T s) (_public_T s) (_public_t0 s) (_tf s).
Definition set_variables (v : defaultdict MX) (s : Stage) : Stage :=
  mkStage (states s) (qstates s) (controls s) (algebraics s) (parameters s) v
  (_master s) (parent s) (_param_vals s) (_state_der s) (_state_next s) (_alg
  s) (_constraints s) (_objective s) (_initial s) (_placeholders s)
  (_placeholder_callbacks s) (_offsets s) (_inf_inert s) (_inf_der s) (_t s)
  (_stages s) (_method s) (_t0 s) (_T s) (_public_T s) (_public_t0 s) (_tf s).
Definition set__master (v : option addr) (s : Stage) : Stage :=
  mkStage (states s) (qstates s) (controls s) (algebraics s) (parameters s)
  (variables s) v (parent s) (_param_vals s) (_state_der s) (_state_next s)
  (_alg s) (_constraints s) (_objective s) (_initial s) (_placeholders s)
  (_placeholder_callbacks s) (_offsets s) (_inf_inert s) (_inf_der s) (_t s)
  (_stages s) (_method s) (_t0 s) (_T s) (_public_T s) (_public_t0 s) (_tf s).
Definition set_parent (v : option addr) (s : Stage) : Stage :=
  mkStage (states s) (qstates s) (controls s) (algebraics s) (parameters s)
  (variables s) (_master s) v (_param_vals s) (_state_der s) (_state_next s)
  (_alg s) (_constraints s) (_objective s) (_initial s) (_placeholders s)
  (_placeholder_callbacks s) (_offsets s) (_inf_inert s) (_inf_der s) (_t s)
  (_stages s) (_method s) (_t0 s) (_T s) (_public_T s) (_public_t0 s) (_tf s).
Definition set__param_vals (v : HashDict Value) (s : Stage) : Stage :=
  mkStage (states s) (qstates s) (controls s) (algebraics s) (parameters s)
  (variables s) (_master s) (parent s) v (_state_der s) (_state_next s) (_alg
  s) (_constraints s) (_objective s) (_initial s) (_placeholders s)
  (_placeholder_callbacks s) (_offsets s) (_inf_inert s) (_inf_der s) (_t s)
  (_stages s) (_method s) (_t0 s) (_T s) (_public_T s) (_public_t0 s) (_tf s).
Definition set__state_der (v : HashDict MX) (s : Stage) : Stage :=
  mkStage (states s) (qstates s) (controls s) (algebraics s) (parameters s)
  (variables s) (_master s) (parent s) (_param_vals s) v (_state_next s) (_alg
  s) (_constraints s) (_objective s) (_initial s) (_placeholders s)
  (_placeholder_callbacks s) (_offsets s) (_inf_inert s) (_inf_der s) (_t s)
  (_stages s) (_method s) (_t0 s) (_T s) (_public_T s) (_public_t0 s) (_tf s).
Definition set__state_next (v : HashDict MX) (s : Stage) : Stage :=
  mkStage (states s) (qstates s) (controls s) (algebraics s) (parameters s)
  (variables s) (_master s) (parent s) (_param_vals s) (_state_der s) v (_alg
  s) (_constraints s) (_objective s) (_initial s) (_placeholders s)
  (_placeholder_callbacks s) (_offsets s) (_inf_inert s) (_inf_der s) (_t s)
  (_stages s) (_method s) (_t0 s) (_T s) (_public_T s) (_public_t0 s) (_tf s).
Definition set__alg (v : list MX) (s : Stage) : Stage :=
  mkStage (states s) (qstates s) (controls s) (algebraics s) (parameters s)
  (variables s) (_master s) (parent s) (_param_vals s) (_state_der s)
  (_state_next s) v (_constraints s) (_objective s) (_initial s)
  (_placeholders s) (_placeholder_callbacks s) (_offsets s) (_inf_inert s)
  (_inf_der s) (_t s) (_stages s) (_method s) (_t0 s) (_T s) (_public_T s)
  (_public_t0 s) (_tf s).
Definition set__constraints (v : defaultdict Constraint) (s : Stage) : Stage :=
  mkStage (states s) (qstates s) (controls s) (algebraics s) (parameters s)
  (variables s) (_master s) (parent s) (_param_vals s) (_state_der s)
  (_state_next s) (_alg s) v (_objective s) (_initial s) (_placeholders s)
  (_placeholder_callbacks s) (_offsets s) (_inf_inert s) (_inf_der s) (_t s)
  (_stages s) (_method s) (_t0 s) (_T s) (_public_T s) (_public_t0 s) (_tf s).
Definition set__objective (v : MX) (s : Stage) : Stage :=
  mkStage (states s) (qstates s) (controls s) (algebraics s) (parameters s)
  (variables s) (_master s) (parent s) (_param_vals s) (_state_der s)
  (_state_next s) (_alg s) (_constraints s) v (_initial s) (_placeholders s)
  (_placeholder_callbacks s) (_offsets s) (_inf_inert s) (_inf_der s) (_t s)
  (_stages s) (_method s) (_t0 s) (_T s) (_public_T s) (_public_t0 s) (_tf s).
Definition set__initial (v : HashDict Value) (s : Stage) : Stage :=
  mkStage (states s) (qstates s) (controls s) (algebraics s) (parameters s)
  (variables s) (_master s) (parent s) (_param_vals s) (_state_der s)
  (_state_next s) (_alg s) (_constraints s) (_objective s) v (_placeholders s)
  (_placeholder_callbacks s) (_offsets s) (_inf_inert s) (_inf_der s) (_t s)
  (_stages s) (_method s) (_t0 s) (_T s) (_public_T s) (_public_t0 s) (_tf s).
Definition set__placeholders (v : HashDict MX) (s : Stage) : Stage :=
  mkStage (states s) (qstates s) (controls s) (algebraics s) (parameters s)
  (variables s) (_master s) (parent s) (_param_vals s) (_state_der s)
  (_state_next s) (_alg s) (_constraints s) (_objective s) (_initial s) v
  (_placeholder_callbacks s) (_offsets s) (_inf_inert s) (_inf_der s) (_t s)
  (_stages s) (_method s) (_t0 s) (_T s) (_public_T s) (_public_t0 s) (_tf s).
Definition set__placeholder_callbacks (v : HashDict string) (s : Stage) : Stage :=
  mkStage (states s) (qstates s) (controls s) (algebraics s) (parameters s)
  (variables s) (_master s) (parent s) (_param_vals s) (_state_der s)
  (_state_next s) (_alg s) (_constraints s) (_objective s) (_initial s)
  (_placeholders s) v (_offsets s) (_inf_inert s) (_inf_der s) (_t s) (_stages
  s) (_method s) (_t0 s) (_T s) (_public_T s) (_public_t0 s) (_tf s).
Definition set__offsets (v : HashDict (MX * Z)) (s : Stage) : Stage :=
  mkStage (states s) (qstates s) (controls s) (algebraics s) (parameters s)
  (variables s) (_master s) (parent s) (_param_vals s) (_state_der s)
  (_state_next s) (_alg s) (_constraints s) (_objective s) (_initial s)
  (_placeholders s) (_placeholder_callbacks s) v (_inf_inert s) (_inf_der s)
  (_t s) (_stages s) (_method s) (_t0 s) (_T s) (_public_T s) (_public_t0 s)
  (_tf s).
Definition set__inf_inert (v : HashDict MX) (s : Stage) : Stage :=
  mkStage (states s) (qstates s) (controls s) (algebraics s) (parameters s)
  (variables s) (_master s) (parent s) (_param_vals s) (_state_der s)
  (_state_next s) (_alg s) (_constraints s) (_objective s) (_initial s)
  (_placeholders s) (_placeholder_callbacks s) (_offsets s) v (_inf_der s) (_t
  s) (_stages s) (_method s) (_t0 s) (_T s) (_public_T s) (_public_t0 s) (_tf
  s).
Definition set__inf_der (v : HashDict MX) (s : Stage) : Stage :=
  mkStage (states s) (qstates s) (controls s) (algebraics s) (parameters s)
  (variables s) (_master s) (parent s) (_param_vals s) (_state_der s)
  (_state_next s) (_alg s) (_constraints s) (_objective s) (_initial s)
  (_placeholders s) (_placeholder_callbacks s) (_offsets s) (_inf_inert s) v
  (_t s) (_stages s) (_method s) (_t0 s) (_T s) (_public_T s) (_public_t0 s)
  (_tf s).
Definition set__t (v : MX) (s : Stage) : Stage :=
  mkStage (states s) (qstates s) (controls s) (algebraics s) (parameters s)
  (variables s) (_master s) (parent s) (_param_vals s) (_state_der s)
  (_state_next s) (_alg s) (_constraints s) (_objective s) (_initial s)
  (_placeholders s) (_placeholder_callbacks s) (_offsets s) (_inf_inert s)
  (_inf_der s) v (_stages s) (_method s) (_t0 s) (_T s) (_public_T s)
  (_public_t0 s) (_tf s).
Definition set__stages (v : list addr) (s : Stage) : Stage :=
  mkStage (states s) (qstates s) (controls s) (algebraics s) (parameters s)
  (variables s) (_master s) (parent s) (_param_vals s) (_state_der s)
  (_state_next s) (_alg s) (_constraints s) (_objective s) (_initial s)
  (_placeholders s) (_placeholder_callbacks s) (_offsets s) (_inf_inert s)
  (_inf_der s) (_t s) v (_method s) (_t0 s) (_T s) (_public_T s) (_public_t0
  s) (_tf s).
Definition set__method (v : Method.t) (s : Stage) : Stage :=
  mkStage (states s) (qstates s) (controls s) (algebraics s) (parameters s)
  (variables s) (_master s) (parent s) (_param_vals s) (_state_der s)
  (_state_next s) (_alg s) (_constraints s) (_objective s) (_initial s)
  (_placeholders s) (_placeholder_callbacks s) (_offsets s) (_inf_inert s)
  (_inf_der s) (_t s) (_stages s) v (_t0 s) (_T s) (_public_T s) (_public_t0
  s) (_tf s).
Definition set__t0 (v : TimeSpec) (s : Stage) : Stage :=
  mkStage (states s) (qstates s) (controls s) (algebraics s) (parameters s)
  (variables s) (_master s) (parent s) (_param_vals s) (_state_der s)
  (_state_next s) (_alg s) (_constraints s) (_objective s) (_initial s)
  (_placeholders s) (_placeholder_callbacks s) (_offsets s) (_inf_inert s)
  (_inf_der s) (_t s) (_stages s) (_method s) v (_T s) (_public_T s)
  (_public_t0 s) (_tf s).
Definition set__T (v : TimeSpec) (s : Stage) : Stage :=
  mkStage (states s) (qstates s) (controls s) (algebraics s) (parameters s)
  (variables s) (_master s) (parent s) (_param_vals s) (_state_der s)
  (_state_next s) (_alg s) (_constraints s) (_objective s) (_initial s)
  (_placeholders s) (_placeholder_callbacks s) (_offsets s) (_inf_inert s)
  (_inf_der s) (_t s) (_stages s) (_method s) (_t0 s) v (_public_T s)
  (_public_t0 s) (_tf s).
Definition set__public_T (v : MX) (s : Stage) : Stage :=
  mkStage (states s) (qstates s) (controls s) (algebraics s) (parameters s)
  (variables s) (_master s) (parent s) (_param_vals s) (_state_der s)
  (_state_next s) (_alg s) (_constraints s) (_objective s) (_initial s)
  (_placeholders s) (_placeholder_callbacks s) (_offsets s) (_inf_inert s)
  (_inf_der s) (_t s) (_stages s) (_method s) (_t0 s) (_T s) v (_public_t0 s)
  (_tf s).
Definition set__public_t0 (v : MX) (s : Stage) : Stage :=
  mkStage (states s) (qstates s) (controls s) (algebraics s) (parameters s)
  (variables s) (_master s) (parent s) (_param_vals s) (_state_der s)
  (_state_next s) (_alg s) (_constraints s) (_objective s) (_initial s)
  (_placeholders s) (_placeholder_callbacks s) (_offsets s) (_inf_inert s)
  (_inf_der s) (_t s) (_stages s) (_method s) (_t0 s) (_T s) (_public_T s) v
  (_tf s).
Definition set__tf (v : MX) (s : Stage) : Stage :=
  mkStage (states s) (qstates s) (controls s) (algebraics s) (parameters s)
  (variables s) (_master s) (parent s) (_param_vals s) (_state_der s)
  (_state_next s) (_alg s) (_constraints s) (_objective s) (_initial s)
  (_placeholders s) (_placeholder_callbacks s) (_offsets s) (_inf_inert s)
  (_inf_der s) (_t s) (_stages s) (_method s) (_t0 s) (_T s) (_public_T s)
  (_public_t0 s) v.

(** ** The heap and the monad of methods *)

(** [stages] is the heap of Stage objects; a new object takes the next
    address.  [_is_transcribed] and [_transcribed_placeholders] are the two
    attributes that [Stage.__init__] does not create: the master (an [Ocp],
    rockit/ocp.py) owns them, and [clone] sets the first on its result.  An
    address missing from a table is an object without that attribute. *)
Record World : Type := mkWorld {
  next_sym : nat;
  stages : list Stage;
  _is_transcribed : gmap addr bool;
  _transcribed_placeholders : gmap addr bool
}.

Definition set_next_sym (v : nat) (w : World) : World :=
  mkWorld v (stages w) (_is_transcribed w) (_transcribed_placeholders w).
Definition set_stages (v : list Stage) (w : World) : World :=
  mkWorld (next_sym w) v (_is_transcribed w) (_transcribed_placeholders w).
Definition set__is_transcribed (v : gmap addr bool) (w : World) : World :=
  mkWorld (next_sym w) (stages w) v (_transcribed_placeholders w).
Definition set__transcribed_placeholders (v : gmap addr bool) (w : World) : World :=
  mkWorld (next_sym w) (stages w) (_is_transcribed w) v.

Definition M (A : Type) : Type := World -> outcome A * World.

Definition ret {A} (a : A) : M A := fun w => (Ret a, w).
Definition raise {A} (e : exn) : M A := fun w => (Raise e, w).
Definition bind {A B} (m : M A) (f : A -> M B) : M B :=
  fun w =>
    match m w with
    | (Ret a, w') => f a w'
    | (Raise e, w') => (Raise e, w')
    end.
Definition lift {A} (o : outcome A) : M A := fun w => (o, w).

Notation "x <- m ;; k" := (bind m (fun x => k))
  (at level 100, m at next level, right associativity).
Notation "m ;; k" := (bind m (fun _ => k))
  (at level 100, right associativity).

(** Reading the object behind a reference. *)
Definition get_stage (a : addr) : M Stage :=
  fun w =>
    match stages w !! a with
    | Some s => (Ret s, w)
    | None => (Raise RuntimeError, w)
    end.

(** Assigning attributes of the object behind a reference. *)
Definition update_stage (a : addr) (f : Stage -> Stage) : M unit :=
  s <- get_stage a ;;
  fun w => (Ret tt, set_stages (<[a := f s]> (stages w)) w).

(** Object creation. *)
Definition alloc (s : Stage) : M addr :=
  fun w => (Ret (length (stages w)), set_stages (stages w ++ [s]) w).

(** [MX.sym(name, shape)]. *)
Definition MX_sym (name : string) (sh : nat * nat) : M MX :=
  fun w => (Ret (MSym (next_sym w) name (fst sh) (snd sh)),
            set_next_sym (S (next_sym w)) w).

(** [d[k]] on a HashDict. *)
Definition getitem {V} (d : HashDict V) (k : MX) : M V :=
  match hd_get k d with
  | Some v => ret v
  | None => raise KeyError
  end.

(** [for x in l: body(x)]. *)
Fixpoint for_each {A} (l : list A) (body : A -> M unit) : M unit :=
  match l with
  | [] => ret tt
  | x :: l' => body x ;; for_each l' body
  end.

(** Keyword arguments of [Stage(...)], [stage(...)] and [clone(...)]. *)
Record kwargs : Type := mkKw {
  kw_t0 : option TimeSpec;
  kw_T : option TimeSpec;
  kw_clone : option bool
}.

Definition no_kwargs : kwargs := mkKw None None None.

(** ** What stage.py imports from the rest of rockit

    [get_meta] and [merge_meta] (casadi_helpers.py), [DirectMethod()] and the
    method protocol (direct_method.py), and the master's transcription pass
    (ocp.py) are not part of this file; the stage only calls them.  The
    fine-grid sampler [_grid_intg_fine] is numeric linear algebra on the
    polynomial coefficients of the method and is taken as given as well. *)
Class External : Type := {
  get_meta : option Meta -> Meta;
  merge_meta : Meta -> Meta -> Meta;
  DirectMethod : Method.t;
  inherit : Method.t -> Method.t -> Method.t;
  method_set_value : Method.t -> addr -> Method.t -> MX -> Value -> outcome unit;
  method_set_initial :
    Method.t -> addr -> Method.t -> HashDict Value -> outcome unit;
  _transcribe : addr -> M unit;
  placeholders_transcribed : addr -> World -> MX -> MX;
  _grid_intg_fine : addr -> MX -> nat -> M (MX * list MX)
}.

(** [int(q)] truncates towards zero. *)
Definition py_int (q : Q) : Z := Z.quot (Qnum q) (Zpos (Qden q)).

Section StageMethods.
Context `{External}.

(** *** Properties *)

Definition Stage_x (s : Stage) : MX := vvcat (states s).
Definition Stage_xq (s : Stage) : MX := vvcat (qstates s).
Definition Stage_u (s : Stage) : MX :=
  if (length (controls s) =? 0)%nat then MEmpty else vvcat (controls s).
Definition Stage_z (s : Stage) : MX := vvcat (algebraics s).
Definition Stage_p (s : Stage) : MX :=
  vvcat (dd_get "" (parameters s) ++ dd_get "control" (parameters s)).
Definition Stage_v (s : Stage) : MX :=
  vvcat (dd_get "" (variables s) ++ dd_get "control" (variables s)).

(** *** The transcribed flag *)

Definition _set_transcribed (self : addr) (val : bool) : M unit :=
  s <- get_stage self ;;
  match _master s with
  | Some m => fun w => (Ret tt, set__is_transcribed (<[m := val]> (_is_transcribed w)) w)
  | None => ret tt
  end.

Definition is_transcribed (self : addr) : M bool :=
  s <- get_stage self ;;
  match _master s with
  | Some m =>
      fun w =>
        match _is_transcribed w !! m with
        | Some b => (Ret b, w)
        | None => (Raise AttributeError, w)
        end
  | None => ret false
  end.

(** [self.master._transcribed_placeholders.mark_dirty()] *)
Definition mark_dirty (m : addr) : M unit :=
  fun w =>
    match _transcribed_placeholders w !! m with
    | Some _ =>
        (Ret tt,
         set__transcribed_placeholders
           (<[m := true]> (_transcribed_placeholders w)) w)
    | None => (Raise AttributeError, w)
    end.

(** *** Placeholders *)

Definition _create_placeholder_expr (self : addr) (expr : MX)
    (callback_name : string) : M MX :=
  r <- MX_sym ("r_" +:+ callback_name) (shape expr) ;;
  update_stage self
    (fun s => set__placeholders (hd_set r expr (_placeholders s)) s) ;;
  update_stage self
    (fun s => set__placeholder_callbacks
                (hd_set r callback_name (_placeholder_callbacks s)) s) ;;
  s <- get_stage self ;;
  match _master s with
  | Some m => mark_dirty m
  | None => ret tt
  end ;;
  ret r.

Definition at_t0 (self : addr) (expr : MX) : M MX :=
  _create_placeholder_expr self expr "at_t0".

Definition at_tf (self : addr) (expr : MX) : M MX :=
  _create_placeholder_expr self expr "at_tf".

(** *** Symbol factories *)

Definition state (self : addr) (n_rows n_cols : nat) (quad : bool) : M MX :=
  x <- MX_sym "x" (n_rows, n_cols) ;;
  (if quad
   then update_stage self (fun s => set_qstates (qstates s ++ [x]) s)
   else update_stage self (fun s => set_states (states s ++ [x]) s)) ;;
  _set_transcribed self false ;;
  ret x.

Definition algebraic (self : addr) (n_rows n_cols : nat) : M MX :=
  z <- MX_sym "z" (n_rows, n_cols) ;;
  update_stage self (fun s => set_algebraics (algebraics s ++ [z]) s) ;;
  _set_transcribed self false ;;
  ret z.

Definition variable (self : addr) (n_rows n_cols : nat) (grid : string)
    : M MX :=
  v <- MX_sym "v" (n_rows, n_cols) ;;
  update_stage self (fun s => set_variables (dd_append grid v (variables s)) s) ;;
  _set_transcribed self false ;;
  ret v.

Definition parameter (self : addr) (n_rows n_cols : nat) (grid : string)
    : M MX :=
  p <- MX_sym "p" (n_rows, n_cols) ;;
  update_stage self (fun s => set_parameters (dd_append grid p (parameters s)) s) ;;
  _set_transcribed self false ;;
  ret p.

(** *** Dynamics *)

Definition set_der (self : addr) (state der : MX) : M unit :=
  _set_transcribed self false ;;
  s <- get_stage self ;;
  (if hd_nonempty (_state_next s) then raise AssertionError else ret tt) ;;
  update_stage self (fun s => set__state_der (hd_set state der (_state_der s)) s).

Definition set_next (self : addr) (state next : MX) : M unit :=
  _set_transcribed self false ;;
  update_stage self
    (fun s => set__state_next (hd_set state next (_state_next s)) s) ;;
  s <- get_stage self ;;
  if hd_nonempty (_state_der s) then raise AssertionError else ret tt.

Definition add_alg (self : addr) (constr : MX) : M unit :=
  _set_transcribed self false ;;
  update_stage self (fun s => set__alg (_alg s ++ [constr]) s).

Fixpoint control (self : addr) (n_rows n_cols : nat) (order : nat) : M MX :=
  match order with
  | S order' =>
      u <- state self n_rows n_cols false ;;
      helper_u <- control self n_rows n_cols order' ;;
      set_der self u helper_u ;;
      ret u
  | O =>
      u <- MX_sym "u" (n_rows, n_cols) ;;
      update_stage self (fun s => set_controls (controls s ++ [u]) s) ;;
      _set_transcribed self false ;;
      ret u
  end.

(** *** Values and initial guesses *)

Definition set_value (self : addr) (parameter : MX) (value : Value) : M unit :=
  s <- get_stage self ;;
  tr <- match _master s with
        | Some m => is_transcribed m
        | None => ret false
        end ;;
  if tr then
    match _master s with
    | Some m =>
        ms <- get_stage m ;;
        lift (method_set_value (_method s) self (_method ms) parameter value)
    | None => ret tt
    end
  else
    update_stage self
      (fun s => set__param_vals (hd_set parameter value (_param_vals s)) s).

Definition set_initial (self : addr) (var : MX) (value : Value) : M unit :=
  (if str_in "opti" (MX_str var) then raise AssertionError else ret tt) ;;
  update_stage self (fun s => set__initial (hd_set var value (_initial s)) s) ;;
  s <- get_stage self ;;
  match _master s with
  | Some m =>
      tr <- is_transcribed m ;;
      if tr then
        ms <- get_stage m ;;
        lift (method_set_initial (_method s) self (_method ms) (_initial s))
      else ret tt
  | None => ret tt
  end.

(** *** Integrals, sums and offsets *)

Definition integral (self : addr) (expr : MX) (grid : string) : M MX :=
  if String.eqb grid "inf" then
    I <- state self 1 1 true ;;
    set_der self I expr ;;
    at_tf self I
  else
    _create_placeholder_expr self expr "integral_control".

Definition sum (self : addr) (expr : MX) (grid : string) : M MX :=
  _create_placeholder_expr self expr "sum_control".

Definition offset (self : addr) (expr : MX) (offset : Q) : M MX :=
  if negb (Qeq_bool (inject_Z (py_int offset)) offset)
  then raise (Exception "Integer expected")
  else
    let offset := py_int offset in
    r <- MX_sym "offset" (shape expr) ;;
    update_stage self
      (fun s => set__offsets (hd_set r (expr, offset) (_offsets s)) s) ;;
    ret r.

Definition next (self : addr) (expr : MX) : M MX := offset self expr 1.

Definition prev (self : addr) (expr : MX) : M MX := offset self expr (-1).

Definition inf_inert (self : addr) (expr : MX) : M MX :=
  r <- MX_sym "inert" (shape expr) ;;
  update_stage self (fun s => set__inf_inert (hd_set r expr (_inf_inert s)) s) ;;
  ret r.

Definition inf_der (self : addr) (expr : MX) : M MX :=
  r <- MX_sym "der" (shape expr) ;;
  update_stage self (fun s => set__inf_der (hd_set r expr (_inf_der s)) s) ;;
  ret r.

(** *** Constraints and objective *)

Definition signal_symbols (s : Stage) : MX :=
  vcat [Stage_x s; Stage_u s; Stage_z s; _t s;
        vcat (dd_get "control" (variables s) ++ dd_get "states" (variables s));
        vvcat (hd_keys (_inf_der s))].

Definition is_signal (self : addr) (expr : MX) : M bool :=
  s <- get_stage self ;;
  ret (depends_on expr (signal_symbols s)).

Definition clear_constraints (self : addr) : M unit :=
  _set_transcribed self false ;;
  update_stage self (set__constraints []).

Definition valid_grids : list string :=
  ["point"; "control"; "inf"; "integrator"; "integrator_roots"].

Definition subject_to (self : addr) (constr : MX) (grid : option string)
    (include_first include_last : bool) (meta : option Meta) : M unit :=
  _set_transcribed self false ;;
  grid <- match grid with
          | None =>
              sig <- is_signal self constr ;;
              ret (if sig then "control" else "point")
          | Some g => ret g
          end ;;
  (if negb (existsb (String.eqb grid) valid_grids)
   then raise (Exception "Invalid argument") else ret tt) ;;
  sig <- is_signal self constr ;;
  (if sig then
     if String.eqb grid "point"
     then raise (Exception "Got a signal expression for grid 'point'.")
     else ret tt
   else
     if negb (String.eqb grid "point")
     then raise (Exception ("Expected signal expression since grid '"
                            +:+ grid +:+ "' was given."))
     else ret tt) ;;
  let args := mkArgs grid include_last include_first in
  update_stage self
    (fun s => set__constraints
                (dd_append grid (constr, get_meta meta, args) (_constraints s)) s).

Definition add_objective (self : addr) (term : MX) : M unit :=
  _set_transcribed self false ;;
  update_stage self (fun s => set__objective (MAdd (_objective s) term) s).

Definition method (self : addr) (method : Method.t) : M unit :=
  _set_transcribed self false ;;
  s <- get_stage self ;;
  let template := _method s in
  update_stage self (set__method (inherit method template)).

(** *** Construction and free time *)

Definition set_t0 (self : addr) (t0 : TimeSpec) : M unit :=
  update_stage self (set__t0 t0).

Definition set_T (self : addr) (T : TimeSpec) : M unit :=
  update_stage self (set__T T).

(** The expression behind [self._t0] / [self._T] once a variable has been
    assigned to it. *)
Definition as_MX (t : TimeSpec) : M MX :=
  match t with
  | Fixed (VMX e) => ret e
  | _ => raise TypeError
  end.

Definition _check_free_time (self : addr) : M unit :=
  s <- get_stage self ;;
  match _t0 s with
  | FreeTime init =>
      v <- variable self 1 1 "" ;;
      set_t0 self (Fixed (VMX v)) ;;
      s <- get_stage self ;;
      t0 <- as_MX (_t0 s) ;;
      set_initial self t0 init
  | Fixed _ => ret tt
  end ;;
  s <- get_stage self ;;
  match _T s with
  | FreeTime init =>
      v <- variable self 1 1 "" ;;
      set_T self (Fixed (VMX v)) ;;
      s <- get_stage self ;;
      T <- as_MX (_T s) ;;
      subject_to self (MGe T (MConst 0)) None true true None ;;
      s <- get_stage self ;;
      T <- as_MX (_T s) ;;
      set_initial self T init
  | Fixed _ => ret tt
  end.

Definition __init__ (parent : option addr) (t0 T : TimeSpec) (clone : bool)
    : M addr :=
  master <- match parent with
            | Some p => ps <- get_stage p ;; ret (_master ps)
            | None => ret None
            end ;;
  t <- MX_sym "t" (1, 1) ;;
  self <- alloc (mkStage [] [] [] [] [] [] master parent [] [] [] [] []
                   (MConst 0) [] [] [] [] [] [] t [] DirectMethod t0 T
                   MEmpty MEmpty MEmpty) ;;
  r <- _create_placeholder_expr self (MConst 0) "T" ;;
  update_stage self (set__public_T r) ;;
  r <- _create_placeholder_expr self (MConst 0) "t0" ;;
  update_stage self (set__public_t0 r) ;;
  update_stage self (fun s => set__tf (MAdd (_public_T s) (_public_t0 s)) s) ;;
  (if negb clone then _check_free_time self else ret tt) ;;
  ret self.

(** [Stage(parent, **kwargs)] with the defaults [t0=0, T=1, clone=False]. *)
Definition Stage_new (parent : option addr) (kw : kwargs) : M addr :=
  __init__ parent
    (default (Fixed (VNum 0)) (kw_t0 kw))
    (default (Fixed (VNum 1)) (kw_T kw))
    (default false (kw_clone kw)).

(** *** Cloning *)

(** The loop that builds [subst_to]. *)
Fixpoint clone_subst_to (self_T self_t0 ret_T ret_t0 : MX) (keys : list MX)
    : M (list MX) :=
  match keys with
  | [] => ret []
  | k :: keys' =>
      k_new <- (if is_equal k self_T then ret ret_T
                else if is_equal k self_t0 then ret ret_t0
                else match k with
                     | MSym _ name r c => MX_sym name (r, c)
                     | _ => raise RuntimeError
                     end) ;;
      rest <- clone_subst_to self_T self_t0 ret_T ret_t0 keys' ;;
      ret (k_new :: rest)
  end.

(** [d[k] = l] on a defaultdict. *)
Fixpoint dd_set {V} (k : string) (l : list V) (d : defaultdict V)
    : defaultdict V :=
  match d with
  | [] => [(k, l)]
  | (k', l') :: d' =>
      if String.eqb k k' then (k', l) :: d' else (k', l') :: dd_set k l d'
  end.

(** [list(zip(r, ms, ds))] *)
Fixpoint zip3 {A B C} (r : list A) (ms : list B) (ds : list C)
    : list (A * B * C) :=
  match r, ms, ds with
  | a :: r', b :: ms', c :: ds' => (a, b, c) :: zip3 r' ms' ds'
  | _, _, _ => []
  end.

(** The loop that rebuilds the constraint registry from the substituted
    expressions [r]. *)
Fixpoint clone_constraints (old : defaultdict Constraint)
    (constr_types : list string) (r : list MX) (acc : defaultdict Constraint)
    : defaultdict Constraint :=
  match constr_types with
  | [] => acc
  | k :: rest =>
      let v := dd_get k old in
      let entry :=
        zip3 r (map (fun c => merge_meta (snd (fst c)) (get_meta None)) v)
               (map snd v) in
      clone_constraints old rest (drop (length v) r) (dd_set k entry acc)
  end.

(** [HashOrderedDict(pairs)] *)
Definition hd_of_pairs {V} (l : list (MX * V)) : HashDict V :=
  fold_left (fun d kv => hd_set (fst kv) (snd kv) d) l [].

(** [clone] assigns attributes of the new object only; the attributes of
    [self] are read. *)
Definition clone (self : addr) (parent : option addr) (kw : kwargs) : M addr :=
  new <- Stage_new parent kw ;;
  s <- get_stage self ;;
  r <- get_stage new ;;
  let subst_from := hd_keys (_placeholders s) in
  subst_to <- clone_subst_to (_public_T s) (_public_t0 s)
                (_public_T r) (_public_t0 r) subst_from ;;
  for_each (combine subst_from subst_to)
    (fun kk =>
       cb <- getitem (_placeholder_callbacks s) (fst kk) ;;
       update_stage new
         (fun r => set__placeholder_callbacks
                     (hd_set (snd kk) cb (_placeholder_callbacks r)) r) ;;
       e <- getitem (_placeholders s) (fst kk) ;;
       update_stage new
         (fun r => set__placeholders (hd_set (snd kk) e (_placeholders r)) r)) ;;
  update_stage new (set_states (states s)) ;;
  update_stage new (set_controls (controls s)) ;;
  update_stage new (set_algebraics (algebraics s)) ;;
  update_stage new (set_parameters (parameters s)) ;;
  update_stage new (set_variables (variables s)) ;;
  update_stage new (set__offsets (_offsets s)) ;;
  update_stage new (set__param_vals (_param_vals s)) ;;
  update_stage new (set__state_der (_state_der s)) ;;
  update_stage new (set__alg (_alg s)) ;;
  update_stage new (set__state_next (_state_next s)) ;;
  let constr_types := dd_keys (_constraints s) in
  let orig := concat (map (fun k => map (fun c => fst (fst c))
                                         (dd_get k (_constraints s)))
                          constr_types) in
  let n_constr := length orig in
  let orig := orig ++ [_objective s] ++ hd_keys (_initial s) in
  let res := substitute orig subst_from subst_to in
  objective <- match res !! n_constr with
               | Some e => ret e
               | None => raise IndexError
               end ;;
  update_stage new (set__objective objective) ;;
  update_stage new
    (set__constraints
       (clone_constraints (_constraints s) constr_types (take n_constr res) [])) ;;
  update_stage new
    (set__initial
       (hd_of_pairs (combine (drop (n_constr + 1) res) (hd_values (_initial s))))) ;;
  _check_free_time new ;;
  (match kw_T kw with
   | None => update_stage new (set__T (_T s))
   | Some _ => ret tt
   end) ;;
  (match kw_t0 kw with
   | None => update_stage new (set__t0 (_t0 s))
   | Some _ => ret tt
   end) ;;
  update_stage new (set__t (_t s)) ;;
  update_stage new (set__method (_method s)) ;;
  (fun w => (Ret tt, set__is_transcribed (<[new := false]> (_is_transcribed w)) w)) ;;
  ret new.

(** [stage(template=None, **kwargs)] *)
Definition stage (self : addr) (template : option addr) (kw : kwargs) : M addr :=
  s <- match template with
       | Some t =>
           match kw_clone kw with
           | Some _ => raise TypeError
           | None => clone t (Some self) (mkKw (kw_t0 kw) (kw_T kw) (Some true))
           end
       | None => Stage_new (Some self) kw
       end ;;
  update_stage self (fun st => set__stages (_stages st ++ [s]) st) ;;
  _set_transcribed self false ;;
  ret s.

(** *** Sampling *)

Definition startswith_dash (grid : string) : bool :=
  match grid with
  | String "-"%char _ => true
  | _ => false
  end.

Fixpoint endswith_dash (grid : string) : bool :=
  match grid with
  | EmptyString => false
  | String c EmptyString => Ascii.eqb c "-"%char
  | String _ rest => endswith_dash rest
  end.

(** [grid[:-1]] *)
Fixpoint drop_last (grid : string) : string :=
  match grid with
  | EmptyString => EmptyString
  | String _ EmptyString => EmptyString
  | String c rest => String c (drop_last rest)
  end.

(** [grid[1:]] *)
Definition drop_first (grid : string) : string :=
  match grid with
  | EmptyString => EmptyString
  | String _ rest => rest
  end.

Definition _parse_grid (grid : string) : string * bool * bool :=
  let include_last := true in
  let include_first := true in
  let '(grid, include_last) :=
    if startswith_dash grid then (drop_first grid, false)
    else (grid, include_last) in
  let '(grid, include_last) :=
    if endswith_dash grid then (drop_last grid, false)
    else (grid, include_last) in
  (grid, include_first, include_last).

(** The control indices that [_grid_control] visits. *)
Definition _grid_control_ks (N : nat) (include_first include_last : bool)
    : list Z :=
  let ks := map Z.of_nat (seq 1 (N - 1)) in
  let ks := if include_first then 0%Z :: ks else ks in
  let ks := if include_last then ks ++ [(-1)%Z] else ks in
  ks.

(** The loop of [_grid_control]: an [IndexError] of the evaluator becomes a
    not-a-number block, any other exception goes on. *)
Fixpoint _grid_control_loop (m : Method.t) (stage : addr) (expr : MX)
    (ks : list Z) : outcome (list MX) :=
  match ks with
  | [] => Ret []
  | k :: ks' =>
      let r := match Method.eval_at_control m stage expr k with
               | Raise IndexError => Ret (MNan (fst (shape expr)) (snd (shape expr)))
               | o => o
               end in
      match r with
      | Ret r =>
          match _grid_control_loop m stage expr ks' with
          | Ret sub_expr => Ret (r :: sub_expr)
          | Raise e => Raise e
          end
      | Raise e => Raise e
      end
  end.

(** The second component is [sub_expr], the list that the source joins
    with [hcat]: one entry per evaluation point. *)
Definition _grid_control (self stage : addr) (expr : MX) (grid : string)
    (include_first include_last : bool) : M (MX * list MX) :=
  st <- get_stage stage ;;
  let m := _method st in
  sub_expr <- lift (_grid_control_loop m stage expr
                      (_grid_control_ks (Method.N m) include_first include_last)) ;;
  ret (Method.control_grid m, sub_expr).

(** [for l in range(M): sub_expr.append(eval_at_integrator(stage, expr, k, l))] *)
Fixpoint _grid_integrator_inner (m : Method.t) (stage : addr) (expr : MX)
    (k : nat) (ls : list nat) : outcome (list MX) :=
  match ls with
  | [] => Ret []
  | l :: ls' =>
      match Method.eval_at_integrator m stage expr k l with
      | Ret r =>
          match _grid_integrator_inner m stage expr k ls' with
          | Ret rest => Ret (r :: rest)
          | Raise e => Raise e
          end
      | Raise e => Raise e
      end
  end.

(** [for k in range(N): ...; time.append(integrator_grid[k])] *)
Fixpoint _grid_integrator_outer (m : Method.t) (stage : addr) (expr : MX)
    (ks : list nat) : outcome (list MX * list MX) :=
  match ks with
  | [] => Ret ([], [])
  | k :: ks' =>
      match _grid_integrator_inner m stage expr k (seq 0 (Method.M m)) with
      | Ret sub =>
          match Method.integrator_grid m !! k with
          | Some t =>
              match _grid_integrator_outer m stage expr ks' with
              | Ret (time, rest) => Ret (t :: time, sub ++ rest)
              | Raise e => Raise e
              end
          | None => Raise IndexError
          end
      | Raise e => Raise e
      end
  end.

Definition _grid_integrator (self stage : addr) (expr : MX) (grid : string)
    (include_first include_last : bool) : M (MX * list MX) :=
  (if include_first then ret tt else raise AssertionError) ;;
  st <- get_stage stage ;;
  let m := _method st in
  ts <- lift (_grid_integrator_outer m stage expr (seq 0 (Method.N m))) ;;
  last <- (if include_last
           then r <- lift (Method.eval_at_control m stage expr (-1)) ;; ret [r]
           else ret []) ;;
  ret (vcat (fst ts), snd ts ++ last).

(** [for j in range(xr[k][l].shape[1]): ...] *)
Fixpoint _grid_roots_points (m : Method.t) (stage : addr) (expr : MX)
    (k l : nat) (js : list nat) : outcome (list MX) :=
  match js with
  | [] => Ret []
  | j :: js' =>
      match Method.eval_at_integrator_root m stage expr k l j with
      | Ret r =>
          match _grid_roots_points m stage expr k l js' with
          | Ret rest => Ret (r :: rest)
          | Raise e => Raise e
          end
      | Raise e => Raise e
      end
  end.

Fixpoint _grid_roots_steps (m : Method.t) (stage : addr) (expr : MX)
    (kls : list (nat * nat)) : outcome (list MX * list MX) :=
  match kls with
  | [] => Ret ([], [])
  | (k, l) :: kls' =>
      match _grid_roots_points m stage expr k l (seq 0 (Method.xr_cols m k l)) with
      | Ret sub =>
          match _grid_roots_steps m stage expr kls' with
          | Ret (tr, rest) => Ret (Method.tr m k l ++ tr, sub ++ rest)
          | Raise e => Raise e
          end
      | Raise e => Raise e
      end
  end.

Definition _grid_integrator_roots (self stage : addr) (expr : MX)
    (grid : string) (include_first include_last : bool) : M (MX * list MX) :=
  (if include_first then ret tt else raise AssertionError) ;;
  (if include_last then ret tt else raise AssertionError) ;;
  st <- get_stage stage ;;
  let m := _method st in
  let kls := concat (map (fun k => map (pair k) (seq 0 (Method.M m)))
                         (seq 0 (Method.N m))) in
  ts <- lift (_grid_roots_steps m stage expr kls) ;;
  ret (MTranspose (hcat (fst ts)), snd ts).

(** The grid dispatch of [sample], between the master's transcription and
    the final placeholder substitution.  [include_first] and [include_last]
    are always passed through [kwargs], [refine] only when the caller gave
    it: a grid function without a [refine] parameter then fails with a
    [TypeError], and so does the branch for 'control-', which passes
    [include_last] a second time by keyword. *)
Definition sample_dispatch (self : addr) (expr : MX) (grid : string)
    (refine : option nat) : M (MX * list MX) :=
  let '(grid, include_first, include_last) := _parse_grid grid in
  if String.eqb grid "control" then
    match refine with
    | None => _grid_control self self expr grid include_first include_last
    | Some _ => raise TypeError
    end
  else if String.eqb grid "control-" then
    raise TypeError
  else if String.eqb grid "integrator" then
    match refine with
    | Some refine => _grid_intg_fine self expr refine
    | None => _grid_integrator self self expr grid include_first include_last
    end
  else if String.eqb grid "integrator_roots" then
    match refine with
    | None => _grid_integrator_roots self self expr grid include_first include_last
    | Some _ => raise TypeError
    end
  else
    raise (Exception ("Unknown grid option: " +:+ grid +:+ "
Options are: 'control' or 'integrator' with an optional extra refine=<int> argument.")).

Definition sample (self : addr) (expr : MX) (grid : string)
    (refine : option nat) : M (MX * list MX) :=
  s <- get_stage self ;;
  match _master s with
  | None => raise AttributeError
  | Some m =>
      _transcribe m ;;
      placeholders <- (fun w => (Ret (placeholders_transcribed m w), w)) ;;
      tr <- sample_dispatch self expr grid refine ;;
      ret (placeholders (fst tr), map placeholders (snd tr))
  end.

End StageMethods.

(** ** Internal methods: the dynamics function and placeholder resolution *)

(** [casadi.Function(name, inputs, outputs, input_names, output_names)]:
    the engine compiles it, the stage only lists what goes in and out. *)
Record Function : Type := mkFunction {
  fn_name : string;
  fn_in : list MX;
  fn_out : list MX;
  fn_in_names : list string;
  fn_out_names : list string
}.

(** The [method] argument of [_transcribe_placeholders]: an object whose
    callbacks are fetched by name with [getattr]; a name without an
    attribute is [None]. *)
Definition MethodObject : Type := string -> option (addr -> MX -> outcome MX).

Section StageInternals.
Context `{External}.

(** The list comprehension [[d[k] for k in keys]]. *)
Fixpoint getitems {V} (d : HashDict V) (keys : list MX) : M (list V) :=
  match keys with
  | [] => ret []
  | k :: keys' =>
      v <- getitem d k ;;
      vs <- getitems d keys' ;;
      ret (v :: vs)
  end.

Definition _ode (self : addr) : M Function :=
  s <- get_stage self ;;
  ode <- getitems (_state_der s) (states s) ;;
  quad <- getitems (_state_der s) (qstates s) ;;
  let alg := vvcat (_alg s) in
  ret (mkFunction "ode"
         [Stage_x s; Stage_u s; Stage_z s; vcat [Stage_p s; Stage_v s]; _t s]
         [vvcat ode; alg; vvcat quad]
         ["x"; "u"; "z"; "p"; "t"]
         ["ode"; "alg"; "quad"]).

(** The loop of [_transcribe_placeholders] over [self._placeholders.items()].
    [placeholders] is a dict shared by the whole tree and filled in place:
    it is returned beside the outcome, with the entries made before an
    exception. *)
Fixpoint _transcribe_placeholders_loop (self : addr) (method : MethodObject)
    (callbacks : HashDict string) (items : list (MX * MX))
    (placeholders : HashDict MX) : outcome unit * HashDict MX :=
  match items with
  | [] => (Ret tt, placeholders)
  | (k, v) :: items' =>
      match hd_get k placeholders with
      | Some _ =>
          _transcribe_placeholders_loop self method callbacks items' placeholders
      | None =>
          match hd_get k callbacks with
          | None => (Raise KeyError, placeholders)
          | Some name =>
              match method ("fill_placeholders_" +:+ name) with
              | None => (Raise AttributeError, placeholders)
              | Some callback =>
                  match callback self v with
                  | Ret e =>
                      _transcribe_placeholders_loop self method callbacks items'
                        (hd_set k e placeholders)
                  | Raise e => (Raise e, placeholders)
                  end
              end
          end
      end
  end.

Definition _transcribe_placeholders (self : addr) (method : MethodObject)
    (placeholders : HashDict MX) : M (outcome unit * HashDict MX) :=
  s <- get_stage self ;;
  ret (_transcribe_placeholders_loop self method (_placeholder_callbacks s)
         (_placeholders s) placeholders).

End StageInternals.

(** ** A concrete tree to run the methods on *)

(** A method with two control intervals whose evaluators return the
    expression they are given, except that controls do not exist at the final
    boundary: evaluating there an expression that depends on the symbol with
    identity [u] is an index failure. *)
Definition demo_method (u : nat) : Method.t :=
  Method.mk 2 1 (MConst 0) [MConst 0; MConst 1]
    (fun _ e k => if (k =? -1)%Z && existsb (Nat.eqb u) (symbols e)
                  then Raise IndexError else Ret e)
    (fun _ e _ _ => Ret e)
    (fun _ e _ _ _ => Ret e)
    (fun _ _ => 0)
    (fun _ _ => []).

#[global] Instance demo_external : External := {|
  get_meta := fun meta => default [] meta;
  merge_meta := fun a b => a ++ b;
  DirectMethod := demo_method 0;
  inherit := fun m template => m;
  method_set_value := fun _ _ _ _ _ => Ret tt;
  method_set_initial := fun _ _ _ _ => Ret tt;
  _transcribe := fun m w =>
    (Ret tt, set__is_transcribed (<[m := true]> (_is_transcribed w)) w);
  placeholders_transcribed := fun _ _ e => e;
  _grid_intg_fine := fun _ _ _ => raise RuntimeError
|}.

(** Modelled from the spec: the constructor of the master of a tree
    (rockit/ocp.py is not part of the sources): a Stage without parent that
    is its own master and owns the tree-wide transcribed flag and the
    placeholder cache. *)
Definition Ocp_new `{External} (t0 T : TimeSpec) : M addr :=
  self <- __init__ None t0 T false ;;
  update_stage self (set__master (Some self)) ;;
  (fun w => (Ret tt, set__is_transcribed (<[self := false]> (_is_transcribed w)) w)) ;;
  (fun w => (Ret tt, set__transcribed_placeholders
                       (<[self := false]> (_transcribed_placeholders w)) w)) ;;
  ret self.

Definition empty_world : World := mkWorld 0 [] ∅ ∅.

(** The world after [ocp = Ocp()]: the master is object 0. *)
Definition ocp_world : World :=
  snd (Ocp_new (Fixed (VNum 0)) (Fixed (VNum 1)) empty_world).

(** The world after [x = ocp.state(); ocp.set_der(x, -x)]. *)
Definition x_demo : MX := MSym 3 "x" 1 1.

Definition ode_world : World :=
  snd ((x <- state 0 1 1 false ;; set_der 0 x (MNeg x)) ocp_world).

(** The object behind a reference of a concrete heap. *)
Definition blank_stage : Stage :=
  mkStage [] [] [] [] [] [] None None [] [] [] [] [] (MConst 0) [] [] [] [] []
    [] MEmpty [] (demo_method 0) (Fixed (VNum 0)) (Fixed (VNum 1)) MEmpty
    MEmpty MEmpty.

Definition stage_of (w : World) (a : addr) : Stage :=
  default blank_stage (stages w !! a).

(** ** Running the methods on an arbitrary heap *)

(** A table after [tbl[m] = val] for the master [m], when there is one. *)
Definition opt_insert (m : option addr) (val : bool) (tbl : gmap addr bool)
    : gmap addr bool :=
  match m with
  | Some m => <[m := val]> tbl
  | None => tbl
  end.

(** The heap after [_set_transcribed(val)] of a stage whose master is [m]. *)
Definition with_transcribed (m : option addr) (val : bool) (w : World) : World :=
  set__is_transcribed (opt_insert m val (_is_transcribed w)) w.

(** The heap after [mark_dirty()] on the placeholder cache of master [m]. *)
Definition with_dirty (m : option addr) (w : World) : World :=
  set__transcribed_placeholders (opt_insert m true (_transcribed_placeholders w)) w.

(** The heap after the attributes of object [a] became [s]. *)
Definition with_stage (a : addr) (s : Stage) (w : World) : World :=
  set_stages (<[a := s]> (stages w)) w.

(** The heap after [n] calls of [MX.sym]. *)
Definition with_fresh (n : nat) (w : World) : World :=
  set_next_sym (n + next_sym w) w.

(** The symbol that [_create_placeholder_expr(expr, cb)] mints in [w]. *)
Definition placeholder_sym (w : World) (expr : MX) (cb : string) : MX :=
  MSym (next_sym w) ("r_" +:+ cb) (fst (shape expr)) (snd (shape expr)).

(** The master of the stage has a placeholder cache. *)
Definition master_ok (s : Stage) (w : World) : Prop :=
  forall m, _master s = Some m -> is_Some (_transcribed_placeholders w !! m).

(** ** More concrete stages *)

(** The world after [x = ocp.state(); ocp.set_next(x, -x)]. *)
Definition diffeq_world : World :=
  snd ((x <- state 0 1 1 false ;; set_next 0 x (MNeg x)) ocp_world).

(** The world after [d = ocp.inf_der(0)]. *)
Definition inf_der_world : World := snd (inf_der 0 (MConst 0) ocp_world).

Definition d_demo : MX := MSym 3 "der" 1 1.

(** The world after [u = ocp.control()] and the assignment of a method with
    two control intervals that has no control value at the final boundary. *)
Definition u_demo : MX := MSym 4 "u" 1 1.

Definition u_world : World :=
  snd ((u <- control 0 1 1 0 ;; method 0 (demo_method 4)) ode_world).

(** The tree of [ode_world] after a transcription: the flag of the master
    is true. *)
Definition transcribed_world : World := snd (_transcribe 0 ode_world).


(** ** The signal test of the specification *)

(** [expr] depends on one of the symbols of the list. *)
Definition depends_on_any (expr : MX) (l : list MX) : bool :=
  existsb (depends_on expr) l.

(** A signal in the words of the specification: an expression that depends
    on a state, a control, an algebraic variable, the time, or a free
    variable tagged "control" or "states". *)
Definition spec_is_signal (s : Stage) (expr : MX) : bool :=
  depends_on_any expr
    (states s ++ controls s ++ algebraics s ++ [_t s] ++
     dd_get "control" (variables s) ++ dd_get "states" (variables s)).

(** ** Attributes and heaps after construction, free-time check and cloning *)

(** The master of stage [s], which is another object than [a], is its own
    master. *)
Definition master_tree (s : Stage) (a : addr) (w : World) : Prop :=
  forall m, _master s = Some m ->
    m <> a /\ exists ms, stages w !! m = Some ms /\ _master ms = Some m.

(** What [_check_free_time] does to the attributes of a stage for a free
    start time, when [n] is the identity of the next symbol. *)
Definition free_t0 (n : nat) (s : Stage) : Stage * nat :=
  match _t0 s with
  | FreeTime init =>
      let v := MSym n "v" 1 1 in
      let s := set_variables (dd_append "" v (variables s)) s in
      let s := set__t0 (Fixed (VMX v)) s in
      let s := set__initial (hd_set v init (_initial s)) s in
      (s, S n)
  | Fixed _ => (s, n)
  end.

(** The same for a free horizon. *)
Definition free_T `{External} (n : nat) (s : Stage) : Stage * nat :=
  match _T s with
  | FreeTime init =>
      let v := MSym n "v" 1 1 in
      let s := set_variables (dd_append "" v (variables s)) s in
      let s := set__T (Fixed (VMX v)) s in
      let c := MGe v (MConst 0) in
      let g := if depends_on c (signal_symbols s) then "control" else "point" in
      let s := set__constraints
                 (dd_append g (c, get_meta None, mkArgs g true true)
                    (_constraints s)) s in
      let s := set__initial (hd_set v init (_initial s)) s in
      (s, S n)
  | Fixed _ => (s, n)
  end.

Definition is_free (t : TimeSpec) : bool :=
  match t with FreeTime _ => true | Fixed _ => false end.

(** The attributes of a new stage when [__init__] reaches the free-time
    check; [n] is the identity of the next symbol. *)
Definition init_stage `{External} (master parent : option addr)
    (t0 T : TimeSpec) (n : nat) : Stage :=
  let t := MSym n "t" 1 1 in
  let r_T := MSym (S n) "r_T" 1 1 in
  let r_t0 := MSym (S (S n)) "r_t0" 1 1 in
  mkStage [] [] [] [] [] [] master parent [] [] [] [] [] (MConst 0) []
    (hd_set r_t0 (MConst 0) [(r_T, MConst 0)])
    (hd_set r_t0 "t0" [(r_T, "T")])
    [] [] [] t [] DirectMethod t0 T r_T r_t0 (MAdd r_T r_t0).

(** The heap after [_check_free_time] on the stage [s] at address [a]. *)
Definition after_free_time `{External} (a : addr) (s : Stage) (w : World) : World :=
  mkWorld (snd (free_T (snd (free_t0 (next_sym w) s)) (fst (free_t0 (next_sym w) s))))
    (<[a := fst (free_T (snd (free_t0 (next_sym w) s)) (fst (free_t0 (next_sym w) s)))]>
       (stages w))
    (if is_free (_t0 s) || is_free (_T s)
     then opt_insert (_master s) false (_is_transcribed w)
     else _is_transcribed w)
    (_transcribed_placeholders w).

(** The heap when [__init__] reaches the free-time check. *)
Definition init_world `{External} (master parent : option addr)
    (t0 T : TimeSpec) (w : World) : World :=
  mkWorld (3 + next_sym w)
    (stages w ++ [init_stage master parent t0 T (next_sym w)])
    (_is_transcribed w)
    (opt_insert master true (_transcribed_placeholders w)).

(** The parent of a new stage is in the heap, and the master it hands down,
    if any, is a master: its own master, with a placeholder cache. *)
Definition parent_ok (parent master : option addr) (w : World) : Prop :=
  match parent with
  | Some p => exists ps, stages w !! p = Some ps /\ _master ps = master
  | None => master = None
  end /\
  forall m, master = Some m ->
    is_Some (_transcribed_placeholders w !! m) /\
    exists ms, stages w !! m = Some ms /\ _master ms = Some m.

(** The list [subst_to] that [clone] builds for the placeholder keys
    [keys], with the identity of the next symbol before and after. *)
Fixpoint subst_targets (self_T self_t0 ret_T ret_t0 : MX) (n : nat)
    (keys : list MX) : list MX * nat :=
  match keys with
  | [] => ([], n)
  | k :: keys' =>
      if is_equal k self_T then
        (ret_T :: fst (subst_targets self_T self_t0 ret_T ret_t0 n keys'),
         snd (subst_targets self_T self_t0 ret_T ret_t0 n keys'))
      else if is_equal k self_t0 then
        (ret_t0 :: fst (subst_targets self_T self_t0 ret_T ret_t0 n keys'),
         snd (subst_targets self_T self_t0 ret_T ret_t0 n keys'))
      else
        match k with
        | MSym _ name r c =>
            (MSym n name r c
               :: fst (subst_targets self_T self_t0 ret_T ret_t0 (S n) keys'),
             snd (subst_targets self_T self_t0 ret_T ret_t0 (S n) keys'))
        | _ => ([], n)
        end
  end.

Definition is_sym (e : MX) : bool :=
  match e with MSym _ _ _ _ => true | _ => false end.

(** Every placeholder key is a symbol, as the keys that
    [_create_placeholder_expr] stores are, and has a callback. *)
Definition placeholders_ok (s : Stage) : Prop :=
  Forall (fun k => is_sym k = true /\
                   is_Some (hd_get k (_placeholder_callbacks s)))
         (hd_keys (_placeholders s)).

(** One round of the loop that copies the placeholder registry. *)
Definition copy_placeholder (s : Stage) (r : Stage) (kk : MX * MX) : Stage :=
  match hd_get (fst kk) (_placeholder_callbacks s),
        hd_get (fst kk) (_placeholders s) with
  | Some cb, Some e =>
      let r := set__placeholder_callbacks
                 (hd_set (snd kk) cb (_placeholder_callbacks r)) r in
      set__placeholders (hd_set (snd kk) e (_placeholders r)) r
  | _, _ => r
  end.

(** Both free-time steps in a row. *)
Definition freed `{External} (n : nat) (s : Stage) : Stage * nat :=
  free_T (snd (free_t0 n s)) (fst (free_t0 n s)).

(** The attributes of the object that [Stage(parent, **kw)] returns, and
    the heap it leaves. *)
Definition new_stage `{External} (master parent : option addr) (kw : kwargs)
    (n : nat) : Stage :=
  let s0 := init_stage master parent
              (default (Fixed (VNum 0)) (kw_t0 kw))
              (default (Fixed (VNum 1)) (kw_T kw)) n in
  if default false (kw_clone kw) then s0 else fst (freed (3 + n) s0).

Definition new_world `{External} (master parent : option addr) (kw : kwargs)
    (w : World) : World :=
  let t0 := default (Fixed (VNum 0)) (kw_t0 kw) in
  let T := default (Fixed (VNum 1)) (kw_T kw) in
  if default false (kw_clone kw) then init_world master parent t0 T w
  else after_free_time (length (stages w))
         (init_stage master parent t0 T (next_sym w))
         (init_world master parent t0 T w).

(** The attributes that [clone] copies or rewrites before it checks for free
    time; [r] is the new object as constructed. *)
Definition clone_copy `{External} (s : Stage) (subst_to : list MX) (r : Stage)
    : Stage :=
  let subst_from := hd_keys (_placeholders s) in
  let r := fold_left (copy_placeholder s) (combine subst_from subst_to) r in
  let r := set_states (states s) r in
  let r := set_controls (controls s) r in
  let r := set_algebraics (algebraics s) r in
  let r := set_parameters (parameters s) r in
  let r := set_variables (variables s) r in
  let r := set__offsets (_offsets s) r in
  let r := set__param_vals (_param_vals s) r in
  let r := set__state_der (_state_der s) r in
  let r := set__alg (_alg s) r in
  let r := set__state_next (_state_next s) r in
  let constr_types := dd_keys (_constraints s) in
  let orig := concat (map (fun k => map (fun c => fst (fst c))
                                         (dd_get k (_constraints s)))
                          constr_types) in
  let n_constr := length orig in
  let orig := orig ++ [_objective s] ++ hd_keys (_initial s) in
  let res := substitute orig subst_from subst_to in
  let r := set__objective (substitute1 (combine subst_from subst_to) (_objective s)) r in
  let r := set__constraints
             (clone_constraints (_constraints s) constr_types
                (take n_constr res) []) r in
  let r := set__initial
             (hd_of_pairs (combine (drop (n_constr + 1) res)
                                   (hd_values (_initial s)))) r in
  r.

(** The attributes that [clone] assigns after the free-time check. *)
Definition clone_finish (s : Stage) (kw : kwargs) (r : Stage) : Stage :=
  let r := match kw_T kw with None => set__T (_T s) r | Some _ => r end in
  let r := match kw_t0 kw with None => set__t0 (_t0 s) r | Some _ => r end in
  let r := set__t (_t s) r in
  set__method (_method s) r.

(** The object that [clone] returns and the heap it leaves, for the original
    [s], a parent that hands down [master], and the heap [w] before. *)
Definition clone_stage `{External} (s : Stage) (master parent : option addr)
    (kw : kwargs) (w : World) : Stage :=
  let r1 := new_stage master parent kw (next_sym w) in
  let tg := subst_targets (_public_T s) (_public_t0 s) (_public_T r1)
              (_public_t0 r1) (next_sym (new_world master parent kw w))
              (hd_keys (_placeholders s)) in
  clone_finish s kw (fst (freed (snd tg) (clone_copy s (fst tg) r1))).

Definition clone_world `{External} (s : Stage) (master parent : option addr)
    (kw : kwargs) (w : World) : World :=
  let W1 := new_world master parent kw w in
  let r1 := new_stage master parent kw (next_sym w) in
  let tg := subst_targets (_public_T s) (_public_t0 s) (_public_T r1)
              (_public_t0 r1) (next_sym W1) (hd_keys (_placeholders s)) in
  let r2 := clone_copy s (fst tg) r1 in
  mkWorld (snd (freed (snd tg) r2))
    (stages w ++ [clone_stage s master parent kw w])
    (<[length (stages w) := false]>
       (if is_free (_t0 r2) || is_free (_T r2)
        then opt_insert (_master r2) false (_is_transcribed W1)
        else _is_transcribed W1))
    (opt_insert master true (_transcribed_placeholders w)).


(** The tree-wide flag of master [m] says: not transcribed. *)
Definition flag_off (m : addr) (w : World) : Prop :=
  _is_transcribed w !! m = Some false.

(** A computation that keeps a property of the heap, whether it returns or
    raises. *)
Definition keeps {A} (P : World -> Prop) (c : M A) : Prop :=
  forall w, P w -> P (snd (c w)).

(** ** Further definitions used by the properties below *)

(** No '-' anywhere in the string. *)
Fixpoint no_dash (grid : string) : bool :=
  match grid with
  | EmptyString => true
  | String c rest => negb (Ascii.eqb c "-"%char) && no_dash rest
  end.

(** The world after [Stage()]: a stage without parent and without master. *)
Definition bare_world : World :=
  snd (__init__ None (Fixed (VNum 0)) (Fixed (VNum 1)) false empty_world).

(** Every symbol of the expressions of [l] was minted before [n]. *)
Definition minted_before (n : nat) (l : list MX) : Prop :=
  forall e i, In e l -> In i (symbols e) -> i < n.

(** The symbols a stage has declared: states, quadrature states, controls,
    algebraic variables, the time, the variables and parameters that its
    properties [v], [p] and [is_signal] read, and the derivative proxies. *)
Definition declared (s : Stage) : list MX :=
  states s ++ qstates s ++ controls s ++ algebraics s ++ [_t s] ++
  dd_get "" (variables s) ++ dd_get "control" (variables s) ++
  dd_get "states" (variables s) ++
  dd_get "" (parameters s) ++ dd_get "control" (parameters s) ++
  hd_keys (_inf_der s).

Ltac wsimpl :=
  cbn [stages next_sym _is_transcribed _transcribed_placeholders
       with_stage with_transcribed with_dirty with_fresh
       set_stages set_next_sym set__is_transcribed set__transcribed_placeholders].

(** [stages w' !! a = Some ?s], where [w'] is [w] after some assignments. *)
Ltac lookup_bounds :=
  repeat match goal with
         | H : ?l !! ?i = Some _ |- _ =>
             lazymatch goal with
             | _ : i < length l |- _ => fail
             | _ => pose proof (lookup_lt_Some _ _ _ H)
             end
         end.

Ltac lookup_tac :=
  wsimpl;
  first [ eassumption
        | apply list_lookup_middle; reflexivity
        | apply lookup_app_l_Some; eassumption
        | apply list_lookup_insert_eq; rewrite ?length_insert, ?length_app;
          first [ eapply lookup_lt_Some; eassumption
                | lookup_bounds; simpl; lia ] ].

Section Running.
Context `{External}.

Lemma get_stage_run w a s :
  stages w !! a = Some s -> get_stage a w = (Ret s, w).
Proof. intros Hs. unfold get_stage. now rewrite Hs. Qed.

Lemma update_stage_run w a s f :
  stages w !! a = Some s ->
  update_stage a f w = (Ret tt, with_stage a (f s) w).
Proof. intros Hs. unfold update_stage, bind. now rewrite (get_stage_run _ _ _ Hs). Qed.

Lemma _set_transcribed_run w self s val :
  stages w !! self = Some s ->
  _set_transcribed self val w = (Ret tt, with_transcribed (_master s) val w).
Proof.
  intros Hs. unfold _set_transcribed, bind.
  rewrite (get_stage_run _ _ _ Hs). destruct (_master s); [reflexivity|].
  now destruct w.
Qed.

Lemma mark_dirty_run w m :
  is_Some (_transcribed_placeholders w !! m) ->
  mark_dirty m w = (Ret tt, with_dirty (Some m) w).
Proof. intros [b Hb]. unfold mark_dirty. now rewrite Hb. Qed.

Lemma with_stage_twice w a s1 s2 :
  with_stage a s2 (with_stage a s1 w) = with_stage a s2 w.
Proof. unfold with_stage, set_stages. simpl. now rewrite list_insert_insert_eq. Qed.


End Running.

(** ** Reading a dictionary after an assignment *)

Section Dicts.

Lemma hd_get_set {V} (k k' : MX) (v : V) (d : HashDict V) :
  hd_get k (hd_set k' v d) = if is_equal k k' then Some v else hd_get k d.
Proof.
  induction d as [|[k0 v0] d IH]; simpl.
  - reflexivity.
  - destruct (is_equal k' k0) eqn:H0; simpl.
    + unfold is_equal in H0. apply bool_decide_eq_true_1 in H0. subst k0.
      now destruct (is_equal k k').
    + destruct (is_equal k k0) eqn:H1.
      * unfold is_equal in H1. apply bool_decide_eq_true_1 in H1. subst k0.
        assert (Hne : is_equal k k' = false).
        { unfold is_equal in *. apply bool_decide_eq_false_2.
          apply bool_decide_eq_false_1 in H0. congruence. }
        now rewrite Hne.
      * exact IH.
Qed.

Lemma hd_get_set_eq {V} (k : MX) (v : V) (d : HashDict V) :
  hd_get k (hd_set k v d) = Some v.
Proof.
  rewrite hd_get_set. unfold is_equal. now rewrite bool_decide_eq_true_2.
Qed.

Lemma hd_get_set_ne {V} (k k' : MX) (v : V) (d : HashDict V) :
  k <> k' -> hd_get k (hd_set k' v d) = hd_get k d.
Proof.
  intros Hne. rewrite hd_get_set. unfold is_equal.
  now rewrite bool_decide_eq_false_2.
Qed.

Lemma dd_get_append {V} (g g' : string) (v : V) (d : defaultdict V) :
  dd_get g' (dd_append g v d) =
    if String.eqb g' g then dd_get g d ++ [v] else dd_get g' d.
Proof.
  induction d as [|[g0 l0] d IH]; simpl.
  - now destruct (String.eqb g' g).
  - destruct (String.eqb_spec g g0) as [->|Hg]; simpl.
    + destruct (String.eqb_spec g' g0) as [->|Hne]; reflexivity.
    + destruct (String.eqb_spec g' g0) as [->|Hne0].
      * destruct (String.eqb_spec g0 g) as [->|_]; [now destruct Hg|reflexivity].
      * exact IH.
Qed.

End Dicts.

(** A symbol minted now occurs in no expression made of symbols minted
    before. *)
Lemma depends_on_fresh (n : nat) (nm : string) (r c : nat) (e : MX) :
  (forall i, In i (symbols e) -> i < n) ->
  depends_on e (MSym n nm r c) = false.
Proof.
  intros He. unfold depends_on. cbn [symbols existsb]. rewrite orb_false_r.
  apply not_true_is_false. intros Hex. apply existsb_exists in Hex.
  destruct Hex as (i & Hi & Heq). apply Nat.eqb_eq in Heq. subst i.
  specialize (He n Hi). lia.
Qed.

(** One step of a method on a heap in which the objects it reads are known. *)
Ltac run1 :=
  match goal with
  | |- context [get_stage ?a ?w] =>
      erewrite (get_stage_run w a) by lookup_tac
  | |- context [update_stage ?a ?f ?w] =>
      erewrite (update_stage_run w a _ f) by lookup_tac
  | |- context [_set_transcribed ?a ?v ?w] =>
      erewrite (_set_transcribed_run w a _ v) by lookup_tac
  end; cbv beta iota.

Ltac run := unfold bind, ret, raise, lift, MX_sym; cbv beta iota; repeat run1.

Section RunningMethods.
Context `{External}.


Lemma set_der_run w self s state der :
  stages w !! self = Some s ->
  set_der self state der w =
    if hd_nonempty (_state_next s)
    then (Raise AssertionError, with_transcribed (_master s) false w)
    else (Ret tt,
          with_stage self (set__state_der (hd_set state der (_state_der s)) s)
            (with_transcribed (_master s) false w)).
Proof.
  intros Hs. unfold set_der. run.
  destruct (hd_nonempty (_state_next s)); [reflexivity|]. now run.
Qed.

Lemma _create_placeholder_expr_run w self s expr cb :
  stages w !! self = Some s ->
  master_ok s w ->
  _create_placeholder_expr self expr cb w =
    (Ret (placeholder_sym w expr cb),
     with_dirty (_master s)
       (with_stage self
          (set__placeholder_callbacks
             (hd_set (placeholder_sym w expr cb) cb (_placeholder_callbacks s))
             (set__placeholders
                (hd_set (placeholder_sym w expr cb) expr (_placeholders s)) s))
          (with_fresh 1 w))).
Proof.
  intros Hs Hm. unfold _create_placeholder_expr. run.
  rewrite with_stage_twice.
  cbn [_master set__placeholder_callbacks set__placeholders].
  destruct (_master s) as [m|] eqn:Hmaster.
  - rewrite mark_dirty_run by (wsimpl; now apply Hm). reflexivity.
  - unfold with_dirty, with_stage, with_fresh. simpl. reflexivity.
Qed.

Lemma state_run w self s n_rows n_cols quad :
  stages w !! self = Some s ->
  state self n_rows n_cols quad w =
    (Ret (MSym (next_sym w) "x" n_rows n_cols),
     with_transcribed (_master s) false
       (with_stage self
          (if quad
           then set_qstates (qstates s ++ [MSym (next_sym w) "x" n_rows n_cols]) s
           else set_states (states s ++ [MSym (next_sym w) "x" n_rows n_cols]) s)
          (with_fresh 1 w))).
Proof.
  intros Hs. unfold state. destruct quad; now run.
Qed.

End RunningMethods.

(** ** Derivative and next-state rules *)



(** Assigning to a key twice is the same as the second assignment alone. *)
Lemma hd_set_twice {V} (k : MX) (v1 v2 : V) (d : HashDict V) :
  hd_set k v2 (hd_set k v1 d) = hd_set k v2 d.
Proof.
  induction d as [|[k' v'] d IH]; simpl.
  - unfold is_equal. now rewrite bool_decide_eq_true_2.
  - destruct (is_equal k k') eqn:Heq; simpl; rewrite Heq; [reflexivity|].
    now rewrite IH.
Qed.

(** On a stage without next-state rules, calling [set_der] a second time on
    the same state returns and overwrites the first rule. *)
Lemma set_der_twice_overwrites `{External}
    (w : World) (self : addr) (s : Stage) (state d1 d2 : MX) :
  stages w !! self = Some s ->
  hd_nonempty (_state_next s) = false ->
  exists w' s',
    (set_der self state d1 ;; set_der self state d2) w = (Ret tt, w') /\
    stages w' !! self = Some s' /\
    _state_der s' = hd_set state d2 (_state_der s) /\
    _state_next s' = _state_next s.
Proof.
  intros Hs Hnext. unfold bind at 1.
  rewrite (set_der_run _ _ _ _ _ Hs), Hnext. cbv beta iota.
  erewrite set_der_run by lookup_tac. cbn [_state_next set__state_der].
  rewrite Hnext. eexists _, _. split; [reflexivity|]. split; [lookup_tac|].
  cbn [_state_der _state_next set__state_der]. now rewrite hd_set_twice.
Qed.

(** C5, at the input [x = ocp.state(); ocp.set_der(x, -x);
    ocp.set_next(x, -x)]: the last call raises, yet afterwards the stage
    holds a derivative and a next-state rule for [x] at the same time. *)
Theorem set_next_after_set_der_leaves_both :
  exists w' s',
    set_next 0 x_demo (MNeg x_demo) ode_world = (Raise AssertionError, w') /\
    stages w' !! 0 = Some s' /\
    _state_der s' = [(x_demo, MNeg x_demo)] /\
    _state_next s' = [(x_demo, MNeg x_demo)].
Proof.
  eexists _, _. split; [vm_compute; reflexivity|].
  split; [vm_compute; reflexivity|]. split; reflexivity.
Qed.

(** ** Offsets *)

Lemma py_int_integer (k : Q) (z : Z) : (k == inject_Z z)%Q -> py_int k = z.
Proof.
  destruct k as [a b]. unfold Qeq, py_int. simpl. intros Heq.
  assert (Ha : a = (z * Z.pos b)%Z) by lia.
  subst a. apply Z.quot_mul. lia.
Qed.

Lemma py_int_check (k : Q) :
  Qeq_bool (inject_Z (py_int k)) k = true <-> exists z, (k == inject_Z z)%Q.
Proof.
  split.
  - intros Hc. exists (py_int k). symmetry. now apply Qeq_bool_iff.
  - intros [z Hz]. apply Qeq_bool_iff.
    rewrite (py_int_integer _ _ Hz). now symmetry.
Qed.

(** C9: [offset(expr, k)] with a [k] that is not an integer raises and
    leaves the heap as it was.  With an integer [k] it returns a symbol named
    "offset" of the shape of [expr] that is fresh - it occurs in no
    expression made of the symbols minted so far, and the symbol counter
    moves past it - and records [(expr, k)] under it: afterwards the offsets
    map of the stage reads [(expr, k)] at that symbol and what it read before
    at every other key, and nothing else of the heap has changed.  [next] and
    [prev] are [offset] with shifts [1] and [-1]. *)
Theorem offset_integer_shift `{External}
    (w : World) (self : addr) (s : Stage) (expr : MX) (k : Q) :
  stages w !! self = Some s ->
  ((forall z : Z, ~ (k == inject_Z z)%Q) ->
   offset self expr k w = (Raise (Exception "Integer expected"), w)) /\
  (forall z : Z, (k == inject_Z z)%Q ->
   exists r w' s',
     offset self expr k w = (Ret r, w') /\
     r = MSym (next_sym w) "offset" (fst (shape expr)) (snd (shape expr)) /\
     shape r = shape expr /\
     (forall e, (forall i, In i (symbols e) -> i < next_sym w) ->
                depends_on e r = false) /\
     next_sym w' = S (next_sym w) /\
     stages w' !! self = Some s' /\
     hd_get r (_offsets s') = Some (expr, z) /\
     (forall key, key <> r ->
        hd_get key (_offsets s') = hd_get key (_offsets s)) /\
     _placeholders s' = _placeholders s /\
     _state_der s' = _state_der s /\
     _constraints s' = _constraints s /\
     (forall a x, a <> self -> stages w !! a = Some x ->
                  stages w' !! a = Some x) /\
     length (stages w') = length (stages w) /\
     _is_transcribed w' = _is_transcribed w /\
     _transcribed_placeholders w' = _transcribed_placeholders w) /\
  next self expr = offset self expr 1 /\
  prev self expr = offset self expr (-1).
Proof.
  intros Hs. split; [|split; [|split; reflexivity]].
  - intros Hno. unfold offset.
    destruct (Qeq_bool (inject_Z (py_int k)) k) eqn:Hc; [|reflexivity].
    apply py_int_check in Hc. destruct Hc as [z Hz]. now destruct (Hno z).
  - intros z Hz. unfold offset.
    assert (Hc : Qeq_bool (inject_Z (py_int k)) k = true)
      by (apply py_int_check; eauto).
    rewrite Hc. cbn [negb]. rewrite (py_int_integer _ _ Hz). run.
    eexists _, _, _. split; [reflexivity|]. split; [reflexivity|].
    split; [now destruct (shape expr)|].
    split; [intros e He; now apply depends_on_fresh|].
    split; [reflexivity|]. split; [lookup_tac|].
    cbn [_offsets set__offsets].
    split; [apply hd_get_set_eq|].
    split; [intros key Hkey; now apply hd_get_set_ne|].
    split; [reflexivity|]. split; [reflexivity|]. split; [reflexivity|].
    split; [intros a x Ha Hx; wsimpl;
            now rewrite list_lookup_insert_ne by congruence|].
    split; [wsimpl; apply length_insert|]. split; reflexivity.
Qed.

Lemma offset_integer_shift_witness :
  offset 0 x_demo (3 # 2) ode_world =
    (Raise (Exception "Integer expected"), ode_world) /\
  exists r w' s',
    offset 0 x_demo 2 ode_world = (Ret r, w') /\
    r = MSym (next_sym ode_world) "offset" 1 1 /\
    stages w' !! 0 = Some s' /\
    hd_get r (_offsets s') = Some (x_demo, 2%Z) /\
    hd_get r (_offsets (stage_of ode_world 0)) = None.
Proof.
  assert (Hs : stages ode_world !! 0 = Some (stage_of ode_world 0))
    by (vm_compute; reflexivity).
  split.
  - refine (proj1 (offset_integer_shift (H := demo_external) ode_world 0
                     (stage_of ode_world 0) x_demo (3 # 2) Hs) _).
    intros z. unfold Qeq. simpl. lia.
  - destruct (proj1 (proj2 (offset_integer_shift (H := demo_external)
                              ode_world 0 (stage_of ode_world 0) x_demo 2 Hs))
                2%Z ltac:(reflexivity))
      as (r & w' & s' & Hrun & Hr & _ & _ & _ & Hs' & Hget & _).
    exists r, w', s'. split; [exact Hrun|]. split; [exact Hr|].
    split; [exact Hs'|]. split; [exact Hget|].
    rewrite Hr. vm_compute. reflexivity.
Defined.

(** ** Integrals and sums *)

(** C1, as the code has it: on a stage without next-state rules,
    [integral(expr, grid='inf')] appends a fresh quadrature state - the
    states proper are as before - attaches [expr] as its derivative, and
    returns a fresh [at_tf] placeholder on that state: afterwards the
    derivative map reads [expr] at the new state, the placeholder registry
    reads the new state at the returned symbol and the kind registry reads
    "at_tf" there, and every other entry of the three maps reads as before.
    [integral] with any other grid returns a fresh [integral_control]
    placeholder, and [sum(expr, grid='control')] a fresh [sum_control]
    placeholder: the registry reads [expr] and that kind at the returned
    symbol, every other entry reads as before, and no state is created and
    no derivative stored. *)
Theorem integral_sum_placeholders `{External}
    (w : World) (self : addr) (s : Stage) (expr : MX) (grid : string) :
  stages w !! self = Some s ->
  master_ok s w ->
  (hd_nonempty (_state_next s) = false ->
   let I := MSym (next_sym w) "x" 1 1 in
   let r := MSym (S (next_sym w)) "r_at_tf" 1 1 in
   exists w' s',
     integral self expr "inf" w = (Ret r, w') /\
     stages w' !! self = Some s' /\
     I <> r /\
     (forall e, (forall i, In i (symbols e) -> i < next_sym w) ->
                depends_on e I = false /\ depends_on e r = false) /\
     next_sym w' = 2 + next_sym w /\
     qstates s' = qstates s ++ [I] /\
     states s' = states s /\
     hd_get I (_state_der s') = Some expr /\
     (forall k, k <> I -> hd_get k (_state_der s') = hd_get k (_state_der s)) /\
     hd_get r (_placeholders s') = Some I /\
     hd_get r (_placeholder_callbacks s') = Some "at_tf" /\
     (forall k, k <> r ->
        hd_get k (_placeholders s') = hd_get k (_placeholders s) /\
        hd_get k (_placeholder_callbacks s') =
          hd_get k (_placeholder_callbacks s))) /\
  (grid <> "inf" ->
   let r := MSym (next_sym w) "r_integral_control"
              (fst (shape expr)) (snd (shape expr)) in
   exists w' s',
     integral self expr grid w = (Ret r, w') /\
     stages w' !! self = Some s' /\
     shape r = shape expr /\
     (forall e, (forall i, In i (symbols e) -> i < next_sym w) ->
                depends_on e r = false) /\
     next_sym w' = 1 + next_sym w /\
     qstates s' = qstates s /\
     states s' = states s /\
     _state_der s' = _state_der s /\
     hd_get r (_placeholders s') = Some expr /\
     hd_get r (_placeholder_callbacks s') = Some "integral_control" /\
     (forall k, k <> r ->
        hd_get k (_placeholders s') = hd_get k (_placeholders s) /\
        hd_get k (_placeholder_callbacks s') =
          hd_get k (_placeholder_callbacks s))) /\
  (let r := MSym (next_sym w) "r_sum_control"
              (fst (shape expr)) (snd (shape expr)) in
   exists w' s',
     sum self expr "control" w = (Ret r, w') /\
     stages w' !! self = Some s' /\
     shape r = shape expr /\
     (forall e, (forall i, In i (symbols e) -> i < next_sym w) ->
                depends_on e r = false) /\
     next_sym w' = 1 + next_sym w /\
     qstates s' = qstates s /\
     states s' = states s /\
     _state_der s' = _state_der s /\
     hd_get r (_placeholders s') = Some expr /\
     hd_get r (_placeholder_callbacks s') = Some "sum_control" /\
     (forall k, k <> r ->
        hd_get k (_placeholders s') = hd_get k (_placeholders s) /\
        hd_get k (_placeholder_callbacks s') =
          hd_get k (_placeholder_callbacks s))).
Proof.
  intros Hs Hm.
  assert (Hplain : forall cb,
    exists w' s',
      _create_placeholder_expr self expr cb w =
        (Ret (MSym (next_sym w) ("r_" +:+ cb)
                (fst (shape expr)) (snd (shape expr))), w') /\
      stages w' !! self = Some s' /\
      shape (MSym (next_sym w) ("r_" +:+ cb)
               (fst (shape expr)) (snd (shape expr))) = shape expr /\
      (forall e, (forall i, In i (symbols e) -> i < next_sym w) ->
                 depends_on e (MSym (next_sym w) ("r_" +:+ cb)
                                 (fst (shape expr)) (snd (shape expr))) = false) /\
      next_sym w' = 1 + next_sym w /\
      qstates s' = qstates s /\
      states s' = states s /\
      _state_der s' = _state_der s /\
      hd_get (MSym (next_sym w) ("r_" +:+ cb)
                (fst (shape expr)) (snd (shape expr))) (_placeholders s') =
        Some expr /\
      hd_get (MSym (next_sym w) ("r_" +:+ cb)
                (fst (shape expr)) (snd (shape expr)))
             (_placeholder_callbacks s') = Some cb /\
      (forall k, k <> MSym (next_sym w) ("r_" +:+ cb)
                        (fst (shape expr)) (snd (shape expr)) ->
         hd_get k (_placeholders s') = hd_get k (_placeholders s) /\
         hd_get k (_placeholder_callbacks s') =
           hd_get k (_placeholder_callbacks s))).
  { intros cb. rewrite (_create_placeholder_expr_run _ _ _ _ _ Hs Hm).
    unfold placeholder_sym.
    eexists _, _. split; [reflexivity|]. split; [lookup_tac|].
    split; [now destruct (shape expr)|].
    split; [intros e He; now apply depends_on_fresh|].
    split; [reflexivity|]. split; [reflexivity|]. split; [reflexivity|].
    split; [reflexivity|].
    cbn [_placeholders _placeholder_callbacks set__placeholders
         set__placeholder_callbacks].
    split; [apply hd_get_set_eq|]. split; [apply hd_get_set_eq|].
    intros k Hk. split; now apply hd_get_set_ne. }
  split; [|split].
  - intros Hnext I r. unfold integral.
    change (String.eqb "inf" "inf") with true. unfold bind. cbv beta iota.
    rewrite (state_run _ _ _ _ _ _ Hs). cbv beta iota.
    erewrite set_der_run by lookup_tac.
    cbn [_state_next set_qstates]. rewrite Hnext.
    unfold at_tf. erewrite _create_placeholder_expr_run;
      [|lookup_tac|intros m Hmm; wsimpl; apply Hm; exact Hmm].
    unfold placeholder_sym. wsimpl. cbn [shape fst snd Nat.add].
    assert (Hne : I <> r) by (unfold I, r; intros Heq; injection Heq; lia).
    eexists _, _. split; [reflexivity|]. split; [lookup_tac|].
    split; [exact Hne|].
    split; [intros e He; split; apply depends_on_fresh;
            [exact He|intros i Hi; specialize (He i Hi); lia]|].
    split; [reflexivity|].
    cbn [qstates states _state_der _placeholders _placeholder_callbacks
         set__placeholders set__placeholder_callbacks set__state_der
         set_qstates].
    split; [reflexivity|]. split; [reflexivity|].
    split; [apply hd_get_set_eq|].
    split; [intros k Hk; now apply hd_get_set_ne|].
    split; [apply hd_get_set_eq|]. split; [apply hd_get_set_eq|].
    intros k Hk. split; now apply hd_get_set_ne.
  - intros Hgrid r. unfold integral.
    destruct (String.eqb_spec grid "inf") as [->|_]; [now destruct Hgrid|].
    apply (Hplain "integral_control").
  - intros r. unfold sum. apply (Hplain "sum_control").
Qed.

Lemma integral_sum_placeholders_witness :
  exists w' s',
    integral 0 x_demo "inf" ode_world = (Ret (MSym 5 "r_at_tf" 1 1), w') /\
    stages w' !! 0 = Some s' /\
    qstates s' = qstates (stage_of ode_world 0) ++ [MSym 4 "x" 1 1] /\
    hd_get (MSym 4 "x" 1 1) (_state_der s') = Some x_demo /\
    hd_get (MSym 5 "r_at_tf" 1 1) (_placeholders s') = Some (MSym 4 "x" 1 1) /\
    hd_get (MSym 5 "r_at_tf" 1 1) (_placeholder_callbacks s') = Some "at_tf" /\
    hd_get x_demo (_state_der s') = Some (MNeg x_demo).
Proof.
  assert (Hs : stages ode_world !! 0 = Some (stage_of ode_world 0))
    by (vm_compute; reflexivity).
  assert (Hm : master_ok (stage_of ode_world 0) ode_world).
  { intros m Hm. vm_compute in Hm. injection Hm as <-. vm_compute. eauto. }
  assert (Hn : hd_nonempty (_state_next (stage_of ode_world 0)) = false)
    by (vm_compute; reflexivity).
  destruct (proj1 (integral_sum_placeholders (H := demo_external) ode_world 0
                     (stage_of ode_world 0) x_demo "control" Hs Hm) Hn)
    as (w' & s' & Hrun & Hs' & _ & _ & _ & Hq & _ & Hder & Hframe & Hp & Hcb & _).
  assert (En : next_sym ode_world = 4) by (vm_compute; reflexivity).
  rewrite En in *.
  exists w', s'. split; [exact Hrun|]. split; [exact Hs'|].
  split; [exact Hq|]. split; [exact Hder|]. split; [exact Hp|].
  split; [exact Hcb|].
  rewrite Hframe by (intros Heq; discriminate Heq).
  vm_compute. reflexivity.
Defined.

(** C1 as stated fails in two places.  [sum(x, grid='inf')] creates no
    quadrature state and returns a [sum_control] placeholder; and on a stage
    that has a next-state rule, [integral(x, grid='inf')] raises. *)
Lemma integral_sum_inf_counterexample :
  (exists r w' s',
     sum 0 x_demo "inf" ode_world = (Ret r, w') /\
     stages w' !! 0 = Some s' /\
     qstates s' = [] /\
     hd_get r (_placeholders s') = Some x_demo /\
     hd_get r (_placeholder_callbacks s') = Some "sum_control") /\
  (exists w',
     integral 0 x_demo "inf" diffeq_world = (Raise AssertionError, w')).
Proof.
  split.
  - eexists _, _, _. split; [vm_compute; reflexivity|].
    split; [vm_compute; reflexivity|]. repeat split.
  - eexists. vm_compute. reflexivity.
Qed.

(** ** Constraints: grid classification *)

Section Signals.
Context `{External}.

Lemma existsb_concat {A} (f : A -> bool) (ll : list (list A)) :
  existsb f (concat ll) = existsb (existsb f) ll.
Proof.
  induction ll as [|l ll IH]; simpl; [reflexivity|].
  now rewrite existsb_app, IH.
Qed.

Lemma symbols_vcat (l : list MX) : symbols (vcat l) = concat (map symbols l).
Proof.
  induction l as [|a l IH]; simpl; [reflexivity|]. now rewrite IH.
Qed.

Lemma symbols_vvcat (l : list MX) : symbols (vvcat l) = concat (map symbols l).
Proof.
  unfold vvcat. rewrite symbols_vcat, map_map. reflexivity.
Qed.

Lemma depends_on_concat (expr : MX) (l : list MX) (arg : MX) :
  symbols arg = concat (map symbols l) ->
  depends_on expr arg = depends_on_any expr l.
Proof.
  intros Harg. unfold depends_on, depends_on_any. rewrite Harg.
  rewrite existsb_concat. clear Harg.
  induction l as [|a l IH]; simpl; [reflexivity|]. now rewrite IH.
Qed.

Lemma depends_on_any_app (expr : MX) (l1 l2 : list MX) :
  depends_on_any expr (l1 ++ l2) =
  depends_on_any expr l1 || depends_on_any expr l2.
Proof. apply existsb_app. Qed.

Lemma symbols_Stage_u (s : Stage) :
  symbols (Stage_u s) = concat (map symbols (controls s)).
Proof.
  unfold Stage_u. destruct (controls s) as [|u us]; [reflexivity|].
  simpl Nat.eqb. cbv iota. apply symbols_vvcat.
Qed.

(** The test of the code: the signals of the specification, and also the
    expressions that depend on a derivative proxy made by [inf_der]. *)
Lemma depends_on_signal_symbols (s : Stage) (expr : MX) :
  depends_on expr (signal_symbols s) =
  spec_is_signal s expr || depends_on_any expr (hd_keys (_inf_der s)).
Proof.
  unfold signal_symbols, spec_is_signal.
  rewrite (depends_on_concat expr
             (states s ++ controls s ++ algebraics s ++ [_t s] ++
              (dd_get "control" (variables s) ++ dd_get "states" (variables s)) ++
              hd_keys (_inf_der s))).
  - rewrite !depends_on_any_app. now rewrite !orb_assoc.
  - rewrite !map_app, !concat_app. simpl.
    unfold Stage_x, Stage_z.
    rewrite !symbols_vvcat, symbols_Stage_u, !symbols_vcat, !map_app, !concat_app.
    simpl. rewrite !app_nil_r. now rewrite <- !app_assoc.
Qed.

Lemma is_signal_run w self s expr :
  stages w !! self = Some s ->
  is_signal self expr w =
    (Ret (spec_is_signal s expr || depends_on_any expr (hd_keys (_inf_der s))), w).
Proof.
  intros Hs. unfold is_signal. run. now rewrite depends_on_signal_symbols.
Qed.

Lemma valid_grids_In (g : string) :
  existsb (String.eqb g) valid_grids = true <-> In g valid_grids.
Proof.
  rewrite existsb_exists. split.
  - intros [x [Hin Heq]]. apply String.eqb_eq in Heq. now subst.
  - intros Hin. exists g. split; [exact Hin|apply String.eqb_refl].
Qed.

Lemma subject_to_run w self s constr grid include_first include_last meta :
  stages w !! self = Some s ->
  let sig := spec_is_signal s constr ||
             depends_on_any constr (hd_keys (_inf_der s)) in
  let w1 := with_transcribed (_master s) false w in
  let stored g :=
    (Ret tt,
     with_stage self
       (set__constraints
          (dd_append g (constr, get_meta meta,
                        mkArgs g include_last include_first)
             (_constraints s)) s) w1) in
  subject_to self constr grid include_first include_last meta w =
    let g := match grid with
             | Some g => g
             | None => if sig then "control" else "point"
             end in
    if negb (existsb (String.eqb g) valid_grids)
    then (Raise (Exception "Invalid argument"), w1)
    else if sig then
      if String.eqb g "point"
      then (Raise (Exception "Got a signal expression for grid 'point'."), w1)
      else stored g
    else
      if negb (String.eqb g "point")
      then (Raise (Exception ("Expected signal expression since grid '"
                              +:+ g +:+ "' was given.")), w1)
      else stored g.
Proof.
  intros Hs sig w1 stored. unfold subject_to. run.
  assert (Hs1 : stages (with_transcribed (_master s) false w) !! self = Some s)
    by exact Hs.
  destruct grid as [g|]; cbv zeta.
  - cbv beta iota. destruct (negb (existsb (String.eqb g) valid_grids));
      [reflexivity|]. cbv beta iota.
    rewrite (is_signal_run _ _ _ _ Hs1). fold sig. cbv beta iota.
    destruct sig.
    + destruct (String.eqb g "point"); [reflexivity|]. cbv beta iota. now run.
    + destruct (negb (String.eqb g "point")); [reflexivity|]. cbv beta iota. now run.
  - rewrite (is_signal_run _ _ _ _ Hs1). fold sig. cbv beta iota.
    destruct (negb (existsb (String.eqb (if sig then "control" else "point"))
                      valid_grids)); [reflexivity|]. cbv beta iota.
    rewrite (is_signal_run _ _ _ _ Hs1). fold sig. cbv beta iota.
    destruct sig.
    + destruct (String.eqb "control" "point"); [reflexivity|]. cbv beta iota. now run.
    + destruct (negb (String.eqb "point" "point")); [reflexivity|]. cbv beta iota. now run.
Qed.

End Signals.

(** C6, as the code has it: a constraint is a signal when it depends on a
    state, a control, an algebraic variable, the time, a free variable
    tagged "control" or "states", or a derivative proxy made by [inf_der].
    With the grid unset, [subject_to] stores a signal under 'control' and
    anything else under 'point'.  It raises at once, with the constraint
    registry untouched, for a grid outside the five valid names, for a signal
    with grid 'point', and for a non-signal with any other grid; in the
    remaining cases it stores the constraint under the grid given. *)
Theorem subject_to_grid_classification `{External}
    (w : World) (self : addr) (s : Stage) (constr : MX)
    (include_first include_last : bool) (meta : option Meta) :
  stages w !! self = Some s ->
  let sig := spec_is_signal s constr ||
             depends_on_any constr (hd_keys (_inf_der s)) in
  let w1 := with_transcribed (_master s) false w in
  let stored g :=
    (Ret tt,
     with_stage self
       (set__constraints
          (dd_append g (constr, get_meta meta,
                        mkArgs g include_last include_first)
             (_constraints s)) s) w1) in
  subject_to self constr None include_first include_last meta w =
    stored (if sig then "control" else "point") /\
  (forall g, ~ In g valid_grids ->
     subject_to self constr (Some g) include_first include_last meta w =
       (Raise (Exception "Invalid argument"), w1)) /\
  (sig = true ->
     subject_to self constr (Some "point") include_first include_last meta w =
       (Raise (Exception "Got a signal expression for grid 'point'."), w1)) /\
  (forall g, sig = false -> g <> "point" ->
     exists msg,
       subject_to self constr (Some g) include_first include_last meta w =
         (Raise (Exception msg), w1)) /\
  (forall g, In g valid_grids -> (sig = true <-> g <> "point") ->
     subject_to self constr (Some g) include_first include_last meta w = stored g).
Proof.
  intros Hs sig w1 stored.
  assert (Hrun := fun grid =>
    subject_to_run w self s constr grid include_first include_last meta Hs).
  fold sig w1 in Hrun. cbv zeta in Hrun. fold stored in Hrun.
  split; [|split; [|split; [|split]]].
  - rewrite Hrun. cbv zeta. now destruct sig.
  - intros g Hg. rewrite Hrun. cbv zeta.
    destruct (existsb (String.eqb g) valid_grids) eqn:Hv; [|reflexivity].
    apply valid_grids_In in Hv. now destruct Hg.
  - intros Hsig. rewrite Hrun, Hsig. reflexivity.
  - intros g Hsig Hg. rewrite Hrun, Hsig. cbv zeta.
    destruct (negb (existsb (String.eqb g) valid_grids)); [eauto|].
    destruct (String.eqb_spec g "point") as [->|_]; [now destruct Hg|]. simpl. eauto.
  - intros g Hv Hiff. rewrite Hrun. cbv zeta.
    apply valid_grids_In in Hv. rewrite Hv. simpl negb. cbv iota.
    destruct sig.
    + destruct (String.eqb_spec g "point") as [->|_]; [|reflexivity].
      now destruct (proj1 Hiff eq_refl).
    + destruct (String.eqb_spec g "point") as [->|Hne]; [reflexivity|].
      now apply Hiff in Hne.
Qed.

Lemma subject_to_grid_classification_witness :
  subject_to 0 (MLe x_demo (MConst 3)) None true true None ode_world =
    (Ret tt,
     with_stage 0
       (set__constraints
          [("control", [(MLe x_demo (MConst 3), [], mkArgs "control" true true)])]
          (stage_of ode_world 0))
       (with_transcribed (Some 0) false ode_world)) /\
  subject_to 0 (MLe x_demo (MConst 3)) (Some "point") true true None ode_world =
    (Raise (Exception "Got a signal expression for grid 'point'."),
     with_transcribed (Some 0) false ode_world) /\
  (exists msg,
     subject_to 0 (MLe (MConst 0) (MConst 3)) (Some "control") true true None
       ode_world =
       (Raise (Exception msg), with_transcribed (Some 0) false ode_world)).
Proof.
  assert (Hs : stages ode_world !! 0 = Some (stage_of ode_world 0))
    by (vm_compute; reflexivity).
  destruct (subject_to_grid_classification (H := demo_external) ode_world 0
              (stage_of ode_world 0) (MLe x_demo (MConst 3)) true true None Hs)
    as (Hnone & _ & Hpoint & _ & _).
  destruct (subject_to_grid_classification (H := demo_external) ode_world 0
              (stage_of ode_world 0) (MLe (MConst 0) (MConst 3)) true true None Hs)
    as (_ & _ & _ & Hother & _).
  split; [|split].
  - rewrite Hnone. vm_compute. reflexivity.
  - rewrite Hpoint by (vm_compute; reflexivity). vm_compute. reflexivity.
  - destruct (Hother "control") as [msg Hmsg];
      [vm_compute; reflexivity|discriminate|].
    exists msg. rewrite Hmsg. vm_compute. reflexivity.
Defined.

(** C6 as stated fails on a derivative proxy: [d = ocp.inf_der(0)] depends
    on no state, control, algebraic variable, time or tagged variable, and
    yet [subject_to(d <= 1)] with the grid unset files it under 'control',
    not under 'point'. *)
Lemma subject_to_inf_der_counterexample :
  fst (inf_der 0 (MConst 0) ocp_world) = Ret d_demo /\
  spec_is_signal (stage_of inf_der_world 0) (MLe d_demo (MConst 1)) = false /\
  exists w' s',
    subject_to 0 (MLe d_demo (MConst 1)) None true true None inf_der_world =
      (Ret tt, w') /\
    stages w' !! 0 = Some s' /\
    dd_get "control" (_constraints s') =
      [(MLe d_demo (MConst 1), [], mkArgs "control" true true)] /\
    dd_get "point" (_constraints s') = [].
Proof.
  split; [vm_compute; reflexivity|]. split; [vm_compute; reflexivity|].
  eexists _, _. split; [vm_compute; reflexivity|].
  split; [vm_compute; reflexivity|]. split; reflexivity.
Qed.

(** ** Sampling on the control grid *)

Lemma _grid_control_ks_first_only (n : nat) :
  _grid_control_ks (S n) true false = map Z.of_nat (seq 0 (S n)).
Proof.
  unfold _grid_control_ks. simpl. now rewrite Nat.sub_0_r.
Qed.

(** C2, at the input [sample(x, grid='-control-')] (and '-control'): the
    leading '-' clears [include_last], not [include_first].  On a method with
    [N] intervals the sampler then visits the boundaries [0 .. N-1]: [N]
    points where the specification has [N-1], with boundary 0 kept; with [N = 2] the
    sample has the two columns of boundaries 0 and 1. *)
Theorem parse_grid_leading_dash_clears_include_last :
  _parse_grid "-control-" = ("control", true, false) /\
  _parse_grid "-control" = ("control", true, false) /\
  _parse_grid "control-" = ("control", true, false) /\
  _parse_grid "control" = ("control", true, true) /\
  (forall n : nat,
     length (_grid_control_ks (S n) true false) = S n /\
     hd 7%Z (_grid_control_ks (S n) true false) = 0%Z) /\
  (exists w',
     sample 0 x_demo "-control-" None u_world =
       (Ret (MConst 0, [x_demo; x_demo]), w')) /\
  (exists w',
     sample 0 x_demo "control" None u_world =
       (Ret (MConst 0, [x_demo; x_demo; x_demo]), w')).
Proof.
  repeat split; try reflexivity.
  - rewrite _grid_control_ks_first_only. now rewrite length_map, length_seq.
  - eexists. vm_compute. reflexivity.
  - eexists. vm_compute. reflexivity.
Qed.

(** ** Index failures during sampling *)

(** The loop of [_grid_control] turns an index failure of the evaluator into
    a not-a-number block of the shape of the expression. *)
Lemma _grid_control_loop_recovers `{External}
    (m : Method.t) (stage : addr) (expr : MX) (k : Z) (ks : list Z) :
  Method.eval_at_control m stage expr k = Raise IndexError ->
  _grid_control_loop m stage expr (k :: ks) =
    match _grid_control_loop m stage expr ks with
    | Ret sub_expr => Ret (MNan (fst (shape expr)) (snd (shape expr)) :: sub_expr)
    | Raise e => Raise e
    end.
Proof. intros Hk. simpl. now rewrite Hk. Qed.

(** C7, at the input [sample(u, grid='integrator')] for a control [u] and a
    method that has no control value at the final boundary: on the control
    grid the index failure becomes a not-a-number column, on the integrator
    grid the same failure of [eval_at_control(stage, expr, -1)] reaches the
    caller. *)
Theorem grid_integrator_propagates_index_failure :
  Method.eval_at_control (demo_method 4) 0 u_demo (-1) = Raise IndexError /\
  (exists w',
     sample 0 u_demo "control" None u_world =
       (Ret (MConst 0, [u_demo; u_demo; MNan 1 1]), w')) /\
  (exists w',
     sample 0 u_demo "integrator" None u_world = (Raise IndexError, w')).
Proof.
  split; [reflexivity|]. split; eexists; vm_compute; reflexivity.
Qed.

(** ** Free time *)

(** Attribute reads after attribute assignments. *)
Ltac ssimpl :=
  cbn [
       states qstates controls algebraics parameters variables _master
       parent _param_vals _state_der _state_next _alg _constraints
       _objective _initial _placeholders _placeholder_callbacks
       _offsets _inf_inert _inf_der _t _stages _method _t0 _T
       _public_T _public_t0 _tf set_states set_qstates set_controls
       set_algebraics set_parameters set_variables set__master
       set_parent set__param_vals set__state_der set__state_next
       set__alg set__constraints set__objective set__initial
       set__placeholders set__placeholder_callbacks set__offsets
       set__inf_inert set__inf_der set__t set__stages set__method
       set__t0 set__T set__public_T set__public_t0 set__tf fst snd].

Ltac ssimpl_all :=
  cbn [
       states qstates controls algebraics parameters variables _master
       parent _param_vals _state_der _state_next _alg _constraints
       _objective _initial _placeholders _placeholder_callbacks
       _offsets _inf_inert _inf_der _t _stages _method _t0 _T
       _public_T _public_t0 _tf set_states set_qstates set_controls
       set_algebraics set_parameters set_variables set__master
       set_parent set__param_vals set__state_der set__state_next
       set__alg set__constraints set__objective set__initial
       set__placeholders set__placeholder_callbacks set__offsets
       set__inf_inert set__inf_der set__t set__stages set__method
       set__t0 set__T set__public_T set__public_t0 set__tf fst snd] in *.

Ltac wnorm :=
  unfold with_stage, with_transcribed, with_dirty, with_fresh, set_stages,
    set_next_sym, set__is_transcribed, set__transcribed_placeholders;
  cbn [stages next_sym _is_transcribed _transcribed_placeholders].

Section FreeTimeRuns.
Context `{External}.

Lemma variable_run w self s n_rows n_cols grid :
  stages w !! self = Some s ->
  variable self n_rows n_cols grid w =
    (Ret (MSym (next_sym w) "v" n_rows n_cols),
     with_transcribed (_master s) false
       (with_stage self
          (set_variables
             (dd_append grid (MSym (next_sym w) "v" n_rows n_cols) (variables s)) s)
          (with_fresh 1 w))).
Proof. intros Hs. unfold variable. now run. Qed.

Lemma is_transcribed_run w m ms b :
  stages w !! m = Some ms ->
  _master ms = Some m ->
  _is_transcribed w !! m = Some b ->
  is_transcribed m w = (Ret b, w).
Proof.
  intros Hm Hmm Hb. unfold is_transcribed. run. rewrite Hmm. now rewrite Hb.
Qed.

Lemma set_initial_run w self s var value :
  stages w !! self = Some s ->
  str_in "opti" (MX_str var) = false ->
  master_tree s self w ->
  (forall m, _master s = Some m -> _is_transcribed w !! m = Some false) ->
  set_initial self var value w =
    (Ret tt, with_stage self (set__initial (hd_set var value (_initial s)) s) w).
Proof.
  intros Hs Hstr Htree Hflag. unfold set_initial. rewrite Hstr. run.
  cbn [_master set__initial].
  destruct (_master s) as [m|] eqn:Hmaster; [|reflexivity].
  destruct (Htree m Hmaster) as (Hne & ms & Hms & Hmm).
  rewrite (is_transcribed_run _ m ms false);
    [reflexivity| |exact Hmm|exact (Hflag m eq_refl)].
  wsimpl. rewrite list_lookup_insert_ne by congruence. exact Hms.
Qed.

Lemma subject_to_unset_run w self s constr include_first include_last meta :
  stages w !! self = Some s ->
  subject_to self constr None include_first include_last meta w =
    (Ret tt,
     with_stage self
       (set__constraints
          (dd_append (if depends_on constr (signal_symbols s)
                      then "control" else "point")
             (constr, get_meta meta,
              mkArgs (if depends_on constr (signal_symbols s)
                      then "control" else "point") include_last include_first)
             (_constraints s)) s)
       (with_transcribed (_master s) false w)).
Proof.
  intros Hs. rewrite (subject_to_run _ _ _ _ _ _ _ _ Hs). cbv zeta.
  rewrite <- depends_on_signal_symbols.
  now destruct (depends_on constr (signal_symbols s)).
Qed.

Lemma opt_insert_twice m b (tbl : gmap addr bool) :
  opt_insert m b (opt_insert m b tbl) = opt_insert m b tbl.
Proof. destruct m; simpl; [apply insert_insert_eq|reflexivity]. Qed.

Lemma opt_insert_lookup m b (tbl : gmap addr bool) :
  opt_insert (Some m) b tbl !! m = Some b.
Proof. apply lookup_insert_eq. Qed.

Lemma _check_free_time_run w a s :
  stages w !! a = Some s ->
  master_tree s a w ->
  _check_free_time a w =
    (Ret tt,
     mkWorld (snd (free_T (snd (free_t0 (next_sym w) s)) (fst (free_t0 (next_sym w) s))))
       (<[a := fst (free_T (snd (free_t0 (next_sym w) s)) (fst (free_t0 (next_sym w) s)))]>
          (stages w))
       (if is_free (_t0 s) || is_free (_T s)
        then opt_insert (_master s) false (_is_transcribed w)
        else _is_transcribed w)
       (_transcribed_placeholders w)).
Proof.
  intros Hs Htree.
  assert (Htree' : forall w' s', _master s' = _master s ->
            (forall b, b <> a -> stages w' !! b = stages w !! b) ->
            master_tree s' a w').
  { intros w' s' Hm Hframe m Hmm. rewrite Hm in Hmm.
    destruct (Htree m Hmm) as (Hne & ms & Hms & Hmms).
    split; [exact Hne|]. exists ms. rewrite Hframe by exact Hne. now split. }
  assert (Hflag : forall T m, _master s = Some m ->
            opt_insert (_master s) false T !! m = Some false).
  { intros T m ->. apply opt_insert_lookup. }
  unfold _check_free_time, free_t0, free_T, set_t0, set_T.
  unfold bind at 1. rewrite (get_stage_run _ _ _ Hs). cbv beta iota.
  destruct (_t0 s) as [init0|v0] eqn:Ht0.
  - unfold bind at 1. unfold bind at 1.
    rewrite (variable_run _ _ _ _ _ _ Hs). cbv beta iota.
    unfold bind at 1. erewrite update_stage_run by lookup_tac. cbv beta iota.
    unfold bind at 1. erewrite get_stage_run by lookup_tac. cbv beta iota.
    cbn [_t0 set__t0 as_MX]. unfold bind at 1, ret at 1. cbv beta iota.
    erewrite set_initial_run;
      [ |lookup_tac|reflexivity
        |apply Htree'; [reflexivity|intros b Hb; wsimpl;
                         now rewrite !list_lookup_insert_ne by congruence]
        |intros m Hm; wsimpl; now apply Hflag].
    cbv beta iota. wnorm. rewrite !list_insert_insert_eq.
    unfold bind at 1. erewrite get_stage_run by lookup_tac. cbv beta iota.
    cbn [_T set__initial set__t0 set_variables].
    destruct (_T s) as [init|v1] eqn:HT.
    + unfold bind at 1.
      erewrite variable_run by lookup_tac. cbv beta iota.
      unfold bind at 1. erewrite update_stage_run by lookup_tac. cbv beta iota.
      unfold bind at 1. erewrite get_stage_run by lookup_tac. cbv beta iota.
      cbn [_T set__T as_MX]. unfold bind at 1, ret at 1. cbv beta iota.
      unfold bind at 1. erewrite subject_to_unset_run by lookup_tac. cbv beta iota.
      unfold bind at 1. erewrite get_stage_run by lookup_tac. cbv beta iota.
      cbn [_T set__T set__constraints as_MX]. unfold bind at 1, ret at 1.
      cbv beta iota.
      erewrite set_initial_run;
        [ |lookup_tac|reflexivity
          |apply Htree'; [reflexivity|intros b Hb; wsimpl;
                           now rewrite !list_lookup_insert_ne by congruence]
          |intros m Hm; wsimpl; now apply Hflag].
      wnorm. rewrite !list_insert_insert_eq. ssimpl. rewrite HT. ssimpl.
      rewrite !opt_insert_twice. reflexivity.
    + unfold ret. wnorm. ssimpl. rewrite HT. reflexivity.
  - unfold ret at 1. unfold bind at 1. cbv beta iota.
    unfold bind at 1. rewrite (get_stage_run _ _ _ Hs). cbv beta iota.
    destruct (_T s) as [init|v1] eqn:HT.
    + unfold bind at 1.
      erewrite variable_run by lookup_tac. cbv beta iota.
      unfold bind at 1. erewrite update_stage_run by lookup_tac. cbv beta iota.
      unfold bind at 1. erewrite get_stage_run by lookup_tac. cbv beta iota.
      cbn [_T set__T as_MX]. unfold bind at 1, ret at 1. cbv beta iota.
      unfold bind at 1. erewrite subject_to_unset_run by lookup_tac. cbv beta iota.
      unfold bind at 1. erewrite get_stage_run by lookup_tac. cbv beta iota.
      cbn [_T set__T set__constraints as_MX]. unfold bind at 1, ret at 1.
      cbv beta iota.
      erewrite set_initial_run;
        [ |lookup_tac|reflexivity
          |apply Htree'; [reflexivity|intros b Hb; wsimpl;
                           now rewrite !list_lookup_insert_ne by congruence]
          |intros m Hm; wsimpl; now apply Hflag].
      wnorm. rewrite !list_insert_insert_eq. ssimpl. rewrite ?HT. ssimpl.
      rewrite ?opt_insert_twice. reflexivity.
    + unfold ret. ssimpl. rewrite HT. ssimpl.
      rewrite list_insert_id by exact Hs. now destruct w.
Qed.

End FreeTimeRuns.

(** ** Construction *)

Section Construction.
Context `{External}.

Lemma insert_last {A} (l : list A) (x y : A) :
  <[length l := y]> (l ++ [x]) = l ++ [y].
Proof.
  rewrite insert_app_r_alt by lia. now rewrite Nat.sub_diag.
Qed.

Lemma __init___run w parent master t0 T clone :
  parent_ok parent master w ->
  __init__ parent t0 T clone w =
    (Ret (length (stages w)),
     if clone then init_world master parent t0 T w
     else after_free_time (length (stages w))
            (init_stage master parent t0 T (next_sym w))
            (init_world master parent t0 T w)).
Proof.
  intros [Hparent Hmaster]. unfold __init__.
  unfold bind at 1.
  assert (Hm : (match parent with
                | Some p => ps <- get_stage p ;; ret (_master ps)
                | None => ret None
                end) w = (Ret master, w)).
  { destruct parent as [p|].
    - destruct Hparent as (ps & Hps & Hpm). run. now rewrite Hpm.
    - now subst master. }
  rewrite Hm. cbv beta iota.
  unfold bind at 1, MX_sym at 1. cbv beta iota.
  unfold bind at 1, alloc at 1. cbv beta iota. wnorm.
  unfold bind at 1.
  erewrite _create_placeholder_expr_run;
    [ |lookup_tac|intros m Hmm; wsimpl; now apply Hmaster].
  cbv beta iota. wnorm. rewrite !insert_last.
  unfold bind at 1. erewrite update_stage_run by lookup_tac. cbv beta iota.
  wnorm. rewrite !insert_last.
  unfold bind at 1.
  erewrite _create_placeholder_expr_run;
    [ |lookup_tac
      |intros m Hmm; wsimpl; ssimpl_all; rewrite Hmm;
       rewrite opt_insert_lookup; eauto].
  cbv beta iota. wnorm. rewrite !insert_last.
  unfold bind at 1. erewrite update_stage_run by lookup_tac. cbv beta iota.
  wnorm. rewrite !insert_last.
  unfold bind at 1. erewrite update_stage_run by lookup_tac. cbv beta iota.
  wnorm. rewrite !insert_last.
  unfold placeholder_sym. ssimpl. wnorm. rewrite opt_insert_twice.
  match goal with
  | |- _ ?W = _ => change W with (init_world master parent t0 T w)
  end.
  destruct clone; [reflexivity|].
  unfold bind at 1. cbn [negb].
  rewrite (_check_free_time_run _ _ (init_stage master parent t0 T (next_sym w))).
  - reflexivity.
  - unfold init_world. lookup_tac.
  - intros m Hmm. cbn [init_stage _master] in Hmm.
    destruct (Hmaster m Hmm) as (_ & ms & Hms & Hmms).
    split.
    + apply lookup_lt_Some in Hms. lia.
    + exists ms. split; [|exact Hmms]. unfold init_world. lookup_tac.
Qed.

End Construction.

Lemma eqb_plus_3 (n : nat) : Nat.eqb n (S (S (S n))) = false.
Proof. apply Nat.eqb_neq. lia. Qed.

Lemma is_equal_sym_ne (i j : nat) (a b : string) (r c r' c' : nat) :
  i <> j -> is_equal (MSym i a r c) (MSym j b r' c') = false.
Proof.
  intros Hne. unfold is_equal. apply bool_decide_eq_false_2. congruence.
Qed.

(** C8: a stage constructed (without the internal [clone] flag) with a free
    horizon [FreeTime(hint)] has, when the constructor returns, a fresh
    variable in place of the sentinel, the constraint [T >= 0] on the point
    grid and the initial guess [hint] for that variable; a free start time
    is replaced by a fresh variable with its initial guess and no
    constraint; with both free, both happen, start time first. *)
Theorem free_time_at_construction `{External}
    (w : World) (parent master : option addr) (fixed hint hint0 : Value) :
  parent_ok parent master w ->
  let new := length (stages w) in
  let v := MSym (3 + next_sym w) "v" 1 1 in
  let v' := MSym (4 + next_sym w) "v" 1 1 in
  let nonneg x := (MGe x (MConst 0), get_meta None, mkArgs "point" true true) in
  (exists w' s',
     __init__ parent (Fixed fixed) (FreeTime hint) false w = (Ret new, w') /\
     stages w' !! new = Some s' /\
     _T s' = Fixed (VMX v) /\
     variables s' = [("", [v])] /\
     _constraints s' = [("point", [nonneg v])] /\
     _initial s' = [(v, hint)] /\
     _t0 s' = Fixed fixed) /\
  (exists w' s',
     __init__ parent (FreeTime hint0) (Fixed fixed) false w = (Ret new, w') /\
     stages w' !! new = Some s' /\
     _t0 s' = Fixed (VMX v) /\
     variables s' = [("", [v])] /\
     _constraints s' = [] /\
     _initial s' = [(v, hint0)] /\
     _T s' = Fixed fixed) /\
  (exists w' s',
     __init__ parent (FreeTime hint0) (FreeTime hint) false w = (Ret new, w') /\
     stages w' !! new = Some s' /\
     _t0 s' = Fixed (VMX v) /\
     _T s' = Fixed (VMX v') /\
     variables s' = [("", [v; v'])] /\
     _constraints s' = [("point", [nonneg v'])] /\
     _initial s' = [(v, hint0); (v', hint)]).
Proof.
  intros Hok new v v' nonneg. split; [|split].
  - rewrite (__init___run _ _ _ _ _ _ Hok).
    eexists _, _. split; [reflexivity|].
    split; [unfold after_free_time, init_world; wsimpl; rewrite insert_last;
            now apply list_lookup_middle|].
    unfold free_t0, free_T, init_stage. ssimpl.
    unfold depends_on. simpl. rewrite eqb_plus_3. simpl. repeat split.
  - rewrite (__init___run _ _ _ _ _ _ Hok).
    eexists _, _. split; [reflexivity|].
    split; [unfold after_free_time, init_world; wsimpl; rewrite insert_last;
            now apply list_lookup_middle|].
    unfold free_t0, free_T, init_stage. ssimpl. repeat split.
  - rewrite (__init___run _ _ _ _ _ _ Hok).
    eexists _, _. split; [reflexivity|].
    split; [unfold after_free_time, init_world; wsimpl; rewrite insert_last;
            now apply list_lookup_middle|].
    unfold free_t0, free_T, init_stage. ssimpl.
    unfold depends_on. simpl.
    replace (Nat.eqb (next_sym w) (S (S (S (S (next_sym w)))))) with false
      by (symmetry; apply Nat.eqb_neq; lia).
    simpl. rewrite is_equal_sym_ne by lia. repeat split.
Qed.

Lemma free_time_at_construction_witness :
  parent_ok (Some 0) (Some 0) ocp_world /\
  exists w' s',
    __init__ (Some 0) (Fixed (VNum 0)) (FreeTime (VNum 2)) false ocp_world =
      (Ret 1, w') /\
    stages w' !! 1 = Some s' /\
    _T s' = Fixed (VMX (MSym 6 "v" 1 1)) /\
    variables s' = [("", [MSym 6 "v" 1 1])] /\
    _constraints s' =
      [("point", [(MGe (MSym 6 "v" 1 1) (MConst 0), [], mkArgs "point" true true)])] /\
    _initial s' = [(MSym 6 "v" 1 1, VNum 2)] /\
    _t0 s' = Fixed (VNum 0).
Proof.
  assert (Hok : parent_ok (Some 0) (Some 0) ocp_world).
  { split.
    - exists (stage_of ocp_world 0). split; vm_compute; reflexivity.
    - intros m Hm. injection Hm as <-. split.
      + vm_compute. eauto.
      + exists (stage_of ocp_world 0). split; vm_compute; reflexivity. }
  split; [exact Hok|].
  exact (proj1 (free_time_at_construction (H := demo_external) ocp_world
                  (Some 0) (Some 0) (VNum 0) (VNum 2) (VNum 5) Hok)).
Defined.

(** ** Cloning *)

Section CloneLoops.
Context `{External}.

Lemma clone_subst_to_run self_T self_t0 ret_T ret_t0 keys :
  Forall (fun k => is_sym k = true) keys ->
  forall w,
    clone_subst_to self_T self_t0 ret_T ret_t0 keys w =
      (Ret (fst (subst_targets self_T self_t0 ret_T ret_t0 (next_sym w) keys)),
       set_next_sym
         (snd (subst_targets self_T self_t0 ret_T ret_t0 (next_sym w) keys)) w).
Proof.
  induction 1 as [|k keys Hk Hkeys IH]; intros w.
  - simpl. unfold ret. now destruct w.
  - cbn [clone_subst_to subst_targets]. unfold bind at 1.
    destruct (is_equal k self_T).
    + unfold ret at 1. cbv beta iota. unfold bind at 1. rewrite IH. reflexivity.
    + destruct (is_equal k self_t0).
      * unfold ret at 1. cbv beta iota. unfold bind at 1. rewrite IH. reflexivity.
      * destruct k; try discriminate Hk.
        unfold MX_sym at 1. cbv beta iota. unfold bind at 1. rewrite IH.
        reflexivity.
Qed.


Lemma hd_get_key {V} (d : HashDict V) (k : MX) :
  In k (hd_keys d) -> is_Some (hd_get k d).
Proof.
  induction d as [|[k' v] d IH]; simpl; [easy|].
  intros Hin. destruct (is_equal k k') eqn:Heq; [eauto|].
  destruct Hin as [->|Hin]; [|now apply IH].
  unfold is_equal in Heq. now rewrite bool_decide_eq_true_2 in Heq.
Qed.

(** The loop over [zip(subst_from, subst_to)] only assigns attributes of the
    new object. *)
Lemma copy_placeholders_run (s : Stage) (new : addr) (pairs : list (MX * MX)) :
  Forall (fun kk => is_Some (hd_get (fst kk) (_placeholder_callbacks s)) /\
                    is_Some (hd_get (fst kk) (_placeholders s))) pairs ->
  forall w r,
    stages w !! new = Some r ->
    for_each pairs
      (fun kk =>
         cb <- getitem (_placeholder_callbacks s) (fst kk) ;;
         update_stage new
           (fun r => set__placeholder_callbacks
                       (hd_set (snd kk) cb (_placeholder_callbacks r)) r) ;;
         e <- getitem (_placeholders s) (fst kk) ;;
         update_stage new
           (fun r => set__placeholders (hd_set (snd kk) e (_placeholders r)) r)) w =
      (Ret tt, with_stage new (fold_left (copy_placeholder s) pairs r) w).
Proof.
  induction 1 as [|kk pairs [[cb Hcb] [e He]] Hpairs IH]; intros w r Hr.
  - simpl. unfold ret, with_stage. rewrite list_insert_id by exact Hr.
    now destruct w.
  - cbn [for_each fold_left]. unfold bind at 1. unfold bind at 1.
    unfold getitem at 1. rewrite Hcb. unfold ret at 1. cbv beta iota.
    unfold bind at 1. erewrite update_stage_run by lookup_tac. cbv beta iota.
    unfold bind at 1. unfold getitem at 1. rewrite He. unfold ret at 1.
    cbv beta iota. erewrite update_stage_run by lookup_tac. cbv beta iota.
    rewrite with_stage_twice.
    erewrite IH by lookup_tac. rewrite with_stage_twice.
    unfold copy_placeholder. cbn [fst snd]. rewrite Hcb, He. reflexivity.
Qed.

End CloneLoops.

Section CloneRuns.
Context `{External}.


Lemma freed_master n s : _master (fst (freed n s)) = _master s.
Proof.
  unfold freed, free_t0, free_T.
  destruct (_t0 s); ssimpl; destruct (_T s); reflexivity.
Qed.

(** The placeholder loop leaves every other attribute alone. *)
Lemma copy_placeholders_frame {A} (f : Stage -> A) s pairs :
  (forall r p, f (set__placeholders p r) = f r) ->
  (forall r c, f (set__placeholder_callbacks c r) = f r) ->
  forall r, f (fold_left (copy_placeholder s) pairs r) = f r.
Proof.
  intros Hp Hc. induction pairs as [|kk pairs IH]; intros r; [reflexivity|].
  cbn [fold_left]. rewrite IH. unfold copy_placeholder.
  destruct (hd_get (fst kk) (_placeholder_callbacks s)); [|reflexivity].
  destruct (hd_get (fst kk) (_placeholders s)); [|reflexivity].
  now rewrite Hp, Hc.
Qed.

Lemma Stage_new_run w parent master kw :
  parent_ok parent master w ->
  Stage_new parent kw w = (Ret (length (stages w)), new_world master parent kw w).
Proof.
  intros Hok. unfold Stage_new, new_world.
  now rewrite (__init___run _ _ _ _ _ _ Hok).
Qed.

Lemma new_world_eq w parent master kw :
  exists n1 T1,
    new_world master parent kw w =
      mkWorld n1 (stages w ++ [new_stage master parent kw (next_sym w)]) T1
        (opt_insert master true (_transcribed_placeholders w)).
Proof.
  unfold new_world, new_stage, after_free_time, init_world, freed.
  destruct (default false (kw_clone kw)); wsimpl.
  - eexists _, _. reflexivity.
  - rewrite insert_last. eexists _, _. reflexivity.
Qed.

Lemma new_stage_master master parent kw n :
  _master (new_stage master parent kw n) = master.
Proof.
  unfold new_stage. destruct (default false (kw_clone kw)); [reflexivity|].
  now rewrite freed_master.
Qed.

Lemma substitute_lookup (a b : list MX) (o : MX) (v vdef : list MX) :
  substitute (a ++ [o] ++ b) v vdef !! length a =
    Some (substitute1 (combine v vdef) o).
Proof.
  unfold substitute. rewrite map_app. simpl.
  rewrite <- (length_map (substitute1 (combine v vdef)) a).
  now apply list_lookup_middle.
Qed.

Lemma placeholder_pairs_ok s (tg : list MX) :
  placeholders_ok s ->
  Forall (fun kk => is_Some (hd_get (fst kk) (_placeholder_callbacks s)) /\
                    is_Some (hd_get (fst kk) (_placeholders s)))
         (combine (hd_keys (_placeholders s)) tg).
Proof.
  intros Hok. apply Forall_forall. intros [k k'] Hin.
  apply list_elem_of_In, in_combine_l in Hin. cbn [fst].
  split; [|now apply hd_get_key].
  unfold placeholders_ok in Hok. rewrite Forall_forall in Hok.
  now apply Hok, list_elem_of_In.
Qed.

Lemma clone_run w self s parent master kw :
  stages w !! self = Some s ->
  parent_ok parent master w ->
  placeholders_ok s ->
  clone self parent kw w =
    (Ret (length (stages w)), clone_world s master parent kw w).
Proof.
  intros Hs Hok Hph. unfold clone, clone_world, clone_stage.
  unfold bind at 1. rewrite (Stage_new_run _ _ _ _ Hok). cbv beta iota.
  destruct (new_world_eq w parent master kw) as (n1 & T1 & ->). wsimpl.
  set (r1 := new_stage master parent kw (next_sym w)).
  unfold bind at 1. erewrite get_stage_run by lookup_tac. cbv beta iota.
  unfold bind at 1. erewrite get_stage_run by lookup_tac. cbv beta iota.
  cbv zeta.
  unfold bind at 1. rewrite clone_subst_to_run
    by (eapply Forall_impl; [exact Hph|now intros k [Hk _]]).
  cbv beta iota. wnorm.
  set (tg := subst_targets (_public_T s) (_public_t0 s) (_public_T r1)
               (_public_t0 r1) n1 (hd_keys (_placeholders s))).
  unfold bind at 1.
  erewrite copy_placeholders_run;
    [ |now apply placeholder_pairs_ok|lookup_tac].
  cbv beta iota. wnorm. rewrite !insert_last.
  do 10 (unfold bind at 1; erewrite update_stage_run by lookup_tac;
         cbv beta iota; wnorm; rewrite !insert_last).
  unfold bind at 1. rewrite substitute_lookup. unfold ret at 1. cbv beta iota.
  do 3 (unfold bind at 1; erewrite update_stage_run by lookup_tac;
        cbv beta iota; wnorm; rewrite !insert_last).
  match goal with
  | |- _ (mkWorld _ (_ ++ [?r]) _ _) = _ =>
      change r with (clone_copy s (fst tg) r1)
  end.
  set (r2 := clone_copy s (fst tg) r1).
  assert (Hm2 : _master r2 = master).
  { unfold r2, clone_copy. ssimpl.
    rewrite copy_placeholders_frame by reflexivity.
    apply new_stage_master. }
  unfold bind at 1.
  rewrite (_check_free_time_run _ _ r2);
    [ |lookup_tac
      |intros m Hm; rewrite Hm2 in Hm;
       destruct (proj2 Hok m Hm) as (_ & ms & Hms & Hmm);
       split; [apply lookup_lt_Some in Hms; lia|];
       exists ms; split; [lookup_tac|exact Hmm]].
  cbv beta iota. wnorm. rewrite !insert_last.
  fold (freed (snd tg) r2).
  set (r3 := fst (freed (snd tg) r2)).
  unfold clone_finish.
  destruct (kw_T kw), (kw_t0 kw); unfold bind, ret; cbv beta iota;
    repeat (erewrite update_stage_run by lookup_tac;
            cbv beta iota; wnorm; rewrite ?insert_last);
    reflexivity.
Qed.

End CloneRuns.

Section CloneFacts.
Context `{External}.






End CloneFacts.

Section CloneRegistry.
Context `{External}.




End CloneRegistry.

Section Renaming.
Context `{External}.


















End Renaming.




(** ** The transcribed flag *)

Section Flag.
Context `{External}.
Variable m : addr.

Lemma keeps_bind {A B} (P : World -> Prop) (c : M A) (f : A -> M B) :
  keeps P c -> (forall a, keeps P (f a)) -> keeps P (bind c f).
Proof.
  intros Hc Hf w HP. unfold bind. specialize (Hc w HP).
  destruct (c w) as [[a|e] w1]; simpl in *; [now apply Hf|exact Hc].
Qed.

Lemma keeps_ret {A} (P : World -> Prop) (a : A) : keeps P (ret a).
Proof. now intros w HP. Qed.

Lemma keeps_raise {A} (P : World -> Prop) (e : exn) : keeps P (@raise A e).
Proof. now intros w HP. Qed.

Lemma keeps_lift {A} (P : World -> Prop) (o : outcome A) : keeps P (lift o).
Proof. now intros w HP. Qed.

Lemma keeps_get_stage (P : World -> Prop) (a : addr) : keeps P (get_stage a).
Proof. intros w HP. unfold get_stage. now destruct (stages w !! a). Qed.

Lemma keeps_update_stage (a : addr) (f : Stage -> Stage) :
  keeps (flag_off m) (update_stage a f).
Proof.
  intros w HP. unfold update_stage, bind, get_stage.
  now destruct (stages w !! a).
Qed.

Lemma keeps_MX_sym (name : string) (sh : nat * nat) :
  keeps (flag_off m) (MX_sym name sh).
Proof. now intros w HP. Qed.

Lemma keeps_mark_dirty (a : addr) : keeps (flag_off m) (mark_dirty a).
Proof.
  intros w HP. unfold mark_dirty.
  now destruct (_transcribed_placeholders w !! a).
Qed.

Lemma keeps__set_transcribed (a : addr) :
  keeps (flag_off m) (_set_transcribed a false).
Proof.
  intros w HP. unfold _set_transcribed, bind, get_stage.
  destruct (stages w !! a) as [s|]; [|exact HP].
  destruct (_master s) as [m'|]; [|exact HP].
  unfold flag_off. simpl. destruct (decide (m' = m)) as [->|Hne].
  - apply lookup_insert_eq.
  - rewrite lookup_insert_ne by exact Hne. exact HP.
Qed.

Lemma keeps_is_signal (a : addr) (e : MX) : keeps (flag_off m) (is_signal a e).
Proof.
  unfold is_signal. apply keeps_bind; [apply keeps_get_stage|].
  intros s. apply keeps_ret.
Qed.

End Flag.

(** A method built from steps that keep the flag off keeps it off. *)
Ltac keeps_tac :=
  repeat first
    [ apply keeps_ret | apply keeps_raise | apply keeps_lift
    | apply keeps_get_stage | apply keeps_update_stage | apply keeps_MX_sym
    | apply keeps_mark_dirty | apply keeps__set_transcribed
    | apply keeps_is_signal
    | apply keeps_bind; [|intros ?]
    | match goal with
      | |- keeps _ (if ?b then _ else _) => destruct b
      | |- keeps _ (match ?o with Some _ => _ | None => _ end) =>
          destruct o
      end ].

Section FlagMethods.
Context `{External}.
Variable m : addr.

Lemma keeps_state a r c quad : keeps (flag_off m) (state a r c quad).
Proof. unfold state. keeps_tac. Qed.

Lemma keeps_set_der a x e : keeps (flag_off m) (set_der a x e).
Proof. unfold set_der. keeps_tac. Qed.

Lemma keeps_control a r c order : keeps (flag_off m) (control a r c order).
Proof.
  induction order as [|order IH]; cbn [control].
  - keeps_tac.
  - apply keeps_bind; [apply keeps_state|]. intros u.
    apply keeps_bind; [exact IH|]. intros helper_u.
    apply keeps_bind; [apply keeps_set_der|]. intros _. apply keeps_ret.
Qed.

(** [_set_transcribed(False)] on a stage of the tree turns the flag off. *)
Lemma _set_transcribed_off w self s :
  stages w !! self = Some s ->
  _master s = Some m ->
  flag_off m (snd (_set_transcribed self false w)).
Proof.
  intros Hs Hm. rewrite (_set_transcribed_run _ _ _ _ Hs), Hm.
  apply lookup_insert_eq.
Qed.

(** A method that starts with [_set_transcribed(False)] and goes on with
    steps that keep the flag off. *)
Lemma off_then_keeps {A} w self s (rest : M A) :
  stages w !! self = Some s ->
  _master s = Some m ->
  keeps (flag_off m) rest ->
  flag_off m (snd ((_set_transcribed self false ;; rest) w)).
Proof.
  intros Hs Hm Hrest. unfold bind.
  pose proof (_set_transcribed_off w self s Hs Hm) as Hoff.
  rewrite (_set_transcribed_run _ _ _ _ Hs) in *. now apply Hrest.
Qed.

End FlagMethods.

(** C4: on a stage whose master is [m], each of the mutating calls -
    declaring a state, control, algebraic, parameter or variable, setting a
    derivative or a next-state rule, adding a constraint or an objective
    term, assigning a method - leaves the transcribed flag of [m] false,
    whether the call returns or raises afterwards; and creating a child
    stage, from scratch or from a template, returns the child and leaves
    the flag false. *)
Theorem mutating_calls_clear_transcribed `{External}
    (w : World) (self : addr) (s : Stage) (m : addr) :
  stages w !! self = Some s ->
  _master s = Some m ->
  (forall r c quad, flag_off m (snd (state self r c quad w))) /\
  (forall r c order, flag_off m (snd (control self r c order w))) /\
  (forall r c, flag_off m (snd (algebraic self r c w))) /\
  (forall r c grid, flag_off m (snd (parameter self r c grid w))) /\
  (forall r c grid, flag_off m (snd (variable self r c grid w))) /\
  (forall x der, flag_off m (snd (set_der self x der w))) /\
  (forall x next, flag_off m (snd (set_next self x next w))) /\
  (forall constr grid include_first include_last meta,
     flag_off m (snd (subject_to self constr grid include_first include_last
                        meta w))) /\
  (forall term, flag_off m (snd (add_objective self term w))) /\
  (forall method', flag_off m (snd (method self method' w))) /\
  (parent_ok (Some self) (Some m) w ->
   (forall kw,
      exists child w',
        stage self None kw w = (Ret child, w') /\ flag_off m w') /\
   (forall template t kw,
      stages w !! template = Some t ->
      placeholders_ok t ->
      kw_clone kw = None ->
      exists child w',
        stage self (Some template) kw w = (Ret child, w') /\ flag_off m w')).
Proof.
  intros Hs Hm.
  assert (Hoff : forall w', flag_off m (with_transcribed (_master s) false w')).
  { intros w'. rewrite Hm. apply lookup_insert_eq. }
  split; [|split; [|split; [|split; [|split; [|split; [|split; [|split;
    [|split; [|split]]]]]]]]].
  - intros r c quad. rewrite (state_run _ _ _ _ _ _ Hs). apply Hoff.
  - intros r c [|order]; cbn [control].
    + unfold bind, MX_sym. cbv beta iota.
      erewrite update_stage_run by lookup_tac. cbv beta iota.
      erewrite _set_transcribed_run by lookup_tac. cbv beta iota.
      ssimpl. rewrite Hm. apply lookup_insert_eq.
    + unfold bind at 1. rewrite (state_run _ _ _ _ _ _ Hs). cbv beta iota.
      assert (Hrest : keeps (flag_off m)
                (helper_u <- control self r c order ;;
                 set_der self (MSym (next_sym w) "x" r c) helper_u ;;
                 ret (MSym (next_sym w) "x" r c))).
      { apply keeps_bind; [apply keeps_control|]. intros helper_u.
        apply keeps_bind; [apply keeps_set_der|]. intros _. apply keeps_ret. }
      apply Hrest. apply Hoff.
  - intros r c. unfold algebraic, bind, MX_sym. cbv beta iota.
    erewrite update_stage_run by lookup_tac. cbv beta iota.
    erewrite _set_transcribed_run by lookup_tac. cbv beta iota.
    ssimpl. rewrite Hm. apply lookup_insert_eq.
  - intros r c grid. unfold parameter, bind, MX_sym. cbv beta iota.
    erewrite update_stage_run by lookup_tac. cbv beta iota.
    erewrite _set_transcribed_run by lookup_tac. cbv beta iota.
    ssimpl. rewrite Hm. apply lookup_insert_eq.
  - intros r c grid. rewrite (variable_run _ _ _ _ _ _ Hs). apply Hoff.
  - intros x der. unfold set_der.
    apply (off_then_keeps m w self s); [exact Hs|exact Hm|]. keeps_tac.
  - intros x next. unfold set_next.
    apply (off_then_keeps m w self s); [exact Hs|exact Hm|]. keeps_tac.
  - intros constr grid include_first include_last meta. unfold subject_to.
    apply (off_then_keeps m w self s); [exact Hs|exact Hm|].
    apply keeps_bind; [destruct grid; keeps_tac|]. intros g. keeps_tac.
  - intros term. unfold add_objective.
    apply (off_then_keeps m w self s); [exact Hs|exact Hm|]. keeps_tac.
  - intros method'. unfold method.
    apply (off_then_keeps m w self s); [exact Hs|exact Hm|]. keeps_tac.
  - intros Hok. split.
    + intros kw. unfold stage. unfold bind at 1.
      rewrite (Stage_new_run _ _ _ _ Hok). cbv beta iota.
      destruct (new_world_eq w (Some self) (Some m) kw) as (n1 & T1 & ->).
      unfold bind at 1. erewrite update_stage_run by lookup_tac. cbv beta iota.
      unfold bind at 1. erewrite _set_transcribed_run by lookup_tac.
      cbv beta iota. eexists _, _. split; [reflexivity|].
      ssimpl. rewrite Hm. apply lookup_insert_eq.
    + intros template t kw Ht Hph Hkw. unfold stage. rewrite Hkw.
      unfold bind at 1.
      rewrite (clone_run _ _ _ _ _ _ Ht Hok Hph). cbv beta iota.
      unfold clone_world.
      unfold bind at 1. erewrite update_stage_run by lookup_tac. cbv beta iota.
      unfold bind at 1. erewrite _set_transcribed_run by lookup_tac.
      cbv beta iota. eexists _, _. split; [reflexivity|].
      ssimpl. rewrite Hm. apply lookup_insert_eq.
Qed.

Lemma transcribed_world_parent_ok : parent_ok (Some 0) (Some 0) transcribed_world.
Proof.
  split.
  - exists (stage_of transcribed_world 0). split; vm_compute; reflexivity.
  - intros m Hm. injection Hm as <-. split.
    + vm_compute. eauto.
    + exists (stage_of transcribed_world 0). split; vm_compute; reflexivity.
Qed.

Lemma transcribed_world_placeholders_ok :
  placeholders_ok (stage_of transcribed_world 0).
Proof.
  unfold placeholders_ok.
  assert (Hk : hd_keys (_placeholders (stage_of transcribed_world 0)) =
               [MSym 1 "r_T" 1 1; MSym 2 "r_t0" 1 1])
    by (vm_compute; reflexivity).
  rewrite Hk. repeat constructor; vm_compute; eauto.
Qed.

Lemma mutating_calls_clear_transcribed_witness :
  _is_transcribed transcribed_world !! 0 = Some true /\
  flag_off 0 (snd (state 0 1 1 false transcribed_world)) /\
  flag_off 0 (snd (control 0 1 1 2 transcribed_world)) /\
  flag_off 0 (snd (set_next 0 x_demo (MConst 1) transcribed_world)) /\
  flag_off 0 (snd (subject_to 0 x_demo (Some "nowhere") true true None
                     transcribed_world)) /\
  (exists child w',
     stage 0 None no_kwargs transcribed_world = (Ret child, w') /\
     flag_off 0 w') /\
  (exists child w',
     stage 0 (Some 0) no_kwargs transcribed_world = (Ret child, w') /\
     flag_off 0 w').
Proof.
  assert (Hs : stages transcribed_world !! 0 = Some (stage_of transcribed_world 0))
    by (vm_compute; reflexivity).
  assert (Hm : _master (stage_of transcribed_world 0) = Some 0)
    by (vm_compute; reflexivity).
  destruct (mutating_calls_clear_transcribed (H := demo_external)
              transcribed_world 0 (stage_of transcribed_world 0) 0 Hs Hm)
    as (Hstate & Hcontrol & _ & _ & _ & _ & Hnext & Hsubj & _ & _ & Hchild).
  destruct (Hchild transcribed_world_parent_ok) as [Hnew Hclone].
  split; [vm_compute; reflexivity|].
  split; [apply Hstate|]. split; [apply Hcontrol|]. split; [apply Hnext|].
  split; [apply Hsubj|]. split; [apply Hnew|].
  apply (Hclone 0 (stage_of transcribed_world 0) no_kwargs Hs
           transcribed_world_placeholders_ok eq_refl).
Defined.

(** ** The grid string *)

Section GridStrings.
Context `{External}.

Lemma no_dash_startswith (g : string) :
  no_dash g = true -> startswith_dash g = false.
Proof.
  destruct g as [|c g]; [reflexivity|]. simpl.
  destruct (Ascii.eqb_spec c "-"%char) as [->|Hne]; [discriminate|].
  intros _. destruct c as [[] [] [] [] [] [] [] []]; try reflexivity.
  now destruct Hne.
Qed.

Lemma no_dash_endswith (g : string) :
  no_dash g = true -> endswith_dash g = false.
Proof.
  induction g as [|c g IH]; [reflexivity|]. simpl.
  destruct (Ascii.eqb c "-"%char) eqn:Hc; [discriminate|]. simpl.
  intros Hg. destruct g; [reflexivity|]. now apply IH.
Qed.

Lemma endswith_dash_append (g : string) :
  endswith_dash (String.append g "-") = true.
Proof.
  induction g as [|c g IH]; [reflexivity|].
  simpl. destruct (String.append g "-") eqn:Hg; [now destruct g|]. exact IH.
Qed.

Lemma drop_last_append (g : string) :
  drop_last (String.append g "-") = g.
Proof.
  induction g as [|c g IH]; [reflexivity|].
  simpl. destruct (String.append g "-") eqn:Hg; [now destruct g|].
  now rewrite IH.
Qed.

End GridStrings.

(** X1: [_parse_grid] never clears [include_first].  On a grid name without a
    '-' it changes nothing; a leading '-', a trailing '-' and both give the
    same answer: the bare name with [include_last] cleared. *)
Theorem _parse_grid_dashes `{External} (g : string) :
  snd (fst (_parse_grid g)) = true /\
  (no_dash g = true ->
   _parse_grid g = (g, true, true) /\
   _parse_grid (String.append "-" g) = (g, true, false) /\
   _parse_grid (String.append g "-") = (g, true, false) /\
   _parse_grid (String.append "-" (String.append g "-")) = (g, true, false)).
Proof.
  split.
  - unfold _parse_grid. destruct (startswith_dash g);
      [destruct (endswith_dash (drop_first g))|destruct (endswith_dash g)];
      reflexivity.
  - intros Hg.
    pose proof (no_dash_startswith g Hg) as Hs.
    pose proof (no_dash_endswith g Hg) as He.
    assert (Hlead : forall g', _parse_grid (String.append "-" g') =
              if endswith_dash g' then (drop_last g', true, false)
              else (g', true, false)).
    { intros g'. unfold _parse_grid.
      change (String.append "-" g') with (String "-"%char g').
      cbn [startswith_dash drop_first]. now destruct (endswith_dash g'). }
    split; [|split; [|split]].
    + unfold _parse_grid. now rewrite Hs, He.
    + now rewrite Hlead, He.
    + unfold _parse_grid. destruct g as [|c g].
      * reflexivity.
      * assert (Hs' : startswith_dash (String.append (String c g) "-") = false).
        { simpl. simpl in Hs. exact Hs. }
        rewrite Hs', endswith_dash_append, drop_last_append. reflexivity.
    + now rewrite Hlead, endswith_dash_append, drop_last_append.
Qed.

Lemma _parse_grid_dashes_witness :
  _parse_grid "integrator" = ("integrator", true, true) /\
  _parse_grid "-integrator" = ("integrator", true, false) /\
  _parse_grid "integrator-" = ("integrator", true, false) /\
  _parse_grid "-integrator-" = ("integrator", true, false).
Proof.
  exact (proj2 (_parse_grid_dashes (H := demo_external) "integrator") eq_refl).
Defined.

(** ** What the grid samplers return *)

Section GridLoops.
Context `{External}.

Lemma _grid_control_ks_length (N : nat) (include_first include_last : bool) :
  length (_grid_control_ks N include_first include_last) =
    (N - 1) + Nat.b2n include_first + Nat.b2n include_last.
Proof.
  unfold _grid_control_ks.
  destruct include_first, include_last;
    rewrite ?length_app; simpl; rewrite ?length_app; simpl;
    rewrite length_map, length_seq; lia.
Qed.

Lemma _grid_control_loop_total (m : Method.t) (stage : addr) (expr : MX)
    (ks : list Z) :
  (forall k e, Method.eval_at_control m stage expr k = Raise e -> e = IndexError) ->
  exists cols,
    _grid_control_loop m stage expr ks = Ret cols /\
    Forall2 (fun k col =>
               match Method.eval_at_control m stage expr k with
               | Ret r => col = r
               | Raise _ => col = MNan (fst (shape expr)) (snd (shape expr))
               end) ks cols.
Proof.
  intros Honly. induction ks as [|k ks (cols & Hcols & Hall)].
  - exists []. split; [reflexivity|constructor].
  - cbn [_grid_control_loop]. rewrite Hcols.
    destruct (Method.eval_at_control m stage expr k) as [r|e] eqn:Hk.
    + exists (r :: cols). split; [reflexivity|].
      constructor; [now rewrite Hk|exact Hall].
    + rewrite (Honly k e Hk).
      exists (MNan (fst (shape expr)) (snd (shape expr)) :: cols).
      split; [reflexivity|]. constructor; [now rewrite Hk|exact Hall].
Qed.

Lemma _grid_integrator_inner_total (m : Method.t) (stage : addr) (expr : MX)
    (f : nat -> nat -> MX) (k : nat) (ls : list nat) :
  (forall k l, Method.eval_at_integrator m stage expr k l = Ret (f k l)) ->
  _grid_integrator_inner m stage expr k ls = Ret (map (f k) ls).
Proof.
  intros Hf. induction ls as [|l ls IH]; [reflexivity|].
  cbn [_grid_integrator_inner map]. now rewrite Hf, IH.
Qed.

Lemma _grid_integrator_outer_total (m : Method.t) (stage : addr) (expr : MX)
    (f : nat -> nat -> MX) (ks : list nat) :
  (forall k l, Method.eval_at_integrator m stage expr k l = Ret (f k l)) ->
  Forall (fun k => k < length (Method.integrator_grid m)) ks ->
  exists time,
    _grid_integrator_outer m stage expr ks =
      Ret (time, concat (map (fun k => map (f k) (seq 0 (Method.M m))) ks)) /\
    Forall2 (fun k t => Method.integrator_grid m !! k = Some t) ks time.
Proof.
  intros Hf. induction 1 as [|k ks Hk Hks (time & Hrun & Htime)].
  - exists []. split; [reflexivity|constructor].
  - cbn [_grid_integrator_outer]. rewrite (_grid_integrator_inner_total _ _ _ f _ _ Hf).
    destruct (lookup_lt_is_Some_2 _ _ Hk) as [t Ht]. rewrite Ht, Hrun.
    exists (t :: time). split; [reflexivity|]. now constructor.
Qed.

Lemma lookups_seq_take {A} (l : list A) (n : nat) (time : list A) :
  n <= length l ->
  Forall2 (fun k t => l !! k = Some t) (seq 0 n) time ->
  time = take n l.
Proof.
  intros Hn Hall. apply list_eq. intros i.
  pose proof (Forall2_length _ _ _ Hall) as Hlen. rewrite length_seq in Hlen.
  destruct (decide (i < n)) as [Hi|Hi].
  - rewrite lookup_take_lt by exact Hi.
    destruct (lookup_lt_is_Some_2 time i ltac:(lia)) as [t Ht].
    rewrite Ht. symmetry.
    eapply (Forall2_lookup_lr _ _ _ i i t Hall); [|exact Ht].
    now apply lookup_seq_lt.
  - rewrite lookup_take_ge by lia. apply lookup_ge_None. lia.
Qed.

End GridLoops.

(** X2: Sampling on the control grid never fails on an index failure of the
    evaluator: when [IndexError] is the only exception that
    [eval_at_control] raises, [_grid_control] returns, with one column per
    visited boundary - [N - 1] inner boundaries plus one for each boundary
    flag that is set - each of them the value of the evaluator or a
    not-a-number block of the shape of the expression.  The time it returns
    is the method's whole control grid, whatever the flags are. *)
Theorem _grid_control_columns `{External}
    (w : World) (self stage : addr) (st : Stage) (expr : MX) (grid : string)
    (include_first include_last : bool) :
  stages w !! stage = Some st ->
  (forall k e,
     Method.eval_at_control (_method st) stage expr k = Raise e ->
     e = IndexError) ->
  exists cols,
    _grid_control self stage expr grid include_first include_last w =
      (Ret (Method.control_grid (_method st), cols), w) /\
    length cols =
      (Method.N (_method st) - 1) + Nat.b2n include_first + Nat.b2n include_last /\
    Forall2 (fun k col =>
               match Method.eval_at_control (_method st) stage expr k with
               | Ret r => col = r
               | Raise _ => col = MNan (fst (shape expr)) (snd (shape expr))
               end)
      (_grid_control_ks (Method.N (_method st)) include_first include_last) cols.
Proof.
  intros Hst Honly.
  destruct (_grid_control_loop_total (_method st) stage expr
              (_grid_control_ks (Method.N (_method st)) include_first include_last)
              Honly) as (cols & Hrun & Hall).
  exists cols. split; [|split; [|exact Hall]].
  - unfold _grid_control, bind. rewrite (get_stage_run _ _ _ Hst).
    unfold lift. now rewrite Hrun.
  - rewrite <- (Forall2_length _ _ _ Hall). apply _grid_control_ks_length.
Qed.

Lemma _grid_control_columns_witness :
  exists cols,
    _grid_control 0 0 u_demo "control" true true u_world =
      (Ret (MConst 0, cols), u_world) /\
    length cols = 3.
Proof.
  destruct (_grid_control_columns (H := demo_external) u_world 0 0
              (stage_of u_world 0) u_demo "control" true true) as (cols & Hrun & Hlen & _).
  - vm_compute; reflexivity.
  - intros k e. cbn [_method stage_of]. 
    assert (Hm : _method (stage_of u_world 0) = demo_method 4)
      by (vm_compute; reflexivity).
    rewrite Hm. cbn [Method.eval_at_control demo_method].
    destruct ((k =? -1)%Z && existsb (Nat.eqb 4) (symbols u_demo)); congruence.
  - exists cols. split; [exact Hrun|exact Hlen].
Defined.

(** X3: Sampling on the integrator grid: without [include_first] the first
    assertion fails before anything is evaluated.  With it, when the
    evaluators return and the method's integrator grid has an entry for each
    of the [N] control intervals, [_grid_integrator] returns the first [N]
    entries of that grid as time and [N * M] columns, in interval order,
    followed by the value at the final boundary when [include_last] is set. *)
Theorem _grid_integrator_columns `{External}
    (w : World) (self stage : addr) (st : Stage) (expr : MX) (grid : string)
    (include_last : bool) (f : nat -> nat -> MX) (last : MX) :
  stages w !! stage = Some st ->
  (forall k l, Method.eval_at_integrator (_method st) stage expr k l = Ret (f k l)) ->
  Method.eval_at_control (_method st) stage expr (-1) = Ret last ->
  Method.N (_method st) <= length (Method.integrator_grid (_method st)) ->
  _grid_integrator self stage expr grid false include_last w =
    (Raise AssertionError, w) /\
  exists cols,
    _grid_integrator self stage expr grid true include_last w =
      (Ret (vcat (take (Method.N (_method st))
                    (Method.integrator_grid (_method st))), cols), w) /\
    cols = concat (map (fun k => map (f k) (seq 0 (Method.M (_method st))))
                       (seq 0 (Method.N (_method st))))
           ++ (if include_last then [last] else []) /\
    length cols =
      Method.N (_method st) * Method.M (_method st) + Nat.b2n include_last.
Proof.
  intros Hst Hf Hlast HN. split; [reflexivity|].
  destruct (_grid_integrator_outer_total (_method st) stage expr f
              (seq 0 (Method.N (_method st))) Hf) as (time & Hrun & Htime).
  { apply Forall_forall. intros k Hk. apply elem_of_seq in Hk. lia. }
  apply lookups_seq_take in Htime; [|exact HN]. subst time.
  eexists. split; [|split; [reflexivity|]].
  - unfold _grid_integrator, bind, ret, lift. cbv beta iota.
    rewrite (get_stage_run _ _ _ Hst). cbv beta iota. rewrite Hrun. cbv beta iota.
    destruct include_last; [rewrite Hlast|]; reflexivity.
  - rewrite length_app.
    assert (Hlen : forall ks,
              length (concat (map (fun k => map (f k) (seq 0 (Method.M (_method st)))) ks)) =
              length ks * Method.M (_method st)).
    { induction ks as [|k ks IH]; [reflexivity|].
      cbn [map concat]. rewrite length_app, length_map, length_seq, IH.
      simpl. lia. }
    rewrite Hlen, length_seq. now destruct include_last.
Qed.

Lemma _grid_integrator_columns_witness :
  exists cols,
    _grid_integrator 0 0 x_demo "integrator" true true u_world =
      (Ret (vcat [MConst 0; MConst 1], cols), u_world) /\
    length cols = 3.
Proof.
  assert (Hm : _method (stage_of u_world 0) = demo_method 4)
    by (vm_compute; reflexivity).
  destruct (_grid_integrator_columns (H := demo_external) u_world 0 0
              (stage_of u_world 0) x_demo "integrator" true
              (fun _ _ => x_demo) x_demo) as (_ & cols & Hrun & _ & Hlen).
  - vm_compute; reflexivity.
  - intros k l. now rewrite Hm.
  - now rewrite Hm.
  - rewrite Hm. simpl. lia.
  - rewrite Hm in Hrun, Hlen. exists cols. split; [exact Hrun|exact Hlen].
Defined.

(** ** The errors of [sample] *)

(** X4: [sample] on a stage that has no master raises [AttributeError] and
    leaves the heap alone.  After the master's transcription, the dispatch
    raises: an [Exception] for every grid string that, stripped of its
    dashes by [_parse_grid], is none of 'control', 'control-', 'integrator',
    'integrator_roots'; a [TypeError] whenever the stripped string is
    'control-' (that branch never returns a sample), and whenever [refine]
    is given for the control grid or the integrator roots. *)
Theorem sample_errors `{External}
    (w : World) (self : addr) (s : Stage) (expr : MX) (grid : string)
    (refine : option nat) :
  stages w !! self = Some s ->
  (_master s = None ->
   sample self expr grid refine w = (Raise AttributeError, w)) /\
  (~ In (fst (fst (_parse_grid grid)))
        ["control"; "control-"; "integrator"; "integrator_roots"] ->
   exists msg,
     sample_dispatch self expr grid refine w = (Raise (Exception msg), w)) /\
  (fst (fst (_parse_grid grid)) = "control-" ->
   sample_dispatch self expr grid refine w = (Raise TypeError, w)) /\
  (fst (fst (_parse_grid grid)) = "control" \/
   fst (fst (_parse_grid grid)) = "integrator_roots" ->
   is_Some refine ->
   sample_dispatch self expr grid refine w = (Raise TypeError, w)).
Proof.
  intros Hs. split; [|split; [|split]].
  - intros Hm. unfold sample, bind. rewrite (get_stage_run _ _ _ Hs), Hm.
    reflexivity.
  - intros Hnot. unfold sample_dispatch.
    destruct (_parse_grid grid) as [[g include_first] include_last].
    cbn [fst] in Hnot.
    destruct (String.eqb_spec g "control") as [->|_]; [destruct Hnot; simpl; auto|].
    destruct (String.eqb_spec g "control-") as [->|_]; [destruct Hnot; simpl; auto|].
    destruct (String.eqb_spec g "integrator") as [->|_]; [destruct Hnot; simpl; auto|].
    destruct (String.eqb_spec g "integrator_roots") as [->|_];
      [destruct Hnot; simpl; auto|].
    eexists. reflexivity.
  - intros Hg. unfold sample_dispatch.
    destruct (_parse_grid grid) as [[g include_first] include_last].
    cbn [fst] in Hg. subst g. reflexivity.
  - intros Hg [n ->]. unfold sample_dispatch.
    destruct (_parse_grid grid) as [[g include_first] include_last].
    cbn [fst] in Hg. destruct Hg as [-> | ->]; reflexivity.
Qed.

Lemma sample_errors_witness :
  sample 0 x_demo "control" None bare_world = (Raise AttributeError, bare_world) /\
  (exists msg,
     sample_dispatch 0 x_demo "point" None u_world =
       (Raise (Exception msg), u_world)) /\
  sample_dispatch 0 x_demo "control--" None u_world = (Raise TypeError, u_world) /\
  sample_dispatch 0 x_demo "control" (Some 3) u_world = (Raise TypeError, u_world).
Proof.
  assert (Hs : stages u_world !! 0 = Some (stage_of u_world 0))
    by (vm_compute; reflexivity).
  split; [|split; [|split]].
  - refine (proj1 (sample_errors (H := demo_external) bare_world 0
                     (stage_of bare_world 0) x_demo "control" None _) _);
      vm_compute; reflexivity.
  - refine (proj1 (proj2 (sample_errors (H := demo_external) u_world 0
                            (stage_of u_world 0) x_demo "point" None Hs)) _).
    cbn. intros [Hc|[Hc|[Hc|[Hc|[]]]]]; discriminate Hc.
  - refine (proj1 (proj2 (proj2 (sample_errors (H := demo_external) u_world 0
                            (stage_of u_world 0) x_demo "control--" None Hs))) _).
    reflexivity.
  - refine (proj2 (proj2 (proj2 (sample_errors (H := demo_external) u_world 0
                            (stage_of u_world 0) x_demo "control" (Some 3) Hs))) _ _).
    + left. reflexivity.
    + eauto.
Defined.

(** ** Objective, constraints, values *)

(** X5: The objective is the sum of the terms in call order: after
    [add_objective(t1); ...; add_objective(tn)] it is
    [(...(old + t1) + ...) + tn]; nothing else of the stage changes. *)
Theorem add_objective_accumulates `{External}
    (terms : list MX) (w : World) (self : addr) (s : Stage) :
  stages w !! self = Some s ->
  exists w' s',
    for_each terms (add_objective self) w = (Ret tt, w') /\
    stages w' !! self = Some s' /\
    _objective s' = fold_left MAdd terms (_objective s) /\
    _constraints s' = _constraints s /\
    _placeholders s' = _placeholders s /\
    _initial s' = _initial s.
Proof.
  revert w s. induction terms as [|term terms IH]; intros w s Hs.
  - exists w, s. repeat split; auto.
  - cbn [for_each fold_left]. unfold bind at 1. unfold add_objective at 1. run.
    destruct (IH (with_stage self (set__objective (MAdd (_objective s) term) s)
                    (with_transcribed (_master s) false w))
                 (set__objective (MAdd (_objective s) term) s))
      as (w' & s' & Hrun & Hs' & Hobj & Hc & Hp & Hi); [lookup_tac|].
    rewrite Hrun. exists w', s'.
    split; [reflexivity|]. split; [exact Hs'|].
    split; [exact Hobj|]. split; [exact Hc|]. split; [exact Hp|exact Hi].
Qed.

Lemma add_objective_accumulates_witness :
  exists w' s',
    for_each [x_demo; MConst 2] (add_objective 0) ode_world = (Ret tt, w') /\
    stages w' !! 0 = Some s' /\
    _objective s' = MAdd (MAdd (_objective (stage_of ode_world 0)) x_demo) (MConst 2).
Proof.
  destruct (add_objective_accumulates (H := demo_external) [x_demo; MConst 2]
              ode_world 0 (stage_of ode_world 0))
    as (w' & s' & Hrun & Hs' & Hobj & _).
  - vm_compute; reflexivity.
  - exists w', s'. repeat split; assumption.
Defined.



(** ** Values and initial guesses *)

Section Reads.
Context `{External}.

Lemma offset_run w self s expr (z : Z) :
  stages w !! self = Some s ->
  offset self expr (inject_Z z) w =
    (Ret (MSym (next_sym w) "offset" (fst (shape expr)) (snd (shape expr))),
     with_stage self
       (set__offsets
          (hd_set (MSym (next_sym w) "offset" (fst (shape expr)) (snd (shape expr)))
             (expr, z) (_offsets s)) s)
       (with_fresh 1 w)).
Proof.
  intros Hs. unfold offset.
  assert (Hc : Qeq_bool (inject_Z (py_int (inject_Z z))) (inject_Z z) = true).
  { apply py_int_check. exists z. reflexivity. }
  rewrite Hc. cbn [negb]. rewrite (py_int_integer _ z) by reflexivity. now run.
Qed.

End Reads.

(** X7: [set_initial] stores the guess before it looks at the tree.  A
    variable whose text contains "opti" is refused before anything is
    stored.  Otherwise, while the tree is not transcribed (or the stage has
    no master) the call returns and the stage's table of guesses reads the
    value at the variable and what it read before at every other key, with
    the transcribed flag and every other object left as they were; and on a
    transcribed tree the outcome of the call is the outcome of the method's
    [set_initial], which is handed a table that already reads the value at
    the variable. *)
Theorem set_initial_stores_first `{External}
    (w : World) (self : addr) (s : Stage) (var : MX) (value : Value) :
  stages w !! self = Some s ->
  (str_in "opti" (MX_str var) = true ->
   set_initial self var value w = (Raise AssertionError, w)) /\
  (str_in "opti" (MX_str var) = false ->
   ((forall m, _master s = Some m ->
       exists ms, stages w !! m = Some ms /\ _master ms = Some m /\
                  _is_transcribed w !! m = Some false) ->
    exists w' s',
      set_initial self var value w = (Ret tt, w') /\
      stages w' !! self = Some s' /\
      hd_get var (_initial s') = Some value /\
      (forall k, k <> var -> hd_get k (_initial s') = hd_get k (_initial s)) /\
      (forall a x, a <> self -> stages w !! a = Some x ->
                   stages w' !! a = Some x) /\
      _is_transcribed w' = _is_transcribed w) /\
   (forall m ms,
      _master s = Some m -> stages w !! m = Some ms -> _master ms = Some m ->
      _is_transcribed w !! m = Some true ->
      exists d,
        fst (set_initial self var value w) =
          method_set_initial (_method s) self (_method ms) d /\
        hd_get var d = Some value /\
        (forall k, k <> var -> hd_get k d = hd_get k (_initial s)))).
Proof.
  intros Hs.
  assert (Hmaster : forall m ms, stages w !! m = Some ms -> _master ms = Some m ->
            exists ms',
              stages (with_stage self
                        (set__initial (hd_set var value (_initial s)) s) w) !! m
                = Some ms' /\
              _master ms' = Some m /\ _method ms' = _method ms).
  { intros m ms Hms Hmm. destruct (decide (m = self)) as [->|Hne].
    - rewrite Hs in Hms. injection Hms as <-.
      eexists. split; [lookup_tac|]. split; [exact Hmm|reflexivity].
    - exists ms. split; [|split; [exact Hmm|reflexivity]].
      wsimpl. now rewrite list_lookup_insert_ne by congruence. }
  split; intros Hstr; unfold set_initial; rewrite Hstr; [reflexivity|].
  split.
  - intros Htree. run. cbn [_master set__initial].
    exists (with_stage self (set__initial (hd_set var value (_initial s)) s) w),
           (set__initial (hd_set var value (_initial s)) s).
    split; [|split; [lookup_tac|split; [apply hd_get_set_eq|split;
              [intros k Hk; now apply hd_get_set_ne|split;
                [intros a x Ha Hx; wsimpl;
                 now rewrite list_lookup_insert_ne by congruence
                |reflexivity]]]]].
    destruct (_master s) as [m|] eqn:Hm; [|reflexivity].
    destruct (Htree m eq_refl) as (ms & Hms & Hmm & Hb).
    destruct (Hmaster m ms Hms Hmm) as (ms' & Hms' & Hmm' & _).
    rewrite (is_transcribed_run _ m ms' false Hms' Hmm' Hb). reflexivity.
  - intros m ms Hm Hms Hmm Hb. run. cbn [_master _method _initial set__initial].
    rewrite Hm.
    destruct (Hmaster m ms Hms Hmm) as (ms' & Hms' & Hmm' & Hmeth).
    rewrite (is_transcribed_run _ m ms' true Hms' Hmm' Hb).
    rewrite (get_stage_run _ _ _ Hms'). unfold lift. cbn [fst]. rewrite Hmeth.
    eexists. split; [reflexivity|].
    split; [apply hd_get_set_eq|intros k Hk; now apply hd_get_set_ne].
Qed.

Lemma set_initial_stores_first_witness :
  set_initial 0 (MSym 9 "opti_x" 1 1) (VNum 1) transcribed_world =
    (Raise AssertionError, transcribed_world) /\
  (exists w' s',
     set_initial 0 x_demo (VNum 1) ode_world = (Ret tt, w') /\
     stages w' !! 0 = Some s' /\
     hd_get x_demo (_initial s') = Some (VNum 1)) /\
  (exists d,
     fst (set_initial 0 x_demo (VNum 1) transcribed_world) =
       @method_set_initial demo_external
         (_method (stage_of transcribed_world 0)) 0
         (_method (stage_of transcribed_world 0)) d /\
     hd_get x_demo d = Some (VNum 1)).
Proof.
  assert (Ht : stages transcribed_world !! 0 = Some (stage_of transcribed_world 0))
    by (vm_compute; reflexivity).
  assert (Hs : stages ode_world !! 0 = Some (stage_of ode_world 0))
    by (vm_compute; reflexivity).
  split; [|split].
  - refine (proj1 (set_initial_stores_first (H := demo_external)
                     transcribed_world 0 (stage_of transcribed_world 0)
                     (MSym 9 "opti_x" 1 1) (VNum 1) Ht) _).
    vm_compute; reflexivity.
  - destruct (proj1 (proj2 (set_initial_stores_first (H := demo_external)
                              ode_world 0 (stage_of ode_world 0)
                              x_demo (VNum 1) Hs)
                       ltac:(vm_compute; reflexivity)))
      as (w' & s' & Hrun & Hs' & Hget & _).
    + intros m Hm.
      assert (E : _master (stage_of ode_world 0) = Some 0)
        by (vm_compute; reflexivity).
      rewrite E in Hm. injection Hm as <-.
      exists (stage_of ode_world 0). split; [exact Hs|].
      split; [exact E|]. vm_compute; reflexivity.
    + exists w', s'. repeat split; assumption.
  - destruct (proj2 (proj2 (set_initial_stores_first (H := demo_external)
                              transcribed_world 0
                              (stage_of transcribed_world 0)
                              x_demo (VNum 1) Ht)
                       ltac:(vm_compute; reflexivity))
                0 (stage_of transcribed_world 0))
      as (d & Hrun & Hget & _).
    + vm_compute; reflexivity.
    + exact Ht.
    + vm_compute; reflexivity.
    + vm_compute; reflexivity.
    + exists d. split; assumption.
Defined.

(** X8: While the tree is not transcribed (or the stage has no master),
    [set_value] stores the value in the stage: the parameter reads back as
    the value, the other parameters are as before, and the transcribed flag
    is left as it was. *)
Theorem set_value_untranscribed_stores `{External}
    (w : World) (self : addr) (s : Stage) (p : MX) (v : Value) :
  stages w !! self = Some s ->
  (forall m, _master s = Some m ->
     exists ms, stages w !! m = Some ms /\ _master ms = Some m /\
                _is_transcribed w !! m = Some false) ->
  exists w' s',
    set_value self p v w = (Ret tt, w') /\
    stages w' !! self = Some s' /\
    hd_get p (_param_vals s') = Some v /\
    (forall k, k <> p -> hd_get k (_param_vals s') = hd_get k (_param_vals s)) /\
    _is_transcribed w' = _is_transcribed w.
Proof.
  intros Hs Htree.
  exists (with_stage self (set__param_vals (hd_set p v (_param_vals s)) s) w),
         (set__param_vals (hd_set p v (_param_vals s)) s).
  split; [|split; [lookup_tac|split; [apply hd_get_set_eq|split;
            [intros k Hk; now apply hd_get_set_ne|reflexivity]]]].
  unfold set_value. run.
  destruct (_master s) as [m|] eqn:Hm.
  - destruct (Htree m eq_refl) as (ms & Hms & Hmm & Hb).
    rewrite (is_transcribed_run _ m ms false Hms Hmm Hb). now run.
  - now run.
Qed.

Lemma set_value_untranscribed_stores_witness :
  exists w' s',
    set_value 0 x_demo (VNum 2) ode_world = (Ret tt, w') /\
    stages w' !! 0 = Some s' /\
    hd_get x_demo (_param_vals s') = Some (VNum 2).
Proof.
  destruct (set_value_untranscribed_stores (H := demo_external) ode_world 0
              (stage_of ode_world 0) x_demo (VNum 2))
    as (w' & s' & Hrun & Hs' & Hget & _).
  - vm_compute; reflexivity.
  - intros m Hm.
    assert (E : _master (stage_of ode_world 0) = Some 0)
      by (vm_compute; reflexivity).
    rewrite E in Hm. injection Hm as <-.
    exists (stage_of ode_world 0). split; [vm_compute; reflexivity|].
    split; [exact E|]. vm_compute; reflexivity.
  - exists w', s'. repeat split; assumption.
Defined.

(** ** Boundary placeholders, chained offsets, algebraic equations *)

(** X10: [at_t0(expr)] and [at_tf(expr)] mint a new symbol of the shape of
    [expr], record [expr] and the resolution kind ("at_t0", "at_tf") under
    it, and leave every other placeholder as it was.  Unlike the declaring
    methods they do not touch the transcribed flag: they only mark the
    master's cache of transcribed placeholders dirty. *)
Theorem at_t0_at_tf_register `{External}
    (w : World) (self : addr) (s : Stage) (expr : MX) (tf : bool) :
  stages w !! self = Some s ->
  master_ok s w ->
  exists r w' s',
    (if tf then at_tf self expr else at_t0 self expr) w = (Ret r, w') /\
    r = MSym (next_sym w) (if tf then "r_at_tf" else "r_at_t0")
          (fst (shape expr)) (snd (shape expr)) /\
    next_sym w' = S (next_sym w) /\
    stages w' !! self = Some s' /\
    hd_get r (_placeholders s') = Some expr /\
    hd_get r (_placeholder_callbacks s') =
      Some (if tf then "at_tf" else "at_t0") /\
    (forall k, k <> r ->
       hd_get k (_placeholders s') = hd_get k (_placeholders s) /\
       hd_get k (_placeholder_callbacks s') =
         hd_get k (_placeholder_callbacks s)) /\
    _is_transcribed w' = _is_transcribed w /\
    (forall m, _master s = Some m ->
       _transcribed_placeholders w' !! m = Some true).
Proof.
  intros Hs Hm.
  assert (Hgen : forall cb,
    exists r w' s',
      _create_placeholder_expr self expr cb w = (Ret r, w') /\
      r = MSym (next_sym w) ("r_" +:+ cb) (fst (shape expr)) (snd (shape expr)) /\
      next_sym w' = S (next_sym w) /\
      stages w' !! self = Some s' /\
      hd_get r (_placeholders s') = Some expr /\
      hd_get r (_placeholder_callbacks s') = Some cb /\
      (forall k, k <> r ->
         hd_get k (_placeholders s') = hd_get k (_placeholders s) /\
         hd_get k (_placeholder_callbacks s') =
           hd_get k (_placeholder_callbacks s)) /\
      _is_transcribed w' = _is_transcribed w /\
      (forall m, _master s = Some m ->
         _transcribed_placeholders w' !! m = Some true)).
  { intros cb. rewrite (_create_placeholder_expr_run _ _ _ _ _ Hs Hm).
    eexists _, _, _. split; [reflexivity|]. split; [reflexivity|].
    split; [reflexivity|]. split; [lookup_tac|].
    cbn [_placeholders _placeholder_callbacks set__placeholders
         set__placeholder_callbacks].
    split; [apply hd_get_set_eq|]. split; [apply hd_get_set_eq|].
    split; [intros k Hk; split; now apply hd_get_set_ne|].
    split; [reflexivity|].
    intros m ->. wsimpl. apply opt_insert_lookup. }
  destruct tf; [apply (Hgen "at_tf")|apply (Hgen "at_t0")].
Qed.

Lemma at_t0_at_tf_register_witness :
  exists r w' s',
    at_tf 0 x_demo transcribed_world = (Ret r, w') /\
    r = MSym (next_sym transcribed_world) "r_at_tf" 1 1 /\
    stages w' !! 0 = Some s' /\
    hd_get r (_placeholders s') = Some x_demo /\
    _is_transcribed w' = _is_transcribed transcribed_world.
Proof.
  destruct (at_t0_at_tf_register (H := demo_external) transcribed_world 0
              (stage_of transcribed_world 0) x_demo true)
    as (r & w' & s' & Hrun & Hr & _ & Hs' & Hget & _ & _ & Hflag & _).
  - vm_compute; reflexivity.
  - intros m Hm.
    assert (E : _master (stage_of transcribed_world 0) = Some 0)
      by (vm_compute; reflexivity).
    rewrite E in Hm. injection Hm as <-. exists false. vm_compute; reflexivity.
  - exists r, w', s'. repeat split; assumption.
Defined.

(** X11: [prev(next(expr))] is not folded back to [expr]: the stage records two
    proxies, the first for [expr] shifted by 1, the second - a different
    symbol, of the same shape - for the first proxy shifted by -1.  Nothing
    else is recorded and the transcribed flag is not touched. *)
Theorem prev_next_chain `{External}
    (w : World) (self : addr) (s : Stage) (expr : MX) :
  stages w !! self = Some s ->
  exists r1 r2 w' s',
    (r1 <- next self expr ;; r2 <- prev self r1 ;; ret (r1, r2)) w =
      (Ret (r1, r2), w') /\
    r1 <> r2 /\
    shape r1 = shape expr /\ shape r2 = shape expr /\
    stages w' !! self = Some s' /\
    hd_get r1 (_offsets s') = Some (expr, 1%Z) /\
    hd_get r2 (_offsets s') = Some (r1, (-1)%Z) /\
    (forall k, k <> r1 -> k <> r2 -> hd_get k (_offsets s') = hd_get k (_offsets s)) /\
    _placeholders s' = _placeholders s /\
    _is_transcribed w' = _is_transcribed w.
Proof.
  intros Hs. unfold next, prev.
  change 1%Q with (inject_Z 1). change (-1)%Q with (inject_Z (-1)).
  unfold bind at 1. rewrite (offset_run _ _ _ _ _ Hs).
  unfold bind at 1. erewrite offset_run by lookup_tac.
  unfold ret. wsimpl. cbn [_offsets set__offsets shape fst snd].
  assert (Hne : MSym (next_sym w) "offset" (fst (shape expr)) (snd (shape expr)) <>
                MSym (1 + next_sym w) "offset" (fst (shape expr)) (snd (shape expr))).
  { intros Heq. injection Heq. lia. }
  eexists _, _, _, _. split; [reflexivity|]. split; [exact Hne|].
  split; [now destruct (shape expr)|]. split; [now destruct (shape expr)|].
  split; [lookup_tac|].
  cbn [_offsets set__offsets _placeholders].
  split; [rewrite hd_get_set_ne by exact Hne; apply hd_get_set_eq|].
  split; [apply hd_get_set_eq|].
  split; [|split; reflexivity].
  intros k Hk1 Hk2. now rewrite !hd_get_set_ne.
Qed.

Lemma prev_next_chain_witness :
  exists r1 r2 w',
    (r1 <- next 0 x_demo ;; r2 <- prev 0 r1 ;; ret (r1, r2)) ode_world =
      (Ret (r1, r2), w') /\
    r1 <> r2.
Proof.
  destruct (prev_next_chain (H := demo_external) ode_world 0
              (stage_of ode_world 0) x_demo)
    as (r1 & r2 & w' & s' & Hrun & Hne & _).
  - vm_compute; reflexivity.
  - exists r1, r2, w'. split; assumption.
Defined.

(** X12: Algebraic equations accumulate in call order: after
    [add_alg(c1); ...; add_alg(cn)] the list is the old one followed by
    [c1 ... cn]; the constraints registry and the dynamics are untouched. *)
Theorem add_alg_appends `{External}
    (cs : list MX) (w : World) (self : addr) (s : Stage) :
  stages w !! self = Some s ->
  exists w' s',
    for_each cs (add_alg self) w = (Ret tt, w') /\
    stages w' !! self = Some s' /\
    _alg s' = _alg s ++ cs /\
    _constraints s' = _constraints s /\
    _state_der s' = _state_der s /\
    algebraics s' = algebraics s.
Proof.
  revert w s. induction cs as [|c cs IH]; intros w s Hs.
  - exists w, s. rewrite app_nil_r. repeat split; auto.
  - cbn [for_each]. unfold bind at 1. unfold add_alg at 1. run.
    destruct (IH (with_stage self (set__alg (_alg s ++ [c]) s)
                    (with_transcribed (_master s) false w))
                 (set__alg (_alg s ++ [c]) s))
      as (w' & s' & Hrun & Hs' & Halg & Hc & Hd & Hz); [lookup_tac|].
    rewrite Hrun. exists w', s'.
    split; [reflexivity|]. split; [exact Hs'|].
    split; [rewrite Halg; cbn [_alg set__alg]; now rewrite <- app_assoc|].
    split; [exact Hc|]. split; [exact Hd|exact Hz].
Qed.

Lemma add_alg_appends_witness :
  exists w' s',
    for_each [x_demo; MConst 2] (add_alg 0) ode_world = (Ret tt, w') /\
    stages w' !! 0 = Some s' /\
    _alg s' = _alg (stage_of ode_world 0) ++ [x_demo; MConst 2].
Proof.
  destruct (add_alg_appends (H := demo_external) [x_demo; MConst 2]
              ode_world 0 (stage_of ode_world 0))
    as (w' & s' & Hrun & Hs' & Halg & _).
  - vm_compute; reflexivity.
  - exists w', s'. repeat split; assumption.
Defined.

(** X13: [clear_constraints] forgets the constraints of every grid and turns the
    transcribed flag off, but keeps everything else that shapes the
    problem: the objective, the algebraic equations, the dynamics, the
    initial guesses and the placeholders - also those that only the
    forgotten constraints referred to. *)
Theorem clear_constraints_only_constraints `{External}
    (w : World) (self : addr) (s : Stage) :
  stages w !! self = Some s ->
  exists w' s',
    clear_constraints self w = (Ret tt, w') /\
    stages w' !! self = Some s' /\
    (forall g, dd_get g (_constraints s') = []) /\
    _objective s' = _objective s /\
    _alg s' = _alg s /\
    _state_der s' = _state_der s /\
    _state_next s' = _state_next s /\
    _initial s' = _initial s /\
    _placeholders s' = _placeholders s /\
    (forall m, _master s = Some m -> flag_off m w').
Proof.
  intros Hs. unfold clear_constraints. run.
  eexists _, _. split; [reflexivity|]. split; [lookup_tac|].
  repeat (split; [reflexivity|]).
  intros m ->. unfold flag_off. wsimpl. apply opt_insert_lookup.
Qed.

Lemma clear_constraints_only_constraints_witness :
  exists w' s',
    clear_constraints 0 transcribed_world = (Ret tt, w') /\
    stages w' !! 0 = Some s' /\
    (forall g, dd_get g (_constraints s') = []) /\
    flag_off 0 w'.
Proof.
  destruct (clear_constraints_only_constraints (H := demo_external)
              transcribed_world 0 (stage_of transcribed_world 0))
    as (w' & s' & Hrun & Hs' & Hc & _ & _ & _ & _ & _ & _ & Hflag).
  - vm_compute; reflexivity.
  - exists w', s'. split; [exact Hrun|]. split; [exact Hs'|].
    split; [exact Hc|]. apply Hflag. vm_compute; reflexivity.
Defined.

(** ** Placeholder resolution and the dynamics function *)

Section PlaceholderLoop.
Context `{External}.
Variable self : addr.
Variable callbacks : HashDict string.

Lemma _transcribe_placeholders_loop_keeps method items :
  forall placeholders k e,
    hd_get k placeholders = Some e ->
    hd_get k (snd (_transcribe_placeholders_loop self method callbacks items
                     placeholders)) = Some e.
Proof.
  induction items as [|[k0 v0] items IH]; intros P k e Hk; cbn [_transcribe_placeholders_loop].
  - exact Hk.
  - destruct (hd_get k0 P) eqn:H0; [now apply IH|].
    destruct (hd_get k0 callbacks) as [name|]; [|exact Hk].
    destruct (method ("fill_placeholders_" +:+ name)) as [cb|]; [|exact Hk].
    destruct (cb self v0) as [e0|x]; [|exact Hk].
    apply IH. rewrite hd_get_set_ne; [exact Hk|]. intros ->. congruence.
Qed.

Lemma _transcribe_placeholders_loop_complete method items :
  forall placeholders,
    fst (_transcribe_placeholders_loop self method callbacks items placeholders)
      = Ret tt ->
    forall k, In k (hd_keys items) ->
      is_Some (hd_get k (snd (_transcribe_placeholders_loop self method
                                callbacks items placeholders))).
Proof.
  induction items as [|[k0 v0] items IH]; intros P Hret k Hin;
    cbn [_transcribe_placeholders_loop] in *.
  - destruct Hin.
  - destruct (hd_get k0 P) as [e0|] eqn:H0.
    + destruct Hin as [<-|Hin]; [|now apply IH].
      exists e0. now apply _transcribe_placeholders_loop_keeps.
    + destruct (hd_get k0 callbacks) as [name|]; [|discriminate Hret].
      destruct (method ("fill_placeholders_" +:+ name)) as [cb|];
        [|discriminate Hret].
      destruct (cb self v0) as [e0|x]; [|discriminate Hret].
      destruct Hin as [<-|Hin]; [|now apply IH].
      exists e0. apply _transcribe_placeholders_loop_keeps.
      apply hd_get_set_eq.
Qed.

Lemma _transcribe_placeholders_loop_origin method items :
  forall placeholders k,
    is_Some (hd_get k (snd (_transcribe_placeholders_loop self method callbacks
                              items placeholders))) ->
    is_Some (hd_get k placeholders) \/ In k (hd_keys items).
Proof.
  induction items as [|[k0 v0] items IH]; intros P k Hk;
    cbn [_transcribe_placeholders_loop] in *.
  - now left.
  - destruct (hd_get k0 P) as [e0|] eqn:H0.
    + destruct (IH _ _ Hk) as [Hp|Hin]; [now left|right; now right].
    + destruct (hd_get k0 callbacks) as [name|]; [|now left].
      destruct (method ("fill_placeholders_" +:+ name)) as [cb|]; [|now left].
      destruct (cb self v0) as [e0|x]; [|now left].
      destruct (IH _ _ Hk) as [Hp|Hin]; [|right; now right].
      destruct (decide (k = k0)) as [->|Hne]; [right; now left|].
      left. now rewrite hd_get_set_ne in Hp.
Qed.

Lemma _transcribe_placeholders_loop_filled method items :
  forall placeholders,
    (forall k, In k (hd_keys items) -> is_Some (hd_get k placeholders)) ->
    _transcribe_placeholders_loop self method callbacks items placeholders =
      (Ret tt, placeholders).
Proof.
  induction items as [|[k0 v0] items IH]; intros P Hall;
    cbn [_transcribe_placeholders_loop].
  - reflexivity.
  - destruct (Hall k0 (or_introl eq_refl)) as [e0 ->].
    apply IH. intros k Hin. apply Hall. now right.
Qed.

(** The entry made for a key that was missing: the callback named in the
    registry, applied to the stage and the placeholder's expression. *)
Lemma _transcribe_placeholders_loop_value method items :
  forall placeholders,
    NoDup (hd_keys items) ->
    fst (_transcribe_placeholders_loop self method callbacks items placeholders)
      = Ret tt ->
    forall k v, In (k, v) items -> hd_get k placeholders = None ->
      exists name cb e,
        hd_get k callbacks = Some name /\
        method ("fill_placeholders_" +:+ name) = Some cb /\
        cb self v = Ret e /\
        hd_get k (snd (_transcribe_placeholders_loop self method callbacks
                         items placeholders)) = Some e.
Proof.
  induction items as [|[k0 v0] items IH]; intros P Hnd Hret k v Hin Hnone.
  - destruct Hin.
  - change (NoDup (k0 :: hd_keys items)) in Hnd.
    cbn [_transcribe_placeholders_loop] in Hret |- *.
    apply NoDup_cons in Hnd. destruct Hnd as [Hnotin Hnd].
    destruct Hin as [Heq|Hin].
    + injection Heq as -> ->. rewrite Hnone in *.
      destruct (hd_get k callbacks) as [name|]; [|discriminate Hret].
      destruct (method ("fill_placeholders_" +:+ name)) as [cb|] eqn:Hcb;
        [|discriminate Hret].
      destruct (cb self v) as [e0|x] eqn:He; [|discriminate Hret].
      exists name, cb, e0. repeat split; try assumption.
      apply _transcribe_placeholders_loop_keeps. apply hd_get_set_eq.
    + assert (Hne : k <> k0).
      { intros ->. apply Hnotin. apply list_elem_of_In.
        change k0 with (fst (k0, v)). unfold hd_keys. apply in_map. exact Hin. }
      destruct (hd_get k0 P) as [e0|] eqn:H0; [now apply (IH P Hnd Hret k v)|].
      destruct (hd_get k0 callbacks) as [name|]; [|discriminate Hret].
      destruct (method ("fill_placeholders_" +:+ name)) as [cb|];
        [|discriminate Hret].
      destruct (cb self v0) as [e0|x]; [|discriminate Hret].
      apply (IH _ Hnd Hret k v Hin). now rewrite hd_get_set_ne.
Qed.

End PlaceholderLoop.

(** X14: [_transcribe_placeholders] only fills what is missing.  Whatever the
    method does, an entry that the shared dictionary already holds is never
    recomputed or overwritten, also when the call fails half-way, and every
    entry of the result was there before or belongs to a placeholder of this
    stage.  When the call succeeds, every placeholder of the stage has an
    entry, and a second call - with any method, even one without a single
    callback - succeeds and changes nothing.  The heap is never touched. *)
Theorem _transcribe_placeholders_fills_missing `{External}
    (w : World) (self : addr) (s : Stage) (method : MethodObject)
    (placeholders : HashDict MX) :
  stages w !! self = Some s ->
  exists o filled,
    _transcribe_placeholders self method placeholders w =
      (Ret (o, filled), w) /\
    (forall k e, hd_get k placeholders = Some e -> hd_get k filled = Some e) /\
    (forall k, is_Some (hd_get k filled) ->
       is_Some (hd_get k placeholders) \/ In k (hd_keys (_placeholders s))) /\
    (o = Ret tt ->
     (forall k, In k (hd_keys (_placeholders s)) -> is_Some (hd_get k filled)) /\
     (forall method',
        _transcribe_placeholders self method' filled w =
          (Ret (Ret tt, filled), w))).
Proof.
  intros Hs. unfold _transcribe_placeholders. run.
  destruct (_transcribe_placeholders_loop self method (_placeholder_callbacks s)
              (_placeholders s) placeholders) as [o filled] eqn:Hloop.
  exists o, filled. split; [reflexivity|].
  assert (Hfst : fst (_transcribe_placeholders_loop self method
                        (_placeholder_callbacks s) (_placeholders s)
                        placeholders) = o) by now rewrite Hloop.
  assert (Hsnd : snd (_transcribe_placeholders_loop self method
                        (_placeholder_callbacks s) (_placeholders s)
                        placeholders) = filled) by now rewrite Hloop.
  split; [|split].
  - intros k e Hk. rewrite <- Hsnd.
    now apply _transcribe_placeholders_loop_keeps.
  - intros k Hk. rewrite <- Hsnd in Hk.
    now apply _transcribe_placeholders_loop_origin in Hk.
  - intros ->.
    assert (Hall : forall k, In k (hd_keys (_placeholders s)) ->
                             is_Some (hd_get k filled)).
    { intros k Hin. rewrite <- Hsnd.
      now apply _transcribe_placeholders_loop_complete. }
    split; [exact Hall|]. intros method'. run.
    now rewrite _transcribe_placeholders_loop_filled.
Qed.

Lemma _transcribe_placeholders_fills_missing_witness :
  exists o filled,
    _transcribe_placeholders 0 (fun _ => Some (fun _ e => Ret (MNeg e))) []
      ode_world = (Ret (o, filled), ode_world) /\
    (forall k, is_Some (hd_get k filled) ->
       is_Some (hd_get k ([] : HashDict MX)) \/
       In k (hd_keys (_placeholders (stage_of ode_world 0)))).
Proof.
  destruct (_transcribe_placeholders_fills_missing (H := demo_external)
              ode_world 0 (stage_of ode_world 0)
              (fun _ => Some (fun _ e => Ret (MNeg e))) [])
    as (o & filled & Hrun & _ & Horigin & _).
  - vm_compute; reflexivity.
  - exists o, filled. split; assumption.
Defined.

(** X15: What a successful [_transcribe_placeholders] writes for a placeholder
    that had no entry: the result of the method's callback
    [fill_placeholders_<kind>], where <kind> is the resolution kind the
    registry holds for the placeholder, applied to the stage and to the
    placeholder's expression. *)
Theorem _transcribe_placeholders_calls_kind `{External}
    (w : World) (self : addr) (s : Stage) (method : MethodObject)
    (placeholders filled : HashDict MX) (k v : MX) :
  stages w !! self = Some s ->
  NoDup (hd_keys (_placeholders s)) ->
  _transcribe_placeholders self method placeholders w =
    (Ret (Ret tt, filled), w) ->
  hd_get k (_placeholders s) = Some v ->
  hd_get k placeholders = None ->
  exists name cb e,
    hd_get k (_placeholder_callbacks s) = Some name /\
    method ("fill_placeholders_" +:+ name) = Some cb /\
    cb self v = Ret e /\
    hd_get k filled = Some e.
Proof.
  intros Hs Hnd Hrun Hk Hnone. unfold _transcribe_placeholders in Hrun.
  revert Hrun. run. intros Hrun. injection Hrun as Hrun.
  assert (Hin : In (k, v) (_placeholders s)).
  { clear -Hk. induction (_placeholders s) as [|[k0 v0] d IH]; simpl in *.
    - discriminate Hk.
    - destruct (is_equal k k0) eqn:He.
      + left. unfold is_equal in He. apply bool_decide_eq_true_1 in He.
        injection Hk as ->. now subst k0.
      + right. now apply IH. }
  destruct (_transcribe_placeholders_loop_value self (_placeholder_callbacks s)
              method (_placeholders s) placeholders Hnd
              ltac:(now rewrite Hrun) k v Hin Hnone)
    as (name & cb & e & Hn & Hcb & He & Hget).
  exists name, cb, e. rewrite Hrun in Hget. repeat split; assumption.
Qed.

Lemma _transcribe_placeholders_calls_kind_witness :
  exists name cb e,
    hd_get (MSym 1 "r_T" 1 1) (_placeholder_callbacks (stage_of ode_world 0)) =
      Some name /\
    (fun _ : string => Some (fun (_ : addr) (e : MX) => Ret (MNeg e)))
      ("fill_placeholders_" +:+ name) = Some cb /\
    cb 0 (MConst 0) = Ret e /\
    hd_get (MSym 1 "r_T" 1 1)
      [(MSym 1 "r_T" 1 1, MNeg (MConst 0)); (MSym 2 "r_t0" 1 1, MNeg (MConst 0))] =
      Some e.
Proof.
  apply (_transcribe_placeholders_calls_kind (H := demo_external) ode_world 0
           (stage_of ode_world 0)
           (fun _ => Some (fun _ e => Ret (MNeg e))) []
           [(MSym 1 "r_T" 1 1, MNeg (MConst 0)); (MSym 2 "r_t0" 1 1, MNeg (MConst 0))]
           (MSym 1 "r_T" 1 1) (MConst 0)).
  - vm_compute; reflexivity.
  - assert (E : hd_keys (_placeholders (stage_of ode_world 0)) =
                [MSym 1 "r_T" 1 1; MSym 2 "r_t0" 1 1])
      by (vm_compute; reflexivity).
    rewrite E. apply NoDup_cons. split.
    + intros Hin. apply list_elem_of_In in Hin.
      destruct Hin as [Heq|[]]. discriminate Heq.
    + apply NoDup_cons. split; [|apply NoDup_nil_2].
      intros Hin. apply list_elem_of_In in Hin. destruct Hin.
  - vm_compute; reflexivity.
  - vm_compute; reflexivity.
  - reflexivity.
Defined.

(** ** The dynamics function *)

Section Dynamics.
Context `{External}.

Lemma getitems_total {V} (d : HashDict V) (keys : list MX) (w : World) :
  (forall k, In k keys -> is_Some (hd_get k d)) ->
  exists vs,
    getitems d keys w = (Ret vs, w) /\
    Forall2 (fun k v => hd_get k d = Some v) keys vs.
Proof.
  induction keys as [|k keys IH]; intros Hall; cbn [getitems].
  - exists []. split; [reflexivity|constructor].
  - destruct (Hall k (or_introl eq_refl)) as [v Hv].
    destruct IH as (vs & Hrun & Hvs); [intros k' Hin; apply Hall; now right|].
    exists (v :: vs). split; [|now constructor].
    unfold bind, getitem. rewrite Hv. unfold ret. now rewrite Hrun.
Qed.

Lemma getitems_missing {V} (d : HashDict V) (keys : list MX) (w : World) :
  (exists k, In k keys /\ hd_get k d = None) ->
  getitems d keys w = (Raise KeyError, w).
Proof.
  induction keys as [|k keys IH]; intros (k' & Hin & Hnone); cbn [getitems].
  - destruct Hin.
  - unfold bind, getitem. destruct (hd_get k d) as [v|] eqn:Hk; [|reflexivity].
    unfold ret. rewrite IH; [reflexivity|].
    exists k'. split; [|exact Hnone]. destruct Hin as [->|Hin]; [congruence|exact Hin].
Qed.

Lemma getitems_unique {V} (d : HashDict V) (keys : list MX) (vs vs' : list V) :
  Forall2 (fun k v => hd_get k d = Some v) keys vs ->
  Forall2 (fun k v => hd_get k d = Some v) keys vs' ->
  vs = vs'.
Proof.
  intros Hvs. revert vs'. induction Hvs as [|k v keys vs Hk Hvs IH]; intros vs' Hvs'.
  - now apply Forall2_nil_inv_l in Hvs'.
  - apply Forall2_cons_inv_l in Hvs'. destruct Hvs' as (v' & vs'' & Hk' & Hvs'' & ->).
    f_equal; [congruence|now apply IH].
Qed.

Lemma getitems_cases {V} (d : HashDict V) (keys : list MX) :
  (exists k, In k keys /\ hd_get k d = None) \/
  (forall k, In k keys -> is_Some (hd_get k d)).
Proof.
  induction keys as [|k keys [(k' & Hin & Hnone)|Hall]].
  - right. intros k [].
  - left. exists k'. split; [now right|exact Hnone].
  - destruct (hd_get k d) as [v|] eqn:Hk.
    + right. intros k' [<-|Hin]; [now exists v|now apply Hall].
    + left. exists k. split; [now left|exact Hk].
Qed.

Lemma integral_inf_run w self s expr :
  stages w !! self = Some s ->
  master_ok s w ->
  hd_nonempty (_state_next s) = false ->
  integral self expr "inf" w =
    (Ret (MSym (S (next_sym w)) "r_at_tf" 1 1),
     with_dirty (_master s)
       (with_stage self
          (set__placeholder_callbacks
             (hd_set (MSym (S (next_sym w)) "r_at_tf" 1 1) "at_tf"
                (_placeholder_callbacks s))
             (set__placeholders
                (hd_set (MSym (S (next_sym w)) "r_at_tf" 1 1)
                   (MSym (next_sym w) "x" 1 1) (_placeholders s))
                (set__state_der
                   (hd_set (MSym (next_sym w) "x" 1 1) expr (_state_der s))
                   (set_qstates (qstates s ++ [MSym (next_sym w) "x" 1 1]) s))))
          (with_fresh 2 (with_transcribed (_master s) false w)))).
Proof.
  intros Hs Hm Hnext. unfold integral.
  change (String.eqb "inf" "inf") with true. unfold bind. cbv beta iota.
  rewrite (state_run _ _ _ _ _ _ Hs). cbv beta iota.
  erewrite set_der_run by lookup_tac.
  cbn [_state_next set_qstates]. rewrite Hnext.
  unfold at_tf. erewrite _create_placeholder_expr_run;
    [|lookup_tac|intros m Hmm; wsimpl; apply Hm; exact Hmm].
  unfold placeholder_sym. wsimpl. cbn [shape fst snd _master _placeholders
    _placeholder_callbacks set__state_der set_qstates].
  unfold with_dirty, with_stage, with_fresh, with_transcribed. wsimpl.
  rewrite !list_insert_insert_eq, opt_insert_twice. reflexivity.
Qed.

Lemma getitems_run {V} (d : HashDict V) (keys : list MX) (vs : list V) (w : World) :
  Forall2 (fun k v => hd_get k d = Some v) keys vs ->
  getitems d keys w = (Ret vs, w).
Proof.
  induction 1 as [|k v keys vs Hk Hvs IH]; cbn [getitems]; [reflexivity|].
  unfold bind, getitem. rewrite Hk. unfold ret. now rewrite IH.
Qed.

Lemma _ode_run w self s (ode quad : list MX) :
  stages w !! self = Some s ->
  Forall2 (fun k e => hd_get k (_state_der s) = Some e) (states s) ode ->
  Forall2 (fun k e => hd_get k (_state_der s) = Some e) (qstates s) quad ->
  _ode self w =
    (Ret (mkFunction "ode"
            [Stage_x s; Stage_u s; Stage_z s; vcat [Stage_p s; Stage_v s]; _t s]
            [vvcat ode; vvcat (_alg s); vvcat quad]
            ["x"; "u"; "z"; "p"; "t"] ["ode"; "alg"; "quad"]), w).
Proof.
  intros Hs Hode Hquad. unfold _ode.
  unfold bind at 1. rewrite (get_stage_run _ _ _ Hs). cbv beta iota.
  unfold bind at 1. rewrite (getitems_run _ _ _ _ Hode). cbv beta iota.
  unfold bind at 1. rewrite (getitems_run _ _ _ _ Hquad). reflexivity.
Qed.

End Dynamics.

(** X16: [_ode] builds the dynamics function exactly when every state and every
    quadrature state has a derivative: its outputs are then the stacked
    derivatives of the states in declaration order, the stacked algebraic
    equations, and the stacked derivatives of the quadrature states; its
    first input is the stacked states.  When some state or quadrature state
    has no derivative, the call raises KeyError.  The heap is not touched
    in either case. *)
Theorem _ode_needs_all_derivatives `{External}
    (w : World) (self : addr) (s : Stage) :
  stages w !! self = Some s ->
  ((forall k, In k (states s ++ qstates s) -> is_Some (hd_get k (_state_der s))) ->
   exists ode quad f,
     _ode self w = (Ret f, w) /\
     Forall2 (fun k e => hd_get k (_state_der s) = Some e) (states s) ode /\
     Forall2 (fun k e => hd_get k (_state_der s) = Some e) (qstates s) quad /\
     fn_out f = [vvcat ode; vvcat (_alg s); vvcat quad] /\
     fn_in f = [Stage_x s; Stage_u s; Stage_z s; vcat [Stage_p s; Stage_v s]; _t s]) /\
  ((exists k, In k (states s ++ qstates s) /\ hd_get k (_state_der s) = None) ->
   _ode self w = (Raise KeyError, w)).
Proof.
  intros Hs. split.
  - intros Hall.
    destruct (getitems_total (_state_der s) (states s) w) as (ode & Hode & Hf1);
      [intros k Hin; apply Hall, in_or_app; now left|].
    destruct (getitems_total (_state_der s) (qstates s) w) as (quad & Hquad & Hf2);
      [intros k Hin; apply Hall, in_or_app; now right|].
    exists ode, quad,
      (mkFunction "ode"
         [Stage_x s; Stage_u s; Stage_z s; vcat [Stage_p s; Stage_v s]; _t s]
         [vvcat ode; vvcat (_alg s); vvcat quad]
         ["x"; "u"; "z"; "p"; "t"] ["ode"; "alg"; "quad"]).
    split; [|split; [exact Hf1|split; [exact Hf2|split; reflexivity]]].
    now apply _ode_run.
  - intros (k & Hin & Hnone).
    unfold _ode. unfold bind at 1. rewrite (get_stage_run _ _ _ Hs). cbv beta iota.
    destruct (getitems_cases (_state_der s) (states s)) as [Hmiss|Hall].
    + unfold bind at 1. rewrite getitems_missing by exact Hmiss. reflexivity.
    + destruct (getitems_total (_state_der s) (states s) w Hall) as (ode & Hode & _).
      unfold bind at 1. rewrite Hode. cbv beta iota.
      unfold bind at 1. rewrite getitems_missing; [reflexivity|].
      exists k. split; [|exact Hnone].
      apply in_app_or in Hin. destruct Hin as [Hin|Hin]; [|exact Hin].
      destruct (Hall k Hin) as [v Hv]. congruence.
Qed.

Lemma _ode_needs_all_derivatives_witness :
  (exists ode quad f,
     _ode 0 ode_world = (Ret f, ode_world) /\
     Forall2 (fun k e => hd_get k (_state_der (stage_of ode_world 0)) = Some e)
       (states (stage_of ode_world 0)) ode /\
     Forall2 (fun k e => hd_get k (_state_der (stage_of ode_world 0)) = Some e)
       (qstates (stage_of ode_world 0)) quad /\
     fn_out f = [vvcat ode; vvcat (_alg (stage_of ode_world 0)); vvcat quad]) /\
  _ode 0 (snd (state 0 1 1 false ocp_world)) =
    (Raise KeyError, snd (state 0 1 1 false ocp_world)).
Proof.
  split.
  - destruct (proj1 (_ode_needs_all_derivatives (H := demo_external) ode_world 0
                       (stage_of ode_world 0) ltac:(vm_compute; reflexivity)))
      as (ode & quad & f & Hrun & H1 & H2 & Hout & _).
    + assert (E : states (stage_of ode_world 0) ++ qstates (stage_of ode_world 0)
                  = [x_demo]) by (vm_compute; reflexivity).
      rewrite E. intros k [<-|[]]. exists (MNeg x_demo). vm_compute; reflexivity.
    + exists ode, quad, f. repeat split; assumption.
  - apply (proj2 (_ode_needs_all_derivatives (H := demo_external)
                    (snd (state 0 1 1 false ocp_world)) 0
                    (stage_of (snd (state 0 1 1 false ocp_world)) 0)
                    ltac:(vm_compute; reflexivity))).
    exists x_demo. split; [|vm_compute; reflexivity].
    assert (E : states (stage_of (snd (state 0 1 1 false ocp_world)) 0) ++
                qstates (stage_of (snd (state 0 1 1 false ocp_world)) 0)
                = [x_demo]) by (vm_compute; reflexivity).
    rewrite E. now left.
Defined.

(** X17: [integral(expr, grid='inf')] reaches the dynamics function: on a stage
    whose dynamics function exists, with derivatives [ode] of the states
    and [quad] of the quadrature states, the function built after the call
    has the same state derivatives and algebraic equations, and [expr] as
    one more quadrature output, at the end; the states that the function
    takes as input are the same - the auxiliary state is not one of them. *)
Theorem integral_inf_feeds_quad `{External}
    (w : World) (self : addr) (s : Stage) (expr : MX) (ode quad : list MX) :
  stages w !! self = Some s ->
  master_ok s w ->
  hd_nonempty (_state_next s) = false ->
  ~ In (MSym (next_sym w) "x" 1 1) (states s ++ qstates s) ->
  Forall2 (fun k e => hd_get k (_state_der s) = Some e) (states s) ode ->
  Forall2 (fun k e => hd_get k (_state_der s) = Some e) (qstates s) quad ->
  exists r f w',
    (r <- integral self expr "inf" ;; f <- _ode self ;; ret (r, f)) w =
      (Ret (r, f), w') /\
    fn_out f = [vvcat ode; vvcat (_alg s); vvcat (quad ++ [expr])] /\
    fn_in f = [Stage_x s; Stage_u s; Stage_z s; vcat [Stage_p s; Stage_v s]; _t s].
Proof.
  intros Hs Hm Hnext Hfresh Hode Hquad.
  assert (Hkeep : forall keys vs,
            (forall k, In k keys -> In k (states s ++ qstates s)) ->
            Forall2 (fun k e => hd_get k (_state_der s) = Some e) keys vs ->
            Forall2 (fun k e =>
                       hd_get k (hd_set (MSym (next_sym w) "x" 1 1) expr
                                   (_state_der s)) = Some e) keys vs).
  { intros keys vs Hsub HF. induction HF as [|k v keys vs Hk HF IH];
      constructor.
    - rewrite hd_get_set_ne; [exact Hk|]. intros ->. apply Hfresh, Hsub. now left.
    - apply IH. intros k' Hin. apply Hsub. now right. }
  unfold bind at 1. rewrite (integral_inf_run _ _ _ _ Hs Hm Hnext). cbv beta iota.
  unfold bind at 1.
  erewrite (_ode_run _ self _ ode (quad ++ [expr])); [|lookup_tac| |].
  - unfold ret. eexists _, _, _. split; [reflexivity|]. split; reflexivity.
  - ssimpl. apply Hkeep; [|exact Hode]. intros k Hin. apply in_or_app. now left.
  - ssimpl. apply Forall2_app.
    + apply Hkeep; [|exact Hquad]. intros k Hin. apply in_or_app. now right.
    + constructor; [apply hd_get_set_eq|constructor].
Qed.

Lemma integral_inf_feeds_quad_witness :
  exists r f w',
    (r <- integral 0 (MConst 7) "inf" ;; f <- _ode 0 ;; ret (r, f)) ode_world =
      (Ret (r, f), w') /\
    fn_out f = [vvcat [MNeg x_demo]; vvcat (_alg (stage_of ode_world 0));
                vvcat ([] ++ [MConst 7])].
Proof.
  destruct (integral_inf_feeds_quad (H := demo_external) ode_world 0
              (stage_of ode_world 0) (MConst 7) [MNeg x_demo] [])
    as (r & f & w' & Hrun & Hout & _).
  - vm_compute; reflexivity.
  - intros m Hm.
    assert (E : _master (stage_of ode_world 0) = Some 0)
      by (vm_compute; reflexivity).
    rewrite E in Hm. injection Hm as <-. exists false. vm_compute; reflexivity.
  - vm_compute; reflexivity.
  - assert (E : states (stage_of ode_world 0) ++ qstates (stage_of ode_world 0)
                = [x_demo]) by (vm_compute; reflexivity).
    rewrite E. intros [Heq|[]]. vm_compute in Heq. discriminate Heq.
  - assert (E : states (stage_of ode_world 0) = [x_demo])
      by (vm_compute; reflexivity).
    rewrite E. constructor; [vm_compute; reflexivity|constructor].
  - assert (E : qstates (stage_of ode_world 0) = [])
      by (vm_compute; reflexivity).
    rewrite E. constructor.
  - exists r, f, w'. split; assumption.
Defined.

(** ** Controls of higher order *)

Section ControlOrder.
Context `{External}.

Lemma control_zero_run w self s r c :
  stages w !! self = Some s ->
  control self r c 0 w =
    (Ret (MSym (next_sym w) "u" r c),
     with_transcribed (_master s) false
       (with_stage self (set_controls (controls s ++ [MSym (next_sym w) "u" r c]) s)
          (with_fresh 1 w))).
Proof. intros Hs. cbn [control]. now run. Qed.

Lemma chain_shift (n k r c : nat) :
  MSym (n + 0) "x" r c ::
    map (fun i => MSym (S n + i) "x" r c) (seq 0 k) =
  map (fun i => MSym (n + i) "x" r c) (seq 0 (S k)).
Proof.
  cbn [seq map]. f_equal. rewrite <- seq_shift, map_map.
  apply map_ext. intros i. f_equal. lia.
Qed.

End ControlOrder.

(** X18: [control(order=k)] on a stage without next-state rules returns after
    having minted [k + 1] symbols: [k] new states and one new control, in
    this order, appended to the states and the controls.  The derivative of
    each new state is the next symbol of the chain, the last one's the new
    control; the derivatives of all other states are as before.  The symbol
    returned is the head of the chain: the control itself only for
    [k = 0]. *)
Theorem control_order_chain `{External}
    (k : nat) (w : World) (self : addr) (s : Stage) (r c : nat) :
  stages w !! self = Some s ->
  hd_nonempty (_state_next s) = false ->
  exists w' s',
    control self r c k w =
      (Ret (MSym (next_sym w) (if (k =? 0)%nat then "u" else "x") r c), w') /\
    next_sym w' = S k + next_sym w /\
    stages w' !! self = Some s' /\
    states s' =
      states s ++ map (fun i => MSym (next_sym w + i) "x" r c) (seq 0 k) /\
    controls s' = controls s ++ [MSym (next_sym w + k) "u" r c] /\
    (forall i, i < k ->
       hd_get (MSym (next_sym w + i) "x" r c) (_state_der s') =
         Some (MSym (next_sym w + S i) (if (S i =? k)%nat then "u" else "x") r c)) /\
    (forall key,
       (forall i, i < k -> key <> MSym (next_sym w + i) "x" r c) ->
       hd_get key (_state_der s') = hd_get key (_state_der s)) /\
    _state_next s' = _state_next s.
Proof.
  revert w s. induction k as [|k IH]; intros w s Hs Hnext.
  - rewrite (control_zero_run _ _ _ _ _ Hs).
    eexists _, _. split; [reflexivity|]. split; [reflexivity|].
    split; [lookup_tac|]. ssimpl. cbn [seq map].
    rewrite app_nil_r, Nat.add_0_r.
    split; [reflexivity|]. split; [reflexivity|].
    split; [intros i Hi; lia|]. split; reflexivity.
  - cbn [control]. unfold bind at 1. rewrite (state_run _ _ _ _ _ _ Hs).
    cbv beta iota.
    destruct (IH (with_transcribed (_master s) false
                    (with_stage self
                       (set_states (states s ++ [MSym (next_sym w) "x" r c]) s)
                       (with_fresh 1 w)))
                 (set_states (states s ++ [MSym (next_sym w) "x" r c]) s))
      as (w2 & s2 & Hrun & Hsym & Hs2 & Hstates & Hctrl & Hder & Hframe & Hsn);
      [lookup_tac|exact Hnext|].
    revert Hrun Hsym Hstates Hctrl Hder Hframe Hsn. wsimpl. ssimpl.
    intros Hrun Hsym Hstates Hctrl Hder Hframe Hsn.
    unfold bind at 1. rewrite Hrun. cbv beta iota.
    unfold bind at 1. rewrite (set_der_run _ _ _ _ _ Hs2).
    rewrite Hsn, Hnext. unfold ret.
    eexists _, _. split; [reflexivity|]. wsimpl. split; [rewrite Hsym; lia|].
    split; [lookup_tac|]. ssimpl.
    split; [rewrite Hstates, <- app_assoc, <- chain_shift, Nat.add_0_r;
            reflexivity|].
    split; [rewrite Hctrl; do 3 f_equal; lia|].
    split; [|split; [|exact Hsn]].
    + intros [|i] Hi.
      * rewrite Nat.add_0_r, hd_get_set_eq. do 2 f_equal; [lia|].
        now destruct k.
      * rewrite hd_get_set_ne by (intros Heq; injection Heq; lia).
        replace (next_sym w + S i) with (1 + next_sym w + i) by lia.
        rewrite Hder by lia. do 2 f_equal. lia.
    + intros key Hkey.
      rewrite hd_get_set_ne
        by (specialize (Hkey 0 ltac:(lia)); now rewrite Nat.add_0_r in Hkey).
      apply Hframe. intros i Hi.
      replace (1 + next_sym w + i) with (next_sym w + S i) by lia.
      apply Hkey. lia.
Qed.

Lemma control_order_chain_witness :
  exists w' s',
    control 0 1 1 2 ocp_world = (Ret (MSym (next_sym ocp_world) "x" 1 1), w') /\
    stages w' !! 0 = Some s' /\
    states s' = states (stage_of ocp_world 0) ++
                [MSym (next_sym ocp_world + 0) "x" 1 1;
                 MSym (next_sym ocp_world + 1) "x" 1 1] /\
    controls s' = controls (stage_of ocp_world 0) ++
                  [MSym (next_sym ocp_world + 2) "u" 1 1].
Proof.
  destruct (control_order_chain (H := demo_external) 2 ocp_world 0
              (stage_of ocp_world 0) 1 1)
    as (w' & s' & Hrun & _ & Hs' & Hstates & Hctrl & _).
  - vm_compute; reflexivity.
  - vm_compute; reflexivity.
  - exists w', s'. repeat split; assumption.
Defined.

(** X19: On a stage that has next-state rules, [control(order=k)] with
    [k >= 1] raises - but only at the innermost [set_der], after all [k]
    states and the control have been appended: the failed call leaves the
    stage with [k] states and one control more, none of them with a
    derivative. *)
Theorem control_order_failure_not_atomic `{External}
    (k : nat) (w : World) (self : addr) (s : Stage) (r c : nat) :
  stages w !! self = Some s ->
  hd_nonempty (_state_next s) = true ->
  exists w' s',
    control self r c (S k) w = (Raise AssertionError, w') /\
    stages w' !! self = Some s' /\
    states s' =
      states s ++ map (fun i => MSym (next_sym w + i) "x" r c) (seq 0 (S k)) /\
    controls s' = controls s ++ [MSym (next_sym w + S k) "u" r c] /\
    _state_der s' = _state_der s /\
    _state_next s' = _state_next s.
Proof.
  revert w s. induction k as [|k IH]; intros w s Hs Hnext.
  - cbn [control]. unfold bind at 1. rewrite (state_run _ _ _ _ _ _ Hs).
    cbv beta iota. run.
    erewrite (set_der_run _ self) by lookup_tac.
    ssimpl. rewrite Hnext.
    eexists _, _. split; [reflexivity|]. split; [lookup_tac|].
    ssimpl. wsimpl. cbn [seq map]. rewrite Nat.add_0_r.
    split; [reflexivity|]. split; [do 3 f_equal; lia|]. split; reflexivity.
  - cbn [control]. unfold bind at 1. rewrite (state_run _ _ _ _ _ _ Hs).
    cbv beta iota.
    destruct (IH (with_transcribed (_master s) false
                    (with_stage self
                       (set_states (states s ++ [MSym (next_sym w) "x" r c]) s)
                       (with_fresh 1 w)))
                 (set_states (states s ++ [MSym (next_sym w) "x" r c]) s))
      as (w2 & s2 & Hrun & Hs2 & Hstates & Hctrl & Hder & Hsn);
      [lookup_tac|exact Hnext|].
    revert Hrun Hstates Hctrl Hder Hsn. wsimpl. ssimpl.
    intros Hrun Hstates Hctrl Hder Hsn.
    unfold bind at 1. cbn [control] in Hrun. rewrite Hrun.
    exists w2, s2. split; [reflexivity|]. split; [exact Hs2|].
    split; [rewrite Hstates, <- app_assoc, <- (chain_shift (next_sym w) (S k)),
              Nat.add_0_r; reflexivity|].
    split; [rewrite Hctrl; do 3 f_equal; lia|]. split; assumption.
Qed.

Lemma control_order_failure_not_atomic_witness :
  exists w' s',
    control 0 1 1 1 diffeq_world = (Raise AssertionError, w') /\
    stages w' !! 0 = Some s' /\
    controls s' = controls (stage_of diffeq_world 0) ++
                  [MSym (next_sym diffeq_world + 1) "u" 1 1] /\
    _state_der s' = _state_der (stage_of diffeq_world 0).
Proof.
  destruct (control_order_failure_not_atomic (H := demo_external) 0
              diffeq_world 0 (stage_of diffeq_world 0) 1 1)
    as (w' & s' & Hrun & Hs' & _ & Hctrl & Hder & _).
  - vm_compute; reflexivity.
  - vm_compute; reflexivity.
  - exists w', s'. repeat split; assumption.
Defined.

(** ** Child stages *)

Section ChildStages.
Context `{External}.

(** The free-time check only assigns variables, times, constraints and
    initial guesses. *)
Lemma freed_frame {A} (f : Stage -> A) n s :
  (forall r v, f (set_variables v r) = f r) ->
  (forall r v, f (set__t0 v r) = f r) ->
  (forall r v, f (set__T v r) = f r) ->
  (forall r v, f (set__constraints v r) = f r) ->
  (forall r v, f (set__initial v r) = f r) ->
  f (fst (freed n s)) = f s.
Proof.
  intros Hv Ht0 HT Hc Hi. unfold freed, free_t0, free_T.
  destruct (_t0 s); ssimpl; destruct (_T s); cbn [fst];
    repeat first [rewrite Hi|rewrite Hc|rewrite HT|rewrite Ht0|rewrite Hv];
    reflexivity.
Qed.

Lemma new_stage_frame {A} (f : Stage -> A) master parent kw n :
  (forall r v, f (set_variables v r) = f r) ->
  (forall r v, f (set__t0 v r) = f r) ->
  (forall r v, f (set__T v r) = f r) ->
  (forall r v, f (set__constraints v r) = f r) ->
  (forall r v, f (set__initial v r) = f r) ->
  f (new_stage master parent kw n) =
    f (init_stage master parent (default (Fixed (VNum 0)) (kw_t0 kw))
         (default (Fixed (VNum 1)) (kw_T kw)) n).
Proof.
  intros Hv Ht0 HT Hc Hi. unfold new_stage. cbv zeta.
  destruct (default false (kw_clone kw)); [reflexivity|].
  now apply freed_frame.
Qed.

(** What [clone] never assigns keeps the value the constructor gave it. *)
Lemma clone_stage_frame {A} (f : Stage -> A) s master parent kw w :
  (forall r v, f (set_variables v r) = f r) ->
  (forall r v, f (set__t0 v r) = f r) ->
  (forall r v, f (set__T v r) = f r) ->
  (forall r v, f (set__constraints v r) = f r) ->
  (forall r v, f (set__initial v r) = f r) ->
  (forall r v, f (set__placeholders v r) = f r) ->
  (forall r v, f (set__placeholder_callbacks v r) = f r) ->
  (forall r v, f (set_states v r) = f r) ->
  (forall r v, f (set_controls v r) = f r) ->
  (forall r v, f (set_algebraics v r) = f r) ->
  (forall r v, f (set_parameters v r) = f r) ->
  (forall r v, f (set__offsets v r) = f r) ->
  (forall r v, f (set__param_vals v r) = f r) ->
  (forall r v, f (set__state_der v r) = f r) ->
  (forall r v, f (set__alg v r) = f r) ->
  (forall r v, f (set__state_next v r) = f r) ->
  (forall r v, f (set__objective v r) = f r) ->
  (forall r v, f (set__t v r) = f r) ->
  (forall r v, f (set__method v r) = f r) ->
  f (clone_stage s master parent kw w) =
    f (init_stage master parent (default (Fixed (VNum 0)) (kw_t0 kw))
         (default (Fixed (VNum 1)) (kw_T kw)) (next_sym w)).
Proof.
  intros Hv Ht0 HT Hc Hi Hp Hpc Hx Hu Hz Hpar Hoff Hpv Hder Halg Hnext Hobj Ht Hm.
  assert (H1 : forall r, f (match kw_T kw with
                            | None => set__T (_T s) r
                            | Some _ => r
                            end) = f r)
    by (intros r; destruct (kw_T kw); [reflexivity|apply HT]).
  assert (H2 : forall r, f (match kw_t0 kw with
                            | None => set__t0 (_t0 s) r
                            | Some _ => r
                            end) = f r)
    by (intros r; destruct (kw_t0 kw); [reflexivity|apply Ht0]).
  unfold clone_stage, clone_finish. cbv zeta.
  rewrite Hm, Ht, H2, H1, freed_frame by assumption.
  unfold clone_copy. cbv zeta.
  rewrite Hi, Hc, Hobj, Hnext, Halg, Hder, Hpv, Hoff, Hv, Hpar, Hz, Hu, Hx,
    copy_placeholders_frame by assumption.
  now apply new_stage_frame.
Qed.

End ChildStages.

Ltac frame_tac := intros; reflexivity.



(** ** What a clone carries over *)

Section CloneCarries.
Context `{External}.

(** The assignments after the free-time check only touch the times, the
    time symbol and the method. *)
Lemma clone_finish_frame {A} (f : Stage -> A) s kw r :
  (forall r v, f (set__t0 v r) = f r) ->
  (forall r v, f (set__T v r) = f r) ->
  (forall r v, f (set__t v r) = f r) ->
  (forall r v, f (set__method v r) = f r) ->
  f (clone_finish s kw r) = f r.
Proof.
  intros Ht0 HT Ht Hm. unfold clone_finish. cbv zeta. rewrite Hm, Ht.
  destruct (kw_t0 kw); [|rewrite Ht0]; (destruct (kw_T kw); [|rewrite HT]);
    reflexivity.
Qed.

Lemma clone_finish_method s kw r : _method (clone_finish s kw r) = _method s.
Proof. reflexivity. Qed.

Lemma clone_copy_copied s tg r :
  states (clone_copy s tg r) = states s /\
  _state_der (clone_copy s tg r) = _state_der s /\
  _state_next (clone_copy s tg r) = _state_next s /\
  _alg (clone_copy s tg r) = _alg s /\
  _offsets (clone_copy s tg r) = _offsets s /\
  _param_vals (clone_copy s tg r) = _param_vals s.
Proof. unfold clone_copy. ssimpl. repeat split; reflexivity. Qed.

(** The attributes that [clone] copies unchanged. *)
Lemma clone_stage_copied s master parent kw w :
  states (clone_stage s master parent kw w) = states s /\
  _state_der (clone_stage s master parent kw w) = _state_der s /\
  _state_next (clone_stage s master parent kw w) = _state_next s /\
  _alg (clone_stage s master parent kw w) = _alg s /\
  _offsets (clone_stage s master parent kw w) = _offsets s /\
  _param_vals (clone_stage s master parent kw w) = _param_vals s /\
  _method (clone_stage s master parent kw w) = _method s.
Proof.
  unfold clone_stage. cbv zeta.
  match goal with
  | |- context [clone_copy s ?tg ?r] =>
      destruct (clone_copy_copied s tg r) as (Hx & Hder & Hnext & Halg & Hoff & Hpv)
  end.
  repeat split; try apply clone_finish_method;
    rewrite clone_finish_frame by frame_tac;
    rewrite freed_frame by frame_tac; assumption.
Qed.

End CloneCarries.



(** X22: The dynamics function of a clone has no quadrature output: on a stage
    whose states all have a derivative, [clone] followed by [_ode] on the
    clone returns a function with the state derivatives and algebraic
    equations of the original and an empty third output - whatever
    integrals the original has accumulated. *)
Theorem clone_ode_without_quadratures `{External}
    (w : World) (self : addr) (s : Stage) (par master : option addr)
    (kw : kwargs) (ode : list MX) :
  stages w !! self = Some s ->
  parent_ok par master w ->
  placeholders_ok s ->
  Forall2 (fun k e => hd_get k (_state_der s) = Some e) (states s) ode ->
  exists f w',
    (new <- clone self par kw ;; _ode new) w = (Ret f, w') /\
    fn_out f = [vvcat ode; vvcat (_alg s); vvcat []].
Proof.
  intros Hs Hok Hph Hode. unfold bind.
  rewrite (clone_run _ _ _ _ _ _ Hs Hok Hph). cbv beta iota.
  destruct (clone_stage_copied s master par kw w)
    as (Hx & Hder & _ & Halg & _).
  erewrite (_ode_run _ _ (clone_stage s master par kw w) ode []).
  - eexists _, _. split; [reflexivity|]. cbn [fn_out]. now rewrite Halg.
  - unfold clone_world. cbv zeta. wsimpl. now apply list_lookup_middle.
  - now rewrite Hx, Hder.
  - rewrite (clone_stage_frame qstates) by frame_tac. constructor.
Qed.

Lemma clone_ode_without_quadratures_witness :
  exists f w',
    (new <- clone 0 (Some 0) no_kwargs ;; _ode new)
      (snd (integral 0 x_demo "inf" ode_world)) = (Ret f, w') /\
    fn_out f =
      [vvcat [MNeg x_demo];
       vvcat (_alg (stage_of (snd (integral 0 x_demo "inf" ode_world)) 0));
       vvcat []].
Proof.
  apply (clone_ode_without_quadratures (H := demo_external)
           (snd (integral 0 x_demo "inf" ode_world)) 0
           (stage_of (snd (integral 0 x_demo "inf" ode_world)) 0)
           (Some 0) (Some 0) no_kwargs [MNeg x_demo]).
  - vm_compute; reflexivity.
  - split.
    + exists (stage_of (snd (integral 0 x_demo "inf" ode_world)) 0).
      split; vm_compute; reflexivity.
    + intros m Hm. injection Hm as <-. split.
      * exists true. vm_compute; reflexivity.
      * exists (stage_of (snd (integral 0 x_demo "inf" ode_world)) 0).
        split; vm_compute; reflexivity.
  - assert (E : hd_keys (_placeholders
                  (stage_of (snd (integral 0 x_demo "inf" ode_world)) 0)) =
                [MSym 1 "r_T" 1 1; MSym 2 "r_t0" 1 1; MSym 5 "r_at_tf" 1 1])
      by (vm_compute; reflexivity).
    unfold placeholders_ok. rewrite E.
    repeat constructor; vm_compute; eauto.
  - assert (E : states (stage_of (snd (integral 0 x_demo "inf" ode_world)) 0) =
                [x_demo]) by (vm_compute; reflexivity).
    rewrite E. constructor; [vm_compute; reflexivity|constructor].
Defined.

(** ** Which declared symbols are signals *)

Section Declared.
Context `{External}.

Lemma depends_on_any_fresh n nm r c l :
  minted_before n l -> depends_on_any (MSym n nm r c) l = false.
Proof.
  intros Hl. unfold depends_on_any. apply not_true_is_false. intros Hex.
  apply existsb_exists in Hex. destruct Hex as (e & He & Hdep).
  unfold depends_on in Hdep. apply existsb_exists in Hdep.
  destruct Hdep as (i & Hi & Hdep). cbn [symbols existsb] in Hdep.
  rewrite orb_false_r in Hdep. apply Nat.eqb_eq in Hdep. subst i.
  specialize (Hl e n He Hi). lia.
Qed.

Lemma depends_on_any_last nm n r c l :
  depends_on_any (MSym n nm r c) (l ++ [MSym n nm r c]) = true.
Proof.
  unfold depends_on_any. rewrite existsb_app. apply orb_true_iff. right.
  cbn. now rewrite Nat.eqb_refl.
Qed.

Lemma depends_on_any_mono e l l' :
  (forall x, In x l -> In x l') ->
  depends_on_any e l = true -> depends_on_any e l' = true.
Proof.
  unfold depends_on_any. intros Hincl Hl. apply existsb_exists in Hl.
  destruct Hl as (x & Hx & Hdep). apply existsb_exists. exists x.
  split; [now apply Hincl|exact Hdep].
Qed.

Lemma minted_before_incl n l l' :
  (forall e, In e l -> In e l') -> minted_before n l' -> minted_before n l.
Proof. intros Hincl Hl' e i He Hi. exact (Hl' e i (Hincl e He) Hi). Qed.

Lemma depends_on_Stage_v (s : Stage) (e : MX) :
  depends_on e (Stage_v s) =
  depends_on_any e (dd_get "" (variables s) ++ dd_get "control" (variables s)).
Proof. unfold Stage_v. apply depends_on_concat, symbols_vvcat. Qed.

Lemma depends_on_Stage_p (s : Stage) (e : MX) :
  depends_on e (Stage_p s) =
  depends_on_any e (dd_get "" (parameters s) ++ dd_get "control" (parameters s)).
Proof. unfold Stage_p. apply depends_on_concat, symbols_vvcat. Qed.

Lemma depends_on_Stage_x (s : Stage) (e : MX) :
  depends_on e (Stage_x s) = depends_on_any e (states s).
Proof. unfold Stage_x. apply depends_on_concat, symbols_vvcat. Qed.

Lemma depends_on_Stage_xq (s : Stage) (e : MX) :
  depends_on e (Stage_xq s) = depends_on_any e (qstates s).
Proof. unfold Stage_xq. apply depends_on_concat, symbols_vvcat. Qed.

End Declared.

(** The sub-lists of [declared s] are minted before [n] when the whole is. *)
Ltac minted_tac :=
  match goal with
  | Hfresh : minted_before ?n (declared ?s) |- minted_before ?n _ =>
      refine (minted_before_incl n _ _ _ Hfresh);
      let e := fresh "e" in
      let He := fresh "He" in
      intros e He; unfold declared; rewrite ?in_app_iff in *; tauto
  end.

(** X23: The grid of a variable decides where the stage files it.  With the
    default grid '' the new symbol is part of the decision variables [v]
    and is not a signal; with 'control' it is part of [v] and a signal; with
    'states' it is a signal but not part of [v]; with any other grid it is
    neither.  Nothing that was a signal before stops being one. *)
Theorem variable_grid_routing `{External}
    (w : World) (self : addr) (s : Stage) (r c : nat) (grid : string) :
  stages w !! self = Some s ->
  minted_before (next_sym w) (declared s) ->
  exists w' s',
    variable self r c grid w = (Ret (MSym (next_sym w) "v" r c), w') /\
    stages w' !! self = Some s' /\
    depends_on (MSym (next_sym w) "v" r c) (Stage_v s') =
      (String.eqb grid "" || String.eqb grid "control") /\
    is_signal self (MSym (next_sym w) "v" r c) w' =
      (Ret (String.eqb grid "control" || String.eqb grid "states"), w') /\
    (forall e, is_signal self e w = (Ret true, w) ->
               is_signal self e w' = (Ret true, w')).
Proof.
  intros Hs Hfresh. rewrite (variable_run _ _ _ _ _ _ Hs).
  eexists _, _. split; [reflexivity|]. split; [lookup_tac|].
  set (v := MSym (next_sym w) "v" r c).
  set (s' := set_variables (dd_append grid v (variables s)) s).
  assert (Hget : forall g, dd_get g (variables s') =
            if String.eqb g grid then dd_get grid (variables s) ++ [v]
            else dd_get g (variables s))
    by (intros g; apply dd_get_append).
  assert (H0 : depends_on_any v (dd_get "" (variables s)) = false)
    by (apply depends_on_any_fresh; minted_tac).
  assert (H1 : depends_on_any v (dd_get "control" (variables s)) = false)
    by (apply depends_on_any_fresh; minted_tac).
  assert (H2 : depends_on_any v (dd_get "states" (variables s)) = false)
    by (apply depends_on_any_fresh; minted_tac).
  assert (H3 : depends_on_any v
                 (states s ++ controls s ++ algebraics s ++ [_t s]) = false)
    by (apply depends_on_any_fresh; minted_tac).
  assert (H4 : depends_on_any v (hd_keys (_inf_der s)) = false)
    by (apply depends_on_any_fresh; minted_tac).
  split; [|split].
  - rewrite depends_on_Stage_v, depends_on_any_app, !Hget.
    rewrite (String.eqb_sym "" grid), (String.eqb_sym "control" grid).
    destruct (String.eqb_spec grid "") as [->|Hg0].
    + change (String.eqb "" "control") with false. cbv iota.
      unfold v. now rewrite depends_on_any_last.
    + destruct (String.eqb_spec grid "control") as [->|Hg1].
      * unfold v. now rewrite depends_on_any_last, orb_true_r.
      * now rewrite H0, H1.
  - erewrite is_signal_run by lookup_tac. unfold spec_is_signal.
    change (states s') with (states s). change (controls s') with (controls s).
    change (algebraics s') with (algebraics s). change (_t s') with (_t s).
    change (_inf_der s') with (_inf_der s).
    rewrite !app_assoc, depends_on_any_app, depends_on_any_app,
      <- !app_assoc, H3, H4, !Hget.
    rewrite (String.eqb_sym "states" grid), (String.eqb_sym "control" grid).
    cbn [orb]. rewrite orb_false_r.
    destruct (String.eqb_spec grid "control") as [->|Hg1].
    + change (String.eqb "control" "states") with false. cbv iota.
      unfold v. now rewrite depends_on_any_last.
    + destruct (String.eqb_spec grid "states") as [->|Hg2].
      * rewrite H1. unfold v. now rewrite depends_on_any_last.
      * now rewrite H1, H2.
  - intros e. rewrite (is_signal_run _ _ _ _ Hs).
    erewrite is_signal_run by lookup_tac. intros He. injection He as He.
    f_equal. f_equal. unfold spec_is_signal in *.
    change (states s') with (states s). change (controls s') with (controls s).
    change (algebraics s') with (algebraics s). change (_t s') with (_t s).
    change (_inf_der s') with (_inf_der s).
    assert (Hin : forall g x, In x (dd_get g (variables s)) ->
                              In x (dd_get g (variables s'))).
    { intros g x Hx. rewrite Hget.
      destruct (String.eqb g grid) eqn:Hg; [|exact Hx].
      apply String.eqb_eq in Hg. subst g. apply in_or_app. now left. }
    rewrite <- depends_on_any_app in He |- *.
    revert He. apply depends_on_any_mono. intros x.
    rewrite !in_app_iff. pose proof (Hin "control" x). pose proof (Hin "states" x).
    tauto.
Qed.

Lemma variable_grid_routing_witness :
  exists w' s',
    variable 0 1 1 "states" ocp_world =
      (Ret (MSym (next_sym ocp_world) "v" 1 1), w') /\
    stages w' !! 0 = Some s' /\
    depends_on (MSym (next_sym ocp_world) "v" 1 1) (Stage_v s') = false /\
    is_signal 0 (MSym (next_sym ocp_world) "v" 1 1) w' = (Ret true, w').
Proof.
  destruct (variable_grid_routing (H := demo_external) ocp_world 0
              (stage_of ocp_world 0) 1 1 "states")
    as (w' & s' & Hrun & Hs' & Hv & Hsig & _).
  - vm_compute; reflexivity.
  - assert (E : declared (stage_of ocp_world 0) = [MSym 0 "t" 1 1])
      by (vm_compute; reflexivity).
    assert (En : next_sym ocp_world = 3) by (vm_compute; reflexivity).
    rewrite E, En. intros e i [<-|[]] [<-|[]]. lia.
  - exists w', s'. repeat split; assumption.
Defined.

Section Factories.
Context `{External}.

Lemma parameter_run w self s n_rows n_cols grid :
  stages w !! self = Some s ->
  parameter self n_rows n_cols grid w =
    (Ret (MSym (next_sym w) "p" n_rows n_cols),
     with_transcribed (_master s) false
       (with_stage self
          (set_parameters
             (dd_append grid (MSym (next_sym w) "p" n_rows n_cols) (parameters s)) s)
          (with_fresh 1 w))).
Proof. intros Hs. unfold parameter. now run. Qed.

Lemma algebraic_run w self s n_rows n_cols :
  stages w !! self = Some s ->
  algebraic self n_rows n_cols w =
    (Ret (MSym (next_sym w) "z" n_rows n_cols),
     with_transcribed (_master s) false
       (with_stage self
          (set_algebraics (algebraics s ++ [MSym (next_sym w) "z" n_rows n_cols]) s)
          (with_fresh 1 w))).
Proof. intros Hs. unfold algebraic. now run. Qed.

Lemma depends_on_any_elem n nm r c l :
  In (MSym n nm r c) l -> depends_on_any (MSym n nm r c) l = true.
Proof.
  intros Hin. unfold depends_on_any. apply existsb_exists.
  exists (MSym n nm r c). split; [exact Hin|].
  unfold depends_on. cbn. now rewrite Nat.eqb_refl.
Qed.

End Factories.

(** X24: A parameter is never a signal, whatever its grid, and declaring one
    changes the signal test for no expression.  The grid decides whether
    the stage's parameter vector [p] holds it: with '' or 'control' it does,
    with any other grid it does not. *)
Theorem parameter_grid_routing `{External}
    (w : World) (self : addr) (s : Stage) (r c : nat) (grid : string) :
  stages w !! self = Some s ->
  minted_before (next_sym w) (declared s) ->
  exists w' s',
    parameter self r c grid w = (Ret (MSym (next_sym w) "p" r c), w') /\
    stages w' !! self = Some s' /\
    depends_on (MSym (next_sym w) "p" r c) (Stage_p s') =
      (String.eqb grid "" || String.eqb grid "control") /\
    is_signal self (MSym (next_sym w) "p" r c) w' = (Ret false, w') /\
    (forall e, fst (is_signal self e w') = fst (is_signal self e w)).
Proof.
  intros Hs Hfresh. rewrite (parameter_run _ _ _ _ _ _ Hs).
  eexists _, _. split; [reflexivity|]. split; [lookup_tac|].
  set (p := MSym (next_sym w) "p" r c).
  set (s' := set_parameters (dd_append grid p (parameters s)) s).
  assert (Hget : forall g, dd_get g (parameters s') =
            if String.eqb g grid then dd_get grid (parameters s) ++ [p]
            else dd_get g (parameters s))
    by (intros g; apply dd_get_append).
  assert (H0 : depends_on_any p (dd_get "" (parameters s)) = false)
    by (apply depends_on_any_fresh; minted_tac).
  assert (H1 : depends_on_any p (dd_get "control" (parameters s)) = false)
    by (apply depends_on_any_fresh; minted_tac).
  assert (H3 : depends_on_any p
                 (states s ++ controls s ++ algebraics s ++ [_t s] ++
                  dd_get "control" (variables s) ++
                  dd_get "states" (variables s)) = false)
    by (apply depends_on_any_fresh; minted_tac).
  assert (H4 : depends_on_any p (hd_keys (_inf_der s)) = false)
    by (apply depends_on_any_fresh; minted_tac).
  split; [|split].
  - rewrite depends_on_Stage_p, depends_on_any_app, !Hget.
    rewrite (String.eqb_sym "" grid), (String.eqb_sym "control" grid).
    destruct (String.eqb_spec grid "") as [->|Hg0].
    + change (String.eqb "" "control") with false. cbv iota.
      unfold p. now rewrite depends_on_any_last.
    + destruct (String.eqb_spec grid "control") as [->|Hg1].
      * unfold p. now rewrite depends_on_any_last, orb_true_r.
      * now rewrite H0, H1.
  - erewrite is_signal_run by lookup_tac. unfold spec_is_signal.
    change (states s') with (states s). change (controls s') with (controls s).
    change (algebraics s') with (algebraics s). change (_t s') with (_t s).
    change (variables s') with (variables s).
    change (_inf_der s') with (_inf_der s).
    now rewrite H3, H4.
  - intros e. rewrite (is_signal_run _ _ _ _ Hs).
    erewrite is_signal_run by lookup_tac. reflexivity.
Qed.

Lemma parameter_grid_routing_witness :
  exists w' s',
    parameter 0 1 1 "states" ocp_world =
      (Ret (MSym (next_sym ocp_world) "p" 1 1), w') /\
    stages w' !! 0 = Some s' /\
    depends_on (MSym (next_sym ocp_world) "p" 1 1) (Stage_p s') = false /\
    is_signal 0 (MSym (next_sym ocp_world) "p" 1 1) w' = (Ret false, w').
Proof.
  destruct (parameter_grid_routing (H := demo_external) ocp_world 0
              (stage_of ocp_world 0) 1 1 "states")
    as (w' & s' & Hrun & Hs' & Hp & Hsig & _).
  - vm_compute; reflexivity.
  - assert (E : declared (stage_of ocp_world 0) = [MSym 0 "t" 1 1])
      by (vm_compute; reflexivity).
    assert (En : next_sym ocp_world = 3) by (vm_compute; reflexivity).
    rewrite E, En. intros e i [<-|[]] [<-|[]]. lia.
  - exists w', s'. repeat split; assumption.
Defined.

(** X25: What [state], [algebraic] and [control] declare is a signal from the
    moment it is declared - except a quadrature state, which is not a
    signal and is kept out of the state vector [x]: it is only part of
    [xq]. *)
Theorem declared_symbols_signals `{External}
    (w : World) (self : addr) (s : Stage) (r c : nat) :
  stages w !! self = Some s ->
  minted_before (next_sym w) (declared s) ->
  (exists w',
     state self r c false w = (Ret (MSym (next_sym w) "x" r c), w') /\
     is_signal self (MSym (next_sym w) "x" r c) w' = (Ret true, w')) /\
  (exists w' s',
     state self r c true w = (Ret (MSym (next_sym w) "x" r c), w') /\
     stages w' !! self = Some s' /\
     is_signal self (MSym (next_sym w) "x" r c) w' = (Ret false, w') /\
     depends_on (MSym (next_sym w) "x" r c) (Stage_x s') = false /\
     depends_on (MSym (next_sym w) "x" r c) (Stage_xq s') = true) /\
  (exists w',
     algebraic self r c w = (Ret (MSym (next_sym w) "z" r c), w') /\
     is_signal self (MSym (next_sym w) "z" r c) w' = (Ret true, w')) /\
  (exists w',
     control self r c 0 w = (Ret (MSym (next_sym w) "u" r c), w') /\
     is_signal self (MSym (next_sym w) "u" r c) w' = (Ret true, w')).
Proof.
  intros Hs Hfresh. split; [|split; [|split]].
  - rewrite (state_run _ _ _ _ _ _ Hs). eexists. split; [reflexivity|].
    erewrite is_signal_run by lookup_tac. unfold spec_is_signal. ssimpl.
    rewrite depends_on_any_elem
      by (rewrite !in_app_iff; left; right; now left).
    reflexivity.
  - rewrite (state_run _ _ _ _ _ _ Hs). eexists _, _.
    split; [reflexivity|]. split; [lookup_tac|].
    split; [|split].
    + erewrite is_signal_run by lookup_tac. unfold spec_is_signal. ssimpl.
      rewrite !depends_on_any_fresh by minted_tac. reflexivity.
    + rewrite depends_on_Stage_x. ssimpl.
      apply depends_on_any_fresh. minted_tac.
    + rewrite depends_on_Stage_xq. ssimpl. apply depends_on_any_last.
  - rewrite (algebraic_run _ _ _ _ _ Hs). eexists. split; [reflexivity|].
    erewrite is_signal_run by lookup_tac. unfold spec_is_signal. ssimpl.
    rewrite depends_on_any_elem
      by (rewrite !in_app_iff; right; right; left; right; now left).
    reflexivity.
  - rewrite (control_zero_run _ _ _ _ _ Hs). eexists. split; [reflexivity|].
    erewrite is_signal_run by lookup_tac. unfold spec_is_signal. ssimpl.
    rewrite depends_on_any_elem
      by (rewrite !in_app_iff; right; left; right; now left).
    reflexivity.
Qed.

Lemma declared_symbols_signals_witness :
  exists w' s',
    state 0 1 1 true ocp_world = (Ret (MSym (next_sym ocp_world) "x" 1 1), w') /\
    stages w' !! 0 = Some s' /\
    is_signal 0 (MSym (next_sym ocp_world) "x" 1 1) w' = (Ret false, w') /\
    depends_on (MSym (next_sym ocp_world) "x" 1 1) (Stage_xq s') = true.
Proof.
  assert (Hs : stages ocp_world !! 0 = Some (stage_of ocp_world 0))
    by (vm_compute; reflexivity).
  assert (Hfresh : minted_before (next_sym ocp_world)
                     (declared (stage_of ocp_world 0))).
  { assert (E : declared (stage_of ocp_world 0) = [MSym 0 "t" 1 1])
      by (vm_compute; reflexivity).
    assert (En : next_sym ocp_world = 3) by (vm_compute; reflexivity).
    rewrite E, En. intros e i [<-|[]] [<-|[]]. lia. }
  destruct (proj1 (proj2 (declared_symbols_signals (H := demo_external)
                            ocp_world 0 (stage_of ocp_world 0) 1 1 Hs Hfresh)))
    as (w' & s' & Hrun & Hs' & Hsig & _ & Hxq).
  exists w', s'. repeat split; assumption.
Defined.
